(** * EVE coprocessor driver (eve.c): register access, command FIFO,
      bulk upload and touch calibration.

    The driver is embedded shallowly.  Every C function of eve.c that the
    properties below talk about is a Rocq function of the same name, written
    in a small state-and-error monad over the driver's world: the global
    [FifoWriteLocation], the chip on the other side of the SPI bus, and the
    record of everything that crossed the bus.

    C integer model: [uint8_t], [uint16_t], [uint32_t] wrap modulo 2^8,
    2^16, 2^32; [int] is 32 bits wide (the library's demos build against
    <conio.h> on a desktop host, and its STM32, RP2040 and NXP targets are
    32-bit as well), so [uint8_t] and [uint16_t] operands are promoted to a
    signed [int] and [/], [%] truncate toward zero ([Z.quot], [Z.rem]). *)

From Stdlib Require Import ZArith List Bool Lia Setoid Morphisms.
From Equations Require Import Equations.
Import ListNotations.

Local Open Scope Z_scope.

(* ------------------------------------------------------------------ *)
(** ** Fixed-width integers *)

Definition u8  (x : Z) : Z := x mod 2^8.
Definition u16 (x : Z) : Z := x mod 2^16.
Definition u32 (x : Z) : Z := x mod 2^32.
(** Conversion to [int32_t]: two's complement reading of the low 32 bits. *)
Definition s32 (x : Z) : Z := (x + 2^31) mod 2^32 - 2^31.
Arguments u8 : simpl never.
Arguments u16 : simpl never.
Arguments u32 : simpl never.
Arguments s32 : simpl never.

(** [uint32_t] arithmetic, as the C operators compute it. *)
Definition sub32 (a b : Z) : Z := u32 (a - b).
Definition add32 (a b : Z) : Z := u32 (a + b).
Definition mul32 (a b : Z) : Z := u32 (a * b).

Declare Scope c_scope.
Delimit Scope c_scope with c.
Arguments sub32 (a b)%_c.
Arguments add32 (a b)%_c.
Arguments mul32 (a b)%_c.
Infix "-" := sub32 : c_scope.
Infix "+" := add32 : c_scope.
Infix "*" := mul32 : c_scope.
Notation "a >> n" := (Z.shiftr a n) (at level 30, no associativity).
Notation "a .[ i ]" := (nth i a 0) (at level 1, left associativity, format "a .[ i ]").

(* ------------------------------------------------------------------ *)
(** ** Constants *)

(** [#define WorkBuffSz 512] *)
Definition WorkBuffSz : Z := 512.

(** Modelled from the spec: eve.h is not part of the sources.  The spec
    fixes the FIFO window at 4096 bytes and the command word at 4 bytes. *)
Definition FT_CMD_FIFO_SIZE : Z := 4096.
Definition FT_CMD_SIZE : Z := 4.

(** Modelled from the spec: the remaining quantities of eve.h are "fixed
    quantities the core depends on" (window bases and register offsets);
    their values are not given, so the driver is parametric in them. *)
Class eve_h := {
  RAM_CMD : Z;
  RAM_REG : Z;
  RAM_ERR_REPORT : Z;
  REG_CMD_READ : Z;
  REG_CMD_WRITE : Z;
  REG_CMD_DL : Z;
  REG_CPU_RESET : Z;
  REG_COPRO_PATCH_PTR : Z;
  REG_TOUCH_TRANSFORM_A : Z
}.

(* ------------------------------------------------------------------ *)
(** ** The transport and the chip behind it *)

(** What crosses the boundary to hw_api.h, in program order. *)
Inductive Event :=
| SPI_Enable
| SPI_Write (b : Z)
| SPI_WriteBuffer (bs : list Z)
| SPI_ReadBuffer (bs : list Z)
| SPI_Disable
| Delay (ms : Z)
| Reset_HW
| Logged (text : list Z).

(** The chip is a machine driven by the bus: it is selected, clocked one
    byte at a time in either direction, and deselected.  Nothing is assumed
    about how it answers; the read cursor of a real chip moves on its own. *)
Class Chip (D : Type) := {
  chip_select : D -> D;
  chip_mosi : Z -> D -> D;
  chip_miso : D -> Z * D;
  chip_deselect : D -> D;
  chip_idle : Z -> D -> D;
  chip_reset : D -> Z * D
}.

Record World (D : Type) := mkWorld {
  FifoWriteLocation : Z;   (* uint16_t FifoWriteLocation *)
  chip : D;
  wire : list Event
}.
Arguments mkWorld {D} _ _ _.
Arguments FifoWriteLocation {D} _.
Arguments chip {D} _.
Arguments wire {D} _.

(** Outcome of running driver code: it returns, it is still spinning in a
    polling loop when the poll budget is used up, or it divides by zero. *)
Inductive result (S A : Type) :=
| Ok (a : A) (s : S)
| Hang
| Trap.
Arguments Ok {S A} _ _.
Arguments Hang {S A}.
Arguments Trap {S A}.

Definition M (D A : Type) : Type := World D -> result (World D) A.

Definition ret {D A} (a : A) : M D A := fun s => Ok a s.
Definition bind {D A B} (c : M D A) (k : A -> M D B) : M D B :=
  fun s => match c s with
           | Ok a s' => k a s'
           | Hang => Hang
           | Trap => Trap
           end.

Notation "x <- c ;; k" := (bind c (fun x => k))
  (at level 61, c at next level, right associativity).
Notation "c ;; k" := (bind c (fun _ => k))
  (at level 61, right associativity).

Definition hang {D A} : M D A := fun _ => Hang.
Definition trap {D A} : M D A := fun _ => Trap.

Definition inspect {A} (a : A) : {b : A | a = b} := exist _ a eq_refl.

Notation "x <-? c ;; k" := (match c with Some x => k | None => None end)
  (at level 61, c at next level, right associativity).

(** The bytes a [const uint8_t *] points at: [n] bytes of host memory
    starting at address [p]. *)
Definition peek (host : Z -> Z) (p n : Z) : list Z :=
  map (fun i => u8 (host (p + Z.of_nat i))) (seq 0 (Z.to_nat n)).

Section Driver.

Context {D : Type} {dev : Chip D} {regs : eve_h}.

Abbreviation W := (World D).
Abbreviation Run := (M D).

Definition emit (e : Event) (d : D) (s : W) : W :=
  mkWorld (FifoWriteLocation s) d (wire s ++ [e]).

Definition set_FifoWriteLocation (v : Z) : Run unit :=
  fun s => Ok tt (mkWorld (u16 v) (chip s) (wire s)).

Definition get_FifoWriteLocation : Run Z :=
  fun s => Ok (FifoWriteLocation s) s.

Definition chip_feed (bs : list Z) (d : D) : D :=
  fold_left (fun d b => chip_mosi b d) bs d.

Fixpoint chip_burst (n : nat) (d : D) : list Z * D :=
  match n with
  | O => ([], d)
  | S n' =>
      let (b, d1) := chip_miso d in
      let (bs, d2) := chip_burst n' d1 in
      (u8 b :: bs, d2)
  end.

(** Modelled from the spec: hw_api.h is not part of the sources.  The
    transport offers open-transaction, write byte/buffer, read byte/buffer
    and close-transaction; a byte argument is a [uint8_t]. *)
Definition HAL_SPI_Enable : Run unit :=
  fun s => Ok tt (emit SPI_Enable (chip_select (chip s)) s).

Definition HAL_SPI_Disable : Run unit :=
  fun s => Ok tt (emit SPI_Disable (chip_deselect (chip s)) s).

Definition HAL_SPI_Write (data : Z) : Run unit :=
  fun s => Ok tt (emit (SPI_Write (u8 data)) (chip_mosi (u8 data) (chip s)) s).

Definition HAL_SPI_WriteBuffer (Buffer : list Z) : Run unit :=
  fun s => Ok tt (emit (SPI_WriteBuffer Buffer) (chip_feed Buffer (chip s)) s).

Definition HAL_SPI_ReadBuffer (Length : nat) : Run (list Z) :=
  fun s => let (bs, d) := chip_burst Length (chip s) in
           Ok bs (emit (SPI_ReadBuffer bs) d s).

Definition HAL_Delay (ms : Z) : Run unit :=
  fun s => Ok tt (emit (Delay ms) (chip_idle ms (chip s)) s).

Definition HAL_Eve_Reset_HW : Run Z :=
  fun s => let (r, d) := chip_reset (chip s) in Ok r (emit Reset_HW d s).

(** [#define Log printf] *)
Definition Log (text : list Z) : Run unit :=
  fun s => Ok tt (emit (Logged text) (chip s) s).

(* ------------------------------------------------------------------ *)
(** ** Register access layer *)

Definition wr32 (address parameter : Z) : Run unit :=
  let address := u32 address in
  let parameter := u32 parameter in
  HAL_SPI_Enable ;;
  let buffer :=
    [ u8 (Z.lor (address >> 16) 0x80);
      u8 (address >> 8);
      u8 address;
      u8 (Z.land parameter 0xff);
      u8 (Z.land (parameter >> 8) 0xff);
      u8 (Z.land (parameter >> 16) 0xff);
      u8 (Z.land (parameter >> 24) 0xff) ] in
  HAL_SPI_WriteBuffer buffer ;;
  HAL_SPI_Disable.

Definition wr16 (address parameter : Z) : Run unit :=
  let address := u32 address in
  let parameter := u16 parameter in
  HAL_SPI_Enable ;;
  HAL_SPI_Write (u8 (Z.lor (address >> 16) 0x80)) ;;
  HAL_SPI_Write (u8 (address >> 8)) ;;
  HAL_SPI_Write (u8 address) ;;
  HAL_SPI_Write (u8 (Z.land parameter 0xff)) ;;
  HAL_SPI_Write (u8 (parameter >> 8)) ;;
  HAL_SPI_Disable.

Definition wr8 (address parameter : Z) : Run unit :=
  let address := u32 address in
  let parameter := u8 parameter in
  HAL_SPI_Enable ;;
  HAL_SPI_Write (u8 (Z.lor (address >> 16) 0x80)) ;;
  HAL_SPI_Write (u8 (address >> 8)) ;;
  HAL_SPI_Write (u8 address) ;;
  HAL_SPI_Write parameter ;;
  HAL_SPI_Disable.

Definition rd32 (address : Z) : Run Z :=
  let address := u32 address in
  HAL_SPI_Enable ;;
  let buf :=
    [ u8 (Z.land (address >> 16) 0x3F);
      u8 (Z.land (address >> 8) 0xff);
      u8 (Z.land address 0xff) ] in
  HAL_SPI_WriteBuffer buf ;;
  buf <- HAL_SPI_ReadBuffer 4 ;;
  HAL_SPI_Disable ;;
  let Data32 :=
    (buf.[0%nat] + Z.shiftl buf.[1%nat] 8
       + Z.shiftl buf.[2%nat] 16 + Z.shiftl buf.[3%nat] 24)%c in
  ret Data32.

Definition rd16 (address : Z) : Run Z :=
  let address := u32 address in
  HAL_SPI_Enable ;;
  HAL_SPI_Write (Z.land (address >> 16) 0x3F) ;;
  HAL_SPI_Write (Z.land (address >> 8) 0xff) ;;
  HAL_SPI_Write (Z.land address 0xff) ;;
  buf <- HAL_SPI_ReadBuffer 2 ;;
  HAL_SPI_Disable ;;
  let Data16 := u16 (buf.[0%nat] + Z.shiftl (u16 buf.[1%nat]) 8) in
  ret Data16.

Definition rd8 (address : Z) : Run Z :=
  let address := u32 address in
  HAL_SPI_Enable ;;
  HAL_SPI_Write (Z.land (address >> 16) 0x3F) ;;
  HAL_SPI_Write (Z.land (address >> 8) 0xff) ;;
  HAL_SPI_Write (Z.land address 0xff) ;;
  buf <- HAL_SPI_ReadBuffer 1 ;;
  HAL_SPI_Disable ;;
  ret buf.[0%nat].

(* ------------------------------------------------------------------ *)
(** ** Command FIFO engine *)

Definition Eve_Reset : Run Z :=
  set_FifoWriteLocation 0 ;;
  HAL_Eve_Reset_HW.

Definition Send_CMD (data : Z) : Run unit :=
  loc <- get_FifoWriteLocation ;;
  wr32 (loc + RAM_CMD) data ;;
  loc <- get_FifoWriteLocation ;;
  set_FifoWriteLocation (loc + FT_CMD_SIZE) ;;
  loc <- get_FifoWriteLocation ;;
  set_FifoWriteLocation (Z.rem loc FT_CMD_FIFO_SIZE).

Definition UpdateFIFO : Run unit :=
  loc <- get_FifoWriteLocation ;;
  wr16 (REG_CMD_WRITE + RAM_REG) loc.

(* ------------------------------------------------------------------ *)
(** ** Touch calibration *)

(** [((int64_t)tmp << 16) / k], stored into a [uint32_t]; dividing by zero
    has no result. *)
Definition fixed_quot (tmp k : Z) : option Z :=
  if k =? 0 then None else Some (u32 (Z.quot (Z.shiftl tmp 16) k)).

Definition calculate_touch_matrix (displayX displayY touchX touchY : list Z)
  : option (list Z) :=
  let k := s32
    (((touchX.[0] - touchX.[2]) * (touchY.[1] - touchY.[2])) -
     ((touchX.[1] - touchX.[2]) * (touchY.[0] - touchY.[2])))%c in
  let tmp := s32
    (((displayX.[0] - displayX.[2]) * (touchY.[1] - touchY.[2])) -
     ((displayX.[1] - displayX.[2]) * (touchY.[0] - touchY.[2])))%c in
  m0 <-? fixed_quot tmp k ;;
  let tmp := s32
    (((touchX.[0] - touchX.[2]) * (displayX.[1] - displayX.[2])) -
     ((displayX.[0] - displayX.[2]) * (touchX.[1] - touchX.[2])))%c in
  m1 <-? fixed_quot tmp k ;;
  let tmp := s32
    ((touchY.[0] * ((touchX.[2] * displayX.[1]) - (touchX.[1] * displayX.[2]))) +
     (touchY.[1] * ((touchX.[0] * displayX.[2]) - (touchX.[2] * displayX.[0]))) +
     (touchY.[2] * ((touchX.[1] * displayX.[0]) - (touchX.[0] * displayX.[1]))))%c in
  m2 <-? fixed_quot tmp k ;;
  let tmp := s32
    (((displayY.[0] - displayY.[2]) * (touchY.[1] - touchY.[2])) -
     ((displayY.[1] - displayY.[2]) * (touchY.[0] - touchY.[2])))%c in
  m3 <-? fixed_quot tmp k ;;
  let tmp := s32
    (((touchX.[0] - touchX.[2]) * (displayY.[1] - displayY.[2])) -
     ((displayY.[0] - displayY.[2]) * (touchX.[1] - touchX.[2])))%c in
  m4 <-? fixed_quot tmp k ;;
  let tmp := s32
    ((touchY.[0] * ((touchX.[2] * displayY.[1]) - (touchX.[1] * displayY.[2]))) +
     (touchY.[1] * ((touchX.[0] * displayY.[2]) - (touchX.[2] * displayY.[0]))) +
     (touchY.[2] * ((touchX.[1] * displayY.[0]) - (touchX.[0] * displayY.[1]))))%c in
  m5 <-? fixed_quot tmp k ;;
  Some [m0; m1; m2; m3; m4; m5].

(** The [do { wr32(...); count++; } while (count < 6)] that ends both
    calibration routines. *)
Fixpoint write_TransMatrix (turns : nat) (TransMatrix : list Z) (count : Z) : Run unit :=
  match turns with
  | O => hang
  | S turns' =>
      wr32 (REG_TOUCH_TRANSFORM_A + RAM_REG + count * 4) TransMatrix.[Z.to_nat count] ;;
      let count := count + 1 in
      if count <? 6 then write_TransMatrix turns' TransMatrix count else ret tt
  end.

Definition Calibrate_Fixed (width_pixels height_pixels touch_x_max touch_y_max : Z)
  : Run unit :=
  let width_pixels := u32 width_pixels in
  let height_pixels := u32 height_pixels in
  let touch_x_max := u32 touch_x_max in
  let touch_y_max := u32 touch_y_max in
  let displayX := [0; width_pixels; width_pixels] in
  let displayY := [0; 0; height_pixels] in
  let touchX := [0; touch_x_max; touch_x_max] in
  let touchY := [0; 0; touch_y_max] in
  match calculate_touch_matrix displayX displayY touchX touchY with
  | None => trap
  | Some TransMatrix => write_TransMatrix 6 TransMatrix 0
  end.

(* ------------------------------------------------------------------ *)
(** ** Command FIFO engine, continued *)

(** [uint16_t CoProFIFO_FreeSpace(void)]: the subtraction and [%] are done
    on [int] after promotion; the two assignments narrow to [uint16_t]. *)
Definition CoProFIFO_FreeSpace : Run Z :=
  cmdBufferRd <- rd16 (REG_CMD_READ + RAM_REG) ;;
  cmdBufferWr <- rd16 (REG_CMD_WRITE + RAM_REG) ;;
  let cmdBufferDiff := u16 (Z.rem (cmdBufferWr - cmdBufferRd) FT_CMD_FIFO_SIZE) in
  let retval := u16 ((FT_CMD_FIFO_SIZE - 4) - cmdBufferDiff) in
  ret retval.

(** [do { ... } while (getfreespace < room)]; [polls] bounds the number of
    turns of the loop that are observed. *)
Fixpoint Wait4CoProFIFO (polls : nat) (room : Z) : Run unit :=
  match polls with
  | O => hang
  | S polls' =>
      getfreespace <- CoProFIFO_FreeSpace ;;
      if getfreespace <? u32 room then Wait4CoProFIFO polls' room else ret tt
  end.

(** The inner loop of [Wait4CoProFIFOEmpty] that prints the chip's error
    text; [Offset] is a [uint8_t]. *)
Fixpoint print_error_report (turns : nat) (Offset : Z) : Run unit :=
  match turns with
  | O => hang
  | S turns' =>
      ErrChar <- rd8 (RAM_ERR_REPORT + Offset) ;;
      let Offset := u8 (Offset + 1) in
      Log [ErrChar] ;;
      if negb (ErrChar =? 0) && (Offset <? 128)
      then print_error_report turns' Offset
      else ret tt
  end.

(** The body of the [if (ReadReg == 0xFFF)] block. *)
Definition recover_from_fault : Run unit :=
  Log [10] ;;
  print_error_report 128 0 ;;
  Log [10] ;;
  Patch_Add <- rd32 (REG_COPRO_PATCH_PTR + RAM_REG) ;;
  wr8 (REG_CPU_RESET + RAM_REG) 1 ;;
  wr16 (REG_CMD_READ + RAM_REG) 0 ;;
  wr16 (REG_CMD_WRITE + RAM_REG) 0 ;;
  wr16 (REG_CMD_DL + RAM_REG) 0 ;;
  wr8 (REG_CPU_RESET + RAM_REG) 0 ;;
  wr32 (REG_COPRO_PATCH_PTR + RAM_REG) Patch_Add ;;
  HAL_Delay 250.

(** One turn of the [do ... while] of [Wait4CoProFIFOEmpty]: the body and
    then the loop condition, whose value is returned. *)
Definition Wait4CoProFIFOEmpty_turn : Run bool :=
  ReadReg <- rd16 (REG_CMD_READ + RAM_REG) ;;
  (if ReadReg =? 0xFFF then recover_from_fault else ret tt) ;;
  cmdWrite <- rd16 (REG_CMD_WRITE + RAM_REG) ;;
  ret (negb (ReadReg =? cmdWrite)).

Fixpoint Wait4CoProFIFOEmpty (polls : nat) : Run unit :=
  match polls with
  | O => hang
  | S polls' =>
      again <- Wait4CoProFIFOEmpty_turn ;;
      if again then Wait4CoProFIFOEmpty polls' else ret tt
  end.

(* ------------------------------------------------------------------ *)
(** ** Bulk transfer uploader *)

Definition StartCoProTransfer (address : Z) (reading : bool) : Run unit :=
  let address := u32 address in
  HAL_SPI_Enable ;;
  if reading then
    HAL_SPI_Write (address >> 16) ;;
    HAL_SPI_Write (address >> 8) ;;
    HAL_SPI_Write address ;;
    HAL_SPI_Write 0
  else
    HAL_SPI_Write (Z.lor (address >> 16) 0x80) ;;
    HAL_SPI_Write (address >> 8) ;;
    HAL_SPI_Write address.

(** [TransferSize] as the [if/else] at the head of the loop body sets it;
    [Remaining] is an [int32_t], [TransferSize] a [uint32_t]. *)
Definition next_TransferSize (Remaining : Z) : Z :=
  if WorkBuffSz <? Remaining
  then WorkBuffSz
  else Z.land (u32 Remaining + 3)%c 0xFFC.

(** [Remaining -= TransferSize] *)
Definition next_Remaining (Remaining : Z) : Z :=
  s32 (u32 Remaining - next_TransferSize Remaining)%c.

(** One turn of the [do ... while (Remaining > 0)] of [CoProWrCmdBuf]; the
    pointer [buff] is an address into the host memory [host]. *)
Definition CoProWrCmdBuf_turn (polls : nat) (host : Z -> Z) (buff Remaining : Z)
  : Run (Z * Z) :=
  Wait4CoProFIFO polls WorkBuffSz ;;
  let TransferSize := next_TransferSize Remaining in
  loc <- get_FifoWriteLocation ;;
  StartCoProTransfer (loc + RAM_CMD) false ;;
  HAL_SPI_WriteBuffer (peek host buff TransferSize) ;;
  let buff := buff + TransferSize in
  loc <- get_FifoWriteLocation ;;
  set_FifoWriteLocation ((loc + TransferSize)%c mod FT_CMD_FIFO_SIZE) ;;
  HAL_SPI_Disable ;;
  loc <- get_FifoWriteLocation ;;
  wr16 (REG_CMD_WRITE + RAM_REG) loc ;;
  let Remaining := next_Remaining Remaining in
  ret (buff, Remaining).

(** The loop of [CoProWrCmdBuf] always ends: this is what goes down. *)
Definition turns_left (Remaining : Z) : nat :=
  Z.to_nat (if Remaining <=? 0 then 2^31 else Remaining).

Definition fewer_turns (a b : Z) : Prop := (turns_left a < turns_left b)%nat.

#[local] Instance fewer_turns_wf : WellFounded fewer_turns :=
  Acc_intro_generator 12 (Wf_nat.well_founded_ltof Z turns_left).

Lemma s32_range x : - 2^31 <= s32 x < 2^31.
Proof. unfold s32. pose proof (Z.mod_pos_bound (x + 2^31) (2^32)). lia. Qed.

Lemma s32_small x : - 2^31 <= x < 2^31 -> s32 x = x.
Proof. intros. unfold s32. rewrite Z.mod_small; lia. Qed.

Lemma s32_u32 x : s32 (u32 x) = s32 x.
Proof.
  unfold s32, u32. rewrite Zplus_mod_idemp_l. reflexivity.
Qed.

Lemma land_FFC_small y : 0 <= y < 4096 -> Z.land y 0xFFC = 4 * (y / 4).
Proof.
  intros Hy.
  assert (H : forallb (fun n => Z.land (Z.of_nat n) 0xFFC =? 4 * (Z.of_nat n / 4))
                (seq 0 4096) = true) by (vm_compute; reflexivity).
  rewrite forallb_forall in H.
  specialize (H (Z.to_nat y)).
  rewrite Z2Nat.id in H by lia.
  apply Z.eqb_eq, H, in_seq. lia.
Qed.

Lemma land_FFC x : Z.land x 0xFFC = 4 * ((x mod 4096) / 4).
Proof.
  change 0xFFC with (Z.land (Z.ones 12) 0xFFC).
  rewrite Z.land_assoc, Z.land_ones by lia.
  apply land_FFC_small, Z.mod_pos_bound. lia.
Qed.

Lemma next_Remaining_down Remaining :
  0 < next_Remaining Remaining ->
  fewer_turns (next_Remaining Remaining) Remaining.
Proof.
  unfold fewer_turns, next_Remaining, next_TransferSize, turns_left, WorkBuffSz, sub32, add32.
  intros Hpos. rewrite s32_u32 in *.
  destruct (512 <? Remaining) eqn:Hbig.
  - apply Z.ltb_lt in Hbig.
    destruct (Z.leb_spec (s32 (u32 Remaining - 512)) 0); [lia|].
    destruct (Z.leb_spec Remaining 0); [lia|].
    apply Z2Nat.inj_lt; try lia.
    pose proof (s32_range (u32 Remaining - 512)).
    destruct (Z_lt_dec Remaining (2^31)); [|lia].
    unfold u32 in *. rewrite Z.mod_small in * by lia.
    rewrite s32_small in * by lia. lia.
  - apply Z.ltb_ge in Hbig.
    rewrite land_FFC in *.
    pose proof (s32_range (u32 Remaining - 4 * (u32 (u32 Remaining + 3) mod 4096 / 4))) as Hr.
    destruct (Z.leb_spec Remaining 0).
    + destruct (Z.leb_spec (s32 (u32 Remaining - 4 * (u32 (u32 Remaining + 3) mod 4096 / 4))) 0);
        [lia|].
      apply Z2Nat.inj_lt; lia.
    + exfalso.
      unfold u32 in *. rewrite (Z.mod_small Remaining) in * by lia.
      rewrite (Z.mod_small (Remaining + 3)) in * by lia.
      rewrite (Z.mod_small (Remaining + 3) 4096) in * by lia.
      rewrite s32_small in Hpos.
      * pose proof (Z.div_mod (Remaining + 3) 4 ltac:(lia)).
        pose proof (Z.mod_pos_bound (Remaining + 3) 4 ltac:(lia)). lia.
      * pose proof (Z.div_mod (Remaining + 3) 4 ltac:(lia)).
        pose proof (Z.mod_pos_bound (Remaining + 3) 4 ltac:(lia)). lia.
Qed.

Lemma bind_Ok {A B} (c : Run A) (k : A -> Run B) s b s' :
  bind c k s = Ok b s' ->
  exists a s1, c s = Ok a s1 /\ k a s1 = Ok b s'.
Proof.
  unfold bind. destruct (c s) as [a s1| |]; try discriminate.
  intros Hk. exists a, s1. split; [reflexivity | exact Hk].
Qed.

Lemma CoProWrCmdBuf_turn_Remaining polls host buff Remaining s buff' Remaining' s' :
  CoProWrCmdBuf_turn polls host buff Remaining s = Ok (buff', Remaining') s' ->
  Remaining' = next_Remaining Remaining.
Proof.
  unfold CoProWrCmdBuf_turn. intros H.
  repeat (apply bind_Ok in H; destruct H as (? & ? & _ & H)).
  unfold ret in H. injection H as _ HR _. symmetry. exact HR.
Qed.

Equations? CoProWrCmdBuf_loop (polls : nat) (host : Z -> Z) (buff Remaining : Z) (s : W)
  : result W unit by wf Remaining fewer_turns :=
  CoProWrCmdBuf_loop polls host buff Remaining s
    with inspect (CoProWrCmdBuf_turn polls host buff Remaining s) => {
    | exist _ (Ok (buff', Remaining') s') Hturn with inspect (0 <? Remaining') => {
      | exist _ true Hmore := CoProWrCmdBuf_loop polls host buff' Remaining' s';
      | exist _ false _ := Ok tt s' };
    | exist _ Hang _ := Hang;
    | exist _ Trap _ := Trap }.
Proof.
  apply CoProWrCmdBuf_turn_Remaining in Hturn. subst Remaining'.
  apply next_Remaining_down. apply Z.ltb_lt. exact Hmore.
Qed.

(** [void CoProWrCmdBuf(const uint8_t *buff, uint32_t count)], with
    [int32_t Remaining = count; // Signed]. *)
Definition CoProWrCmdBuf (polls : nat) (host : Z -> Z) (buff count : Z) : Run unit :=
  fun s => CoProWrCmdBuf_loop polls host buff (s32 (u32 count)) s.

End Driver.

(* ------------------------------------------------------------------ *)
(** ** A chip to run the driver against

    A memory-mapped chip that does nothing on its own: a write transaction
    stores its payload at the addressed bytes, a read transaction returns
    them, and no cursor moves unless the host moves it. *)

Module Sim.

Record ram := mkRam {
  mem : list (Z * Z);   (* address, byte; the first entry for an address wins *)
  hdr : list Z;         (* address bytes seen since the chip was selected *)
  cnt : Z               (* payload bytes moved in this transaction *)
}.

Definition load (m : list (Z * Z)) (a : Z) : Z :=
  match find (fun p => fst p =? a) m with
  | Some p => snd p
  | None => 0
  end.

Definition addr_of (h : list Z) : Z :=
  Z.land h.[0%nat] 0x3F * 65536 + h.[1%nat] * 256 + h.[2%nat].

Definition select (d : ram) : ram := mkRam (mem d) [] 0.

Definition mosi (b : Z) (d : ram) : ram :=
  if (length (hdr d) <? 3)%nat then mkRam (mem d) (hdr d ++ [b]) 0
  else if Z.testbit (hdr d).[0%nat] 7
       then mkRam ((addr_of (hdr d) + cnt d, b) :: mem d) (hdr d) (cnt d + 1)
       else d.

Definition miso (d : ram) : Z * ram :=
  (load (mem d) (addr_of (hdr d) + cnt d), mkRam (mem d) (hdr d) (cnt d + 1)).

#[export] Instance ram_chip : Chip ram := {
  chip_select := select;
  chip_mosi := mosi;
  chip_miso := miso;
  chip_deselect := select;
  chip_idle := fun _ d => d;
  chip_reset := fun d => (1, mkRam [] [] 0)
}.

(** Window bases and register offsets of the FT81x/BT81x family, used to
    run the driver on concrete worlds. *)
#[export] Instance bt81x : eve_h := {
  RAM_CMD := 0x308000;
  RAM_REG := 0x302000;
  RAM_ERR_REPORT := 0x309800;
  REG_CMD_READ := 0xF8;
  REG_CMD_WRITE := 0xFC;
  REG_CMD_DL := 0x100;
  REG_CPU_RESET := 0x20;
  REG_COPRO_PATCH_PTR := 0x7162;
  REG_TOUCH_TRANSFORM_A := 0x150
}.

(** A 16-bit register holding [v]. *)
Definition reg16 (a v : Z) : list (Z * Z) :=
  [(a, v mod 256); (a + 1, (v / 256) mod 256)].

(** A chip whose read and write cursors stand at [Rd] and [Wr]. *)
Definition cursors (Rd Wr : Z) : ram :=
  mkRam (reg16 0x3020F8 Rd ++ reg16 0x3020FC Wr) [] 0.

(** The chip after power-up: every byte reads zero. *)
Definition blank : ram := mkRam [] [] 0.

Definition boot : World ram := mkWorld 0 blank [].

(** The same chip with a coprocessor that works: every time the chip is
    deselected the read cursor moves up to [rate] bytes toward the write
    cursor. *)
Record working := mkWorking {
  core : ram;
  rate : Z
}.

Definition load16 (m : list (Z * Z)) (a : Z) : Z :=
  load m a + 256 * load m (a + 1).

Definition consume (d : working) : working :=
  let m := mem (core d) in
  let Rd := load16 m 0x3020F8 in
  let Wr := load16 m 0x3020FC in
  let step := Z.min (rate d) ((Wr - Rd) mod 4096) in
  mkWorking (mkRam (reg16 0x3020F8 ((Rd + step) mod 4096) ++ m) [] 0) (rate d).

#[export] Instance working_chip : Chip working := {
  chip_select := fun d => mkWorking (select (core d)) (rate d);
  chip_mosi := fun b d => mkWorking (mosi b (core d)) (rate d);
  chip_miso := fun d => let (b, c) := miso (core d) in (b, mkWorking c (rate d));
  chip_deselect := consume;
  chip_idle := fun _ d => d;
  chip_reset := fun d => (1, mkWorking (mkRam [] [] 0) (rate d))
}.

End Sim.


Import Sim.

(* ------------------------------------------------------------------ *)
(** ** Vocabulary for statements about the bus *)

(** Bytes 0..3 of a value, least significant first. *)
Definition byte0 (v : Z) : Z := v mod 2^8.
Definition byte1 (v : Z) : Z := (v / 2^8) mod 2^8.
Definition byte2 (v : Z) : Z := (v / 2^16) mod 2^8.
Definition byte3 (v : Z) : Z := (v / 2^24) mod 2^8.

(** Bits 16..21 of an address. *)
Definition bits_16_21 (a : Z) : Z := (a / 2^16) mod 2^6.

(** The value a little-endian byte sequence denotes. *)
Fixpoint le_value (bs : list Z) : Z :=
  match bs with
  | [] => 0
  | b :: bs' => b + 2^8 * le_value bs'
  end.

(** The bytes the host clocks out in an event. *)
Definition sent (e : Event) : list Z :=
  match e with
  | SPI_Write b => [b]
  | SPI_WriteBuffer bs => bs
  | _ => []
  end.

Definition is_send (e : Event) : bool :=
  match e with
  | SPI_Write _ | SPI_WriteBuffer _ => true
  | _ => false
  end.

(** The address bytes [wr8], [wr16], [wr32] and [StartCoProTransfer] put
    first, and the ones [rd8], [rd16], [rd32] put first. *)
Definition wr_address (address : Z) : list Z :=
  [ u8 (Z.lor (u32 address >> 16) 0x80); u8 (u32 address >> 8); u8 (u32 address) ].

Definition rd_address (address : Z) : list Z :=
  [ u8 (Z.land (u32 address >> 16) 0x3F);
    u8 (Z.land (u32 address >> 8) 0xff);
    u8 (Z.land (u32 address) 0xff) ].

(** What each register access puts on the bus. *)
Definition wire_wr8 (address v : Z) : list Event :=
  SPI_Enable :: map SPI_Write (wr_address address ++ [u8 v]) ++ [SPI_Disable].

Definition wire_wr16 (address v : Z) : list Event :=
  SPI_Enable
    :: map SPI_Write (wr_address address ++ [byte0 v; byte1 v]) ++ [SPI_Disable].

Definition wire_wr32 (address v : Z) : list Event :=
  [ SPI_Enable;
    SPI_WriteBuffer (wr_address address ++ [byte0 v; byte1 v; byte2 v; byte3 v]);
    SPI_Disable ].

Definition wire_rd (address : Z) (reply : list Z) : list Event :=
  SPI_Enable :: map SPI_Write (rd_address address) ++ [SPI_ReadBuffer reply; SPI_Disable].

Definition wire_rd32 (address : Z) (reply : list Z) : list Event :=
  [ SPI_Enable; SPI_WriteBuffer (rd_address address); SPI_ReadBuffer reply; SPI_Disable ].

Section Bus.

Context {D : Type} {dev : Chip D} {regs : eve_h}.

(** The chip after the events [evs] have been played to it. *)
Fixpoint chip_play (evs : list Event) (d : D) : D :=
  match evs with
  | [] => d
  | e :: evs' =>
      chip_play evs'
        match e with
        | SPI_Enable => chip_select d
        | SPI_Write b => chip_mosi b d
        | SPI_WriteBuffer bs => chip_feed bs d
        | SPI_ReadBuffer bs => snd (chip_burst (length bs) d)
        | SPI_Disable => chip_deselect d
        | Delay ms => chip_idle ms d
        | Reset_HW => snd (chip_reset d)
        | Logged _ => d
        end
  end.

(** The world after [evs] crossed the bus, the write cursor untouched. *)
Definition extend (s : World D) (evs : list Event) : World D :=
  mkWorld (FifoWriteLocation s) (chip_play evs (chip s)) (wire s ++ evs).

(** What the chip answers to a read of [n] bytes once [evs] were played. *)
Definition answer (n : nat) (evs : list Event) (s : World D) : list Z :=
  fst (chip_burst n (chip_play evs (chip s))).

End Bus.

(* ------------------------------------------------------------------ *)
(** ** Arithmetic of bytes and words *)

Lemma u8_range x : 0 <= u8 x < 256.
Proof. unfold u8. apply Z.mod_pos_bound. lia. Qed.

Lemma u16_range x : 0 <= u16 x < 65536.
Proof. unfold u16. apply Z.mod_pos_bound. lia. Qed.

Lemma u32_range x : 0 <= u32 x < 2^32.
Proof. unfold u32. apply Z.mod_pos_bound. lia. Qed.

Lemma u8_small x : 0 <= x < 256 -> u8 x = x.
Proof. intros. unfold u8. apply Z.mod_small. lia. Qed.

Lemma u16_small x : 0 <= x < 65536 -> u16 x = x.
Proof. intros. unfold u16. apply Z.mod_small. lia. Qed.

Lemma u32_small x : 0 <= x < 2^32 -> u32 x = x.
Proof. intros. unfold u32. apply Z.mod_small. lia. Qed.

Lemma u8_u8 x : u8 (u8 x) = u8 x.
Proof. apply u8_small, u8_range. Qed.

Lemma u16_u16 x : u16 (u16 x) = u16 x.
Proof. apply u16_small, u16_range. Qed.

(** A slice of a number does not see what is cut off above it. *)
Lemma slice_mod p a b c :
  0 < a -> 0 < b -> 0 < c ->
  ((p mod (a * b * c)) / a) mod b = (p / a) mod b.
Proof.
  intros Ha Hb Hc.
  rewrite (Z.mod_eq p (a * b * c)) by lia.
  replace (p - a * b * c * (p / (a * b * c)))
    with (p + (- (b * c * (p / (a * b * c)))) * a) by ring.
  rewrite Z_div_plus_full by lia.
  replace (p / a + - (b * c * (p / (a * b * c))))
    with (p / a + (- (c * (p / (a * b * c)))) * b) by ring.
  apply Z_mod_plus_full.
Qed.

Lemma land_ff x : Z.land x 0xff = x mod 2^8.
Proof. change 0xff with (Z.ones 8). apply Z.land_ones. lia. Qed.

Lemma land_3f x : Z.land x 0x3F = x mod 2^6.
Proof. change 0x3F with (Z.ones 6). apply Z.land_ones. lia. Qed.

Lemma shiftr_div x n : 0 <= n -> x >> n = x / 2^n.
Proof. intros. apply Z.shiftr_div_pow2. assumption. Qed.

Lemma byte0_u32 v : u8 (Z.land (u32 v) 0xff) = byte0 v.
Proof.
  rewrite land_ff. unfold u8, u32, byte0. rewrite Z.mod_mod by lia.
  pose proof (slice_mod v 1 (2^8) (2^24)) as H.
  rewrite !Z.div_1_r in H. apply H; lia.
Qed.

Lemma byte1_u32 v : u8 (Z.land (u32 v >> 8) 0xff) = byte1 v.
Proof.
  rewrite land_ff, shiftr_div by lia. unfold u8, u32, byte1.
  rewrite Z.mod_mod by lia. apply (slice_mod v (2^8) (2^8) (2^16)); lia.
Qed.

Lemma byte2_u32 v : u8 (Z.land (u32 v >> 16) 0xff) = byte2 v.
Proof.
  rewrite land_ff, shiftr_div by lia. unfold u8, u32, byte2.
  rewrite Z.mod_mod by lia. apply (slice_mod v (2^16) (2^8) (2^8)); lia.
Qed.

Lemma byte3_u32 v : u8 (Z.land (u32 v >> 24) 0xff) = byte3 v.
Proof.
  rewrite land_ff, shiftr_div by lia. unfold u8, u32, byte3.
  rewrite Z.mod_mod by lia. apply (slice_mod v (2^24) (2^8) 1); lia.
Qed.

Lemma byte0_u16 v : u8 (Z.land (u16 v) 0xff) = byte0 v.
Proof.
  rewrite land_ff. unfold u8, u16, byte0. rewrite Z.mod_mod by lia.
  pose proof (slice_mod v 1 (2^8) (2^8)) as H.
  rewrite !Z.div_1_r in H. apply H; lia.
Qed.

Lemma byte1_u16 v : u8 (u16 v >> 8) = byte1 v.
Proof.
  rewrite shiftr_div by lia. unfold u8, u16, byte1.
  apply (slice_mod v (2^8) (2^8) 1); lia.
Qed.

Lemma lor_80 h : 0 <= h < 64 -> Z.lor h 0x80 = 128 + h.
Proof.
  intros Hh.
  assert (H : forallb (fun n => Z.lor (Z.of_nat n) 0x80 =? 128 + Z.of_nat n)
                (seq 0 64) = true) by (vm_compute; reflexivity).
  rewrite forallb_forall in H.
  specialize (H (Z.to_nat h)). rewrite Z2Nat.id in H by lia.
  apply Z.eqb_eq, H, in_seq. lia.
Qed.

(** The three address bytes, in terms of the bits of the address. *)
Lemma rd_address_bits a :
  rd_address a = [ bits_16_21 a; byte1 a; byte0 a ].
Proof.
  unfold rd_address. rewrite byte1_u32, byte0_u32. f_equal.
  rewrite land_3f, shiftr_div by lia. unfold bits_16_21, u32.
  rewrite u8_small.
  - apply (slice_mod a (2^16) (2^6) (2^10)); lia.
  - pose proof (Z.mod_pos_bound (a mod 2^32 / 2^16) (2^6)). lia.
Qed.

Lemma wr_address_bits a :
  0 <= a < 2^22 ->
  wr_address a = [ 128 + bits_16_21 a; byte1 a; byte0 a ].
Proof.
  intros Ha. unfold wr_address. rewrite (u32_small a) by lia.
  assert (Hh : 0 <= a / 2^16 < 64).
  { split; [apply Z.div_pos; lia | apply Z.div_lt_upper_bound; lia]. }
  rewrite !shiftr_div, lor_80 by lia. unfold bits_16_21.
  rewrite (Z.mod_small (a / 2^16)) by lia.
  rewrite (u8_small (128 + _)) by lia. reflexivity.
Qed.

(* ------------------------------------------------------------------ *)
(** ** Running the register access layer *)

Section Runs.

Context {D : Type} {dev : Chip D} {regs : eve_h}.

Lemma chip_play_app (e1 e2 : list Event) (d : D) :
  chip_play (e1 ++ e2) d = chip_play e2 (chip_play e1 d).
Proof.
  revert d. induction e1 as [|e e1 IH]; intros d; [reflexivity|].
  simpl. apply IH.
Qed.

Lemma extend_extend (s : World D) e1 e2 :
  extend (extend s e1) e2 = extend s (e1 ++ e2).
Proof.
  unfold extend. simpl. rewrite chip_play_app, app_assoc. reflexivity.
Qed.

Lemma extend_nil (s : World D) : extend s [] = s.
Proof. destruct s. unfold extend. simpl. rewrite app_nil_r. reflexivity. Qed.

Lemma chip_burst_length n (d : D) : length (fst (chip_burst n d)) = n.
Proof.
  revert d. induction n as [|n IH]; intros d; [reflexivity|].
  simpl. destruct (chip_miso d) as [b d1].
  specialize (IH d1). destruct (chip_burst n d1) as [bs d2].
  simpl in *. congruence.
Qed.

Lemma chip_burst_bytes n (d : D) :
  Forall (fun b => 0 <= b < 256) (fst (chip_burst n d)).
Proof.
  revert d. induction n as [|n IH]; intros d; [constructor|].
  simpl. destruct (chip_miso d) as [b d1].
  specialize (IH d1). destruct (chip_burst n d1) as [bs d2].
  simpl in *. constructor; [apply u8_range | exact IH].
Qed.

Lemma answer_length n evs (s : World D) : length (answer n evs s) = n.
Proof. apply chip_burst_length. Qed.

Lemma answer_bytes n evs (s : World D) : Forall (fun b => 0 <= b < 256) (answer n evs s).
Proof. apply chip_burst_bytes. Qed.

Lemma bind_run {A B} (c : M D A) (k : A -> M D B) s a s1 :
  c s = Ok a s1 -> bind c k s = k a s1.
Proof. intros H. unfold bind. rewrite H. reflexivity. Qed.

Lemma HAL_SPI_Enable_run (s : World D) : HAL_SPI_Enable s = Ok tt (extend s [SPI_Enable]).
Proof. reflexivity. Qed.

Lemma HAL_SPI_Disable_run (s : World D) : HAL_SPI_Disable s = Ok tt (extend s [SPI_Disable]).
Proof. reflexivity. Qed.

Lemma HAL_SPI_Write_run b (s : World D) :
  HAL_SPI_Write b s = Ok tt (extend s [SPI_Write (u8 b)]).
Proof. reflexivity. Qed.

Lemma HAL_SPI_WriteBuffer_run bs (s : World D) :
  HAL_SPI_WriteBuffer bs s = Ok tt (extend s [SPI_WriteBuffer bs]).
Proof. reflexivity. Qed.

Lemma HAL_SPI_ReadBuffer_run n (s : World D) :
  HAL_SPI_ReadBuffer n s = Ok (answer n [] s) (extend s [SPI_ReadBuffer (answer n [] s)]).
Proof.
  unfold HAL_SPI_ReadBuffer, answer, extend, emit. simpl.
  rewrite chip_burst_length.
  destruct (chip_burst n (chip s)) as [bs d]. reflexivity.
Qed.

Lemma HAL_Delay_run ms (s : World D) : HAL_Delay ms s = Ok tt (extend s [Delay ms]).
Proof. reflexivity. Qed.

Lemma Log_run text (s : World D) : Log text s = Ok tt (extend s [Logged text]).
Proof. reflexivity. Qed.

Lemma answer_extend n e1 e2 (s : World D) :
  answer n e2 (extend s e1) = answer n (e1 ++ e2) s.
Proof. unfold answer, extend. simpl. rewrite chip_play_app. reflexivity. Qed.

End Runs.

(** One step of a run: the next primitive is replaced by what it does. *)
Ltac hal_step :=
  first
    [ rewrite (bind_run _ _ _ _ _ (HAL_SPI_Enable_run _))
    | rewrite (bind_run _ _ _ _ _ (HAL_SPI_Disable_run _))
    | rewrite (bind_run _ _ _ _ _ (HAL_SPI_Write_run _ _))
    | rewrite (bind_run _ _ _ _ _ (HAL_SPI_WriteBuffer_run _ _))
    | rewrite (bind_run _ _ _ _ _ (HAL_SPI_ReadBuffer_run _ _))
    | rewrite (bind_run _ _ _ _ _ (HAL_Delay_run _ _))
    | rewrite (bind_run _ _ _ _ _ (Log_run _ _))
    | rewrite HAL_SPI_Disable_run
    | rewrite HAL_SPI_Write_run
    | rewrite HAL_Delay_run ];
  rewrite ?extend_extend, ?answer_extend.

Section Frames.

Context {D : Type} {dev : Chip D} {regs : eve_h}.

Lemma wr8_run address v (s : World D) :
  wr8 address v s = Ok tt (extend s (wire_wr8 address v)).
Proof.
  unfold wr8. repeat hal_step. rewrite !u8_u8. reflexivity.
Qed.

Lemma wr16_run address v (s : World D) :
  wr16 address v s = Ok tt (extend s (wire_wr16 address v)).
Proof.
  unfold wr16. repeat hal_step.
  rewrite !u8_u8, byte0_u16, byte1_u16. reflexivity.
Qed.

Lemma wr32_run address v (s : World D) :
  wr32 address v s = Ok tt (extend s (wire_wr32 address v)).
Proof.
  unfold wr32. repeat hal_step.
  rewrite byte0_u32, byte1_u32, byte2_u32, byte3_u32. reflexivity.
Qed.

End Frames.

(** The part of a read transaction that precedes the chip's answer. *)
Definition rd_query (address : Z) : list Event :=
  SPI_Enable :: map SPI_Write (rd_address address).

Definition rd32_query (address : Z) : list Event :=
  [ SPI_Enable; SPI_WriteBuffer (rd_address address) ].

(** A write transaction carrying [bytes]; a read transaction that sends
    [query] and receives [reply]. *)
Definition write_transaction (evs : list Event) (bytes : list Z) : Prop :=
  exists body,
    evs = SPI_Enable :: body ++ [SPI_Disable] /\
    forallb is_send body = true /\
    flat_map sent body = bytes.

Definition read_transaction (evs : list Event) (query reply : list Z) : Prop :=
  exists body,
    evs = SPI_Enable :: body ++ [SPI_ReadBuffer reply; SPI_Disable] /\
    forallb is_send body = true /\
    flat_map sent body = query.

Lemma flat_map_sent_Write bs : flat_map sent (map SPI_Write bs) = bs.
Proof. induction bs as [|b bs IH]; simpl; congruence. Qed.

Lemma forallb_is_send_Write bs : forallb is_send (map SPI_Write bs) = true.
Proof. induction bs as [|b bs IH]; simpl; congruence. Qed.

Lemma wire_wr8_transaction a v :
  write_transaction (wire_wr8 a v) (wr_address a ++ [byte0 v]).
Proof.
  exists (map SPI_Write (wr_address a ++ [u8 v])). split; [reflexivity|].
  split; [apply forallb_is_send_Write | apply flat_map_sent_Write].
Qed.

Lemma wire_wr16_transaction a v :
  write_transaction (wire_wr16 a v) (wr_address a ++ [byte0 v; byte1 v]).
Proof.
  exists (map SPI_Write (wr_address a ++ [byte0 v; byte1 v])). split; [reflexivity|].
  split; [apply forallb_is_send_Write | apply flat_map_sent_Write].
Qed.

Lemma wire_wr32_transaction a v :
  write_transaction (wire_wr32 a v)
    (wr_address a ++ [byte0 v; byte1 v; byte2 v; byte3 v]).
Proof.
  exists [SPI_WriteBuffer (wr_address a ++ [byte0 v; byte1 v; byte2 v; byte3 v])].
  split; [reflexivity|]. split; [reflexivity|]. cbn [flat_map sent]. apply app_nil_r.
Qed.

Lemma wire_rd_transaction a reply :
  read_transaction (wire_rd a reply) (rd_address a) reply.
Proof.
  exists (map SPI_Write (rd_address a)). split; [reflexivity|].
  split; [apply forallb_is_send_Write | apply flat_map_sent_Write].
Qed.

Lemma wire_rd32_transaction a reply :
  read_transaction (wire_rd32 a reply) (rd_address a) reply.
Proof.
  exists [SPI_WriteBuffer (rd_address a)]. split; [reflexivity|].
  split; [reflexivity|]. cbn [flat_map sent]. apply app_nil_r.
Qed.

Lemma bytes1 (bs : list Z) :
  length bs = 1%nat -> Forall (fun b => 0 <= b < 256) bs ->
  exists b0, bs = [b0] /\ 0 <= b0 < 256.
Proof.
  destruct bs as [|b0 [|? ?]]; try discriminate. intros _ H.
  inversion H; subst. eauto.
Qed.

Lemma bytes2 (bs : list Z) :
  length bs = 2%nat -> Forall (fun b => 0 <= b < 256) bs ->
  exists b0 b1, bs = [b0; b1] /\ 0 <= b0 < 256 /\ 0 <= b1 < 256.
Proof.
  destruct bs as [|b0 [|b1 [|? ?]]]; try discriminate. intros _ H.
  inversion H as [|? ? Hb0 H1]; subst. inversion H1 as [|? ? Hb1 H2]; subst. eauto 6.
Qed.

Lemma bytes4 (bs : list Z) :
  length bs = 4%nat -> Forall (fun b => 0 <= b < 256) bs ->
  exists b0 b1 b2 b3, bs = [b0; b1; b2; b3] /\
    0 <= b0 < 256 /\ 0 <= b1 < 256 /\ 0 <= b2 < 256 /\ 0 <= b3 < 256.
Proof.
  destruct bs as [|b0 [|b1 [|b2 [|b3 [|? ?]]]]]; try discriminate. intros _ H.
  inversion H as [|? ? Hb0 H1]; subst. inversion H1 as [|? ? Hb1 H2]; subst.
  inversion H2 as [|? ? Hb2 H3]; subst. inversion H3 as [|? ? Hb3 H4]; subst.
  exists b0, b1, b2, b3. auto 8.
Qed.

Section Reads.

Context {D : Type} {dev : Chip D} {regs : eve_h}.

Lemma rd8_run address (s : World D) :
  let reply := answer 1 (rd_query address) s in
  rd8 address s = Ok (le_value reply) (extend s (wire_rd address reply)).
Proof.
  intros reply. unfold rd8. repeat hal_step. simpl app.
  change (answer 1 _ s) with reply.
  destruct (bytes1 reply (answer_length _ _ _) (answer_bytes _ _ _)) as (b0 & E & ?).
  unfold ret. rewrite E. cbn [nth le_value]. f_equal. lia.
Qed.

Lemma rd16_run address (s : World D) :
  let reply := answer 2 (rd_query address) s in
  rd16 address s = Ok (le_value reply) (extend s (wire_rd address reply)).
Proof.
  intros reply. unfold rd16. repeat hal_step. simpl app.
  change (answer 2 _ s) with reply.
  destruct (bytes2 reply (answer_length _ _ _) (answer_bytes _ _ _))
    as (b0 & b1 & E & ? & ?).
  unfold ret. rewrite E. cbn [nth le_value]. f_equal.
  rewrite (u16_small b1) by lia. rewrite Z.shiftl_mul_pow2 by lia.
  rewrite u16_small; lia.
Qed.

Lemma rd32_run address (s : World D) :
  let reply := answer 4 (rd32_query address) s in
  rd32 address s = Ok (le_value reply) (extend s (wire_rd32 address reply)).
Proof.
  intros reply. unfold rd32. repeat hal_step. simpl app.
  change (answer 4 _ s) with reply.
  destruct (bytes4 reply (answer_length _ _ _) (answer_bytes _ _ _))
    as (b0 & b1 & b2 & b3 & E & ? & ? & ? & ?).
  unfold ret. rewrite E. cbn [nth le_value]. f_equal.
  rewrite !Z.shiftl_mul_pow2 by lia. unfold add32.
  rewrite (u32_small (b0 + b1 * 2^8)) by lia.
  rewrite (u32_small (b0 + b1 * 2^8 + b2 * 2^16)) by lia.
  rewrite u32_small; lia.
Qed.

End Reads.

(* ------------------------------------------------------------------ *)
(** ** Register access layer: what goes over the bus *)

Section RegisterAccess.

Context {D : Type} {dev : Chip D} {regs : eve_h}.

(** C8.  Every [wr8], [wr16], [wr32] is one transaction, opened and closed
    once, that carries three address bytes (bits 16..21 of the address with
    the top bit set, then bits 8..15, then bits 0..7) followed by the bytes
    of the value, least significant first.  Every [rd8], [rd16], [rd32] is
    one transaction that carries the same three address bytes with the two
    top bits of the first one clear, then reads the bytes of the value,
    least significant first.  Addresses are those of the 22-bit address
    space. *)
Theorem register_access_framing (address v : Z) (s : World D) :
  0 <= address < 2^22 ->
  let to_write := [128 + bits_16_21 address; byte1 address; byte0 address] in
  let to_read := [bits_16_21 address; byte1 address; byte0 address] in
  (exists evs, wr8 address v s = Ok tt (extend s evs) /\
     write_transaction evs (to_write ++ [byte0 v])) /\
  (exists evs, wr16 address v s = Ok tt (extend s evs) /\
     write_transaction evs (to_write ++ [byte0 v; byte1 v])) /\
  (exists evs, wr32 address v s = Ok tt (extend s evs) /\
     write_transaction evs (to_write ++ [byte0 v; byte1 v; byte2 v; byte3 v])) /\
  (exists evs reply, rd8 address s = Ok (le_value reply) (extend s evs) /\
     read_transaction evs to_read reply /\ length reply = 1%nat) /\
  (exists evs reply, rd16 address s = Ok (le_value reply) (extend s evs) /\
     read_transaction evs to_read reply /\ length reply = 2%nat) /\
  (exists evs reply, rd32 address s = Ok (le_value reply) (extend s evs) /\
     read_transaction evs to_read reply /\ length reply = 4%nat).
Proof.
  intros Ha to_write to_read. subst to_write to_read.
  rewrite <- (wr_address_bits address Ha), <- (rd_address_bits address).
  repeat split.
  - exists (wire_wr8 address v). split; [apply wr8_run | apply wire_wr8_transaction].
  - exists (wire_wr16 address v). split; [apply wr16_run | apply wire_wr16_transaction].
  - exists (wire_wr32 address v). split; [apply wr32_run | apply wire_wr32_transaction].
  - eexists _, _. split; [apply rd8_run|].
    split; [apply wire_rd_transaction | apply answer_length].
  - eexists _, _. split; [apply rd16_run|].
    split; [apply wire_rd_transaction | apply answer_length].
  - eexists _, _. split; [apply rd32_run|].
    split; [apply wire_rd32_transaction | apply answer_length].
Qed.

End RegisterAccess.

(** The write-cursor register of the FT81x family, written with 0x1234 on
    the blank chip. *)
Lemma register_access_framing_witness :
  0 <= 0x3020FC < 2^22 /\
  exists evs, wr16 0x3020FC 0x1234 boot = Ok tt (extend boot evs) /\
    write_transaction evs [0xB0; 0x20; 0xFC; 0x34; 0x12].
Proof.
  split; [lia|].
  destruct (register_access_framing 0x3020FC 0x1234 boot ltac:(lia)) as (_ & H & _).
  exact H.
Defined.

(* ------------------------------------------------------------------ *)
(** ** The write cursor *)

(** A sequence of [Send_CMD] calls, one per command word. *)
Fixpoint send_all {D} {dev : Chip D} {regs : eve_h} (cmds : list Z) : M D unit :=
  match cmds with
  | [] => ret tt
  | data :: rest => Send_CMD data ;; send_all rest
  end.

(** The world with the write cursor set to [c]. *)
Definition with_cursor {D} (s : World D) (c : Z) : World D :=
  mkWorld c (chip s) (wire s).

(** A write cursor as the data model wants it. *)
Definition cursor_ok (c : Z) : Prop :=
  c mod 4 = 0 /\ 0 <= c < FT_CMD_FIFO_SIZE.

Section WriteCursor.

Context {D : Type} {dev : Chip D} {regs : eve_h}.

Lemma Send_CMD_run data (s : World D) :
  Send_CMD data s =
  Ok tt (with_cursor (extend s (wire_wr32 (FifoWriteLocation s + RAM_CMD) data))
           (u16 (Z.rem (u16 (FifoWriteLocation s + FT_CMD_SIZE)) FT_CMD_FIFO_SIZE))).
Proof.
  unfold Send_CMD. unfold bind at 1. unfold get_FifoWriteLocation at 1.
  rewrite (bind_run _ _ _ _ _ (wr32_run _ _ _)). reflexivity.
Qed.

Lemma cursor_advance c :
  cursor_ok c ->
  u16 (Z.rem (u16 (c + FT_CMD_SIZE)) FT_CMD_FIFO_SIZE) = (c + 4) mod 4096 /\
  cursor_ok ((c + 4) mod 4096).
Proof.
  unfold cursor_ok, FT_CMD_SIZE, FT_CMD_FIFO_SIZE. intros [Hal Hin].
  rewrite (u16_small (c + 4)) by lia.
  rewrite Z.rem_mod_nonneg by lia.
  pose proof (Z.mod_pos_bound (c + 4) 4096 ltac:(lia)) as Hb.
  rewrite u16_small by lia.
  split; [reflexivity|]. split; [|lia].
  pose proof (Z.div_mod c 4 ltac:(lia)) as Hc.
  pose proof (Z.div_mod (c + 4) 4096 ltac:(lia)) as Hq.
  replace ((c + 4) mod 4096)
    with ((c / 4 + 1 - 1024 * ((c + 4) / 4096)) * 4) by lia.
  apply Z.mod_mul. lia.
Qed.

Lemma send_all_cursor cmds (s : World D) :
  cursor_ok (FifoWriteLocation s) ->
  exists s', send_all cmds s = Ok tt s' /\ cursor_ok (FifoWriteLocation s').
Proof.
  revert s. induction cmds as [|data rest IH]; intros s Hs.
  - exists s. split; [reflexivity | exact Hs].
  - simpl send_all. rewrite (bind_run _ _ _ _ _ (Send_CMD_run _ _)).
    destruct (cursor_advance _ Hs) as [Heq Hok].
    apply IH. simpl. rewrite Heq. exact Hok.
Qed.

(** C2.  From the state [Eve_Reset] leaves (write cursor 0), any finite
    sequence of [Send_CMD] calls runs to completion and leaves the write
    cursor a multiple of 4 inside [0, FT_CMD_FIFO_SIZE), whatever the chip
    does and whatever words are enqueued. *)
Theorem write_cursor_invariant (cmds : list Z) (s : World D) :
  exists r s0 s1,
    Eve_Reset s = Ok r s0 /\
    FifoWriteLocation s0 = 0 /\
    send_all cmds s0 = Ok tt s1 /\
    FifoWriteLocation s1 mod 4 = 0 /\
    0 <= FifoWriteLocation s1 < FT_CMD_FIFO_SIZE.
Proof.
  unfold Eve_Reset, bind, set_FifoWriteLocation, HAL_Eve_Reset_HW. simpl.
  destruct (chip_reset (chip s)) as [r d].
  eexists r, _. 
  destruct (send_all_cursor cmds (emit Reset_HW d (mkWorld (u16 0) (chip s) (wire s))))
    as (s1 & Hrun & Hok).
  { simpl. unfold cursor_ok, FT_CMD_FIFO_SIZE. rewrite u16_small by lia.
    split; [reflexivity | lia]. }
  exists s1. split; [reflexivity|]. split; [reflexivity|].
  split; [exact Hrun | exact Hok].
Qed.

End WriteCursor.

(* ------------------------------------------------------------------ *)
(** ** Free space *)

Section FreeSpace.

Context {D : Type} {dev : Chip D} {regs : eve_h}.

Lemma extend_with_cursor (s : World D) c evs :
  extend (with_cursor s c) evs = with_cursor (extend s evs) c.
Proof. reflexivity. Qed.

Lemma rd16_with_cursor address (s : World D) c v s' :
  rd16 address s = Ok v s' ->
  rd16 address (with_cursor s c) = Ok v (with_cursor s' c).
Proof.
  rewrite !rd16_run. intros H. injection H as Hv Hs. subst v s'. reflexivity.
Qed.

(** What [CoProFIFO_FreeSpace] computes from the two register reads. *)
Definition free_space_of (Rd Wr : Z) : Z :=
  u16 ((FT_CMD_FIFO_SIZE - 4) - u16 (Z.rem (Wr - Rd) FT_CMD_FIFO_SIZE)).

Lemma CoProFIFO_FreeSpace_run (s s1 s2 : World D) Rd Wr :
  rd16 (REG_CMD_READ + RAM_REG) s = Ok Rd s1 ->
  rd16 (REG_CMD_WRITE + RAM_REG) s1 = Ok Wr s2 ->
  CoProFIFO_FreeSpace s = Ok (free_space_of Rd Wr) s2.
Proof.
  intros H1 H2. unfold CoProFIFO_FreeSpace.
  rewrite (bind_run _ _ _ _ _ H1), (bind_run _ _ _ _ _ H2). reflexivity.
Qed.

Lemma rd16_total address (s : World D) :
  exists v s', rd16 address s = Ok v s' /\ 0 <= v < 65536 /\
               FifoWriteLocation s' = FifoWriteLocation s.
Proof.
  rewrite rd16_run. eexists _, _. split; [reflexivity|]. split; [|reflexivity].
  destruct (bytes2 _ (answer_length 2 (rd_query address) s)
              (answer_bytes 2 (rd_query address) s)) as (b0 & b1 & E & ? & ?).
  rewrite E. cbn [le_value]. lia.
Qed.

Lemma CoProFIFO_FreeSpace_total (s : World D) :
  exists v s', CoProFIFO_FreeSpace s = Ok v s' /\
               FifoWriteLocation s' = FifoWriteLocation s.
Proof.
  destruct (rd16_total (REG_CMD_READ + RAM_REG) s) as (Rd & s1 & H1 & _ & E1).
  destruct (rd16_total (REG_CMD_WRITE + RAM_REG) s1) as (Wr & s2 & H2 & _ & E2).
  exists (free_space_of Rd Wr), s2. split; [|congruence].
  exact (CoProFIFO_FreeSpace_run _ _ _ _ _ H1 H2).
Qed.

(** C1, as the driver has it.  [CoProFIFO_FreeSpace] reads the chip's read
    cursor [Rd] and the chip's write cursor [Wr] (the cursor last published,
    not the host's [FifoWriteLocation]); when [Rd <= Wr] it returns
    FT_CMD_FIFO_SIZE - 4 - ((Wr - Rd) mod FT_CMD_FIFO_SIZE) as a [uint16_t],
    and the host's write cursor has no influence on the result. *)
Theorem free_space_formula (s s1 s2 : World D) (Rd Wr : Z) :
  rd16 (REG_CMD_READ + RAM_REG) s = Ok Rd s1 ->
  rd16 (REG_CMD_WRITE + RAM_REG) s1 = Ok Wr s2 ->
  Rd <= Wr ->
  let free := u16 (FT_CMD_FIFO_SIZE - 4 - (Wr - Rd) mod FT_CMD_FIFO_SIZE) in
  CoProFIFO_FreeSpace s = Ok free s2 /\
  forall c, CoProFIFO_FreeSpace (with_cursor s c) = Ok free (with_cursor s2 c).
Proof.
  intros H1 H2 Hle free.
  assert (Hfree : free_space_of Rd Wr = free).
  { unfold free_space_of, free, FT_CMD_FIFO_SIZE.
    rewrite Z.rem_mod_nonneg by lia.
    pose proof (Z.mod_pos_bound (Wr - Rd) 4096 ltac:(lia)).
    rewrite (u16_small ((Wr - Rd) mod 4096)) by lia. reflexivity. }
  rewrite <- Hfree. split.
  - exact (CoProFIFO_FreeSpace_run _ _ _ _ _ H1 H2).
  - intros c. apply (CoProFIFO_FreeSpace_run _ (with_cursor s1 c)).
    + apply rd16_with_cursor. exact H1.
    + apply (rd16_with_cursor _ s1 c). exact H2.
Qed.

End FreeSpace.

(** A chip whose read cursor stands at 8 and whose write cursor stands at
    24: sixteen bytes are pending, whatever the host's own cursor says. *)
Lemma free_space_formula_witness :
  rd16 (REG_CMD_READ + RAM_REG) (mkWorld 24 (cursors 8 24) [])
    = Ok 8 (extend (mkWorld 24 (cursors 8 24) [])
              (wire_rd (REG_CMD_READ + RAM_REG) [8; 0])) /\
  8 <= 24 /\
  (exists s', CoProFIFO_FreeSpace (mkWorld 24 (cursors 8 24) []) = Ok 4076 s') /\
  (exists s', CoProFIFO_FreeSpace (mkWorld 1000 (cursors 8 24) []) = Ok 4076 s').
Proof.
  assert (H1 : rd16 (REG_CMD_READ + RAM_REG) (mkWorld 24 (cursors 8 24) [])
               = Ok 8 (extend (mkWorld 24 (cursors 8 24) [])
                         (wire_rd (REG_CMD_READ + RAM_REG) [8; 0]))) by reflexivity.
  split; [exact H1|]. split; [lia|].
  destruct (free_space_formula _ _ _ 8 24 H1 eq_refl ltac:(lia)) as [Hfree Hany].
  split.
  - eexists. exact Hfree.
  - eexists. exact (Hany 1000).
Defined.

(** Not covered by the theorem above: once the chip's write cursor has
    wrapped below its read cursor the [int] remainder is negative, and the
    driver reports 4100 free bytes where 4 are free. *)
Example free_space_wrapped_example :
  exists s', CoProFIFO_FreeSpace (mkWorld 0 (cursors 8 0) []) = Ok 4100 s'.
Proof. eexists. vm_compute. reflexivity. Qed.

(** C1 as stated fails: one command word enqueued and not published moves
    the host's write cursor to 4 while the chip's read cursor reads 0, and
    the reported free space is still 4092, not FT_CMD_FIFO_SIZE - 4 - 4. *)
Lemma free_space_ignores_unpublished_words :
  exists s1 s1' s2 readCursor free,
    (Eve_Reset ;; Send_CMD 0x12345678) boot = Ok tt s1 /\
    FifoWriteLocation s1 = 4 /\
    rd16 (REG_CMD_READ + RAM_REG) s1 = Ok readCursor s1' /\
    readCursor = 0 /\
    CoProFIFO_FreeSpace s1 = Ok free s2 /\
    free = 4092 /\
    free <> FT_CMD_FIFO_SIZE - 4
            - (FifoWriteLocation s1 - readCursor) mod FT_CMD_FIFO_SIZE.
Proof.
  eexists _, _, _, _, _. split; [vm_compute; reflexivity|].
  split; [reflexivity|]. split; [vm_compute; reflexivity|].
  split; [reflexivity|]. split; [vm_compute; reflexivity|].
  split; [reflexivity|]. vm_compute. discriminate.
Qed.

(* ------------------------------------------------------------------ *)
(** ** Fault recovery *)

Section FaultRecovery.

Context {D : Type} {dev : Chip D} {regs : eve_h}.

(** What the loop that prints the chip's error text puts on the bus when
    the text read is [chars]: one byte read and one character printed per
    turn. *)
Fixpoint wire_report (chars : list Z) (Offset : Z) : list Event :=
  match chars with
  | [] => []
  | c :: rest =>
      wire_rd (RAM_ERR_REPORT + Offset) [c] ++ [Logged [c]]
        ++ wire_report rest (u8 (Offset + 1))
  end.

(** The recovery sequence, given the four bytes [patch] the chip answers
    for its patch pointer: read the patch pointer, halt the coprocessor,
    zero read cursor, write cursor and display-list cursor, resume the
    coprocessor, write the patch pointer back. *)
Definition wire_recovery (patch : list Z) : list Event :=
  wire_rd32 (REG_COPRO_PATCH_PTR + RAM_REG) patch
    ++ wire_wr8 (REG_CPU_RESET + RAM_REG) 1
    ++ wire_wr16 (REG_CMD_READ + RAM_REG) 0
    ++ wire_wr16 (REG_CMD_WRITE + RAM_REG) 0
    ++ wire_wr16 (REG_CMD_DL + RAM_REG) 0
    ++ wire_wr8 (REG_CPU_RESET + RAM_REG) 0
    ++ wire_wr32 (REG_COPRO_PATCH_PTR + RAM_REG) (le_value patch).

Lemma rd8_byte address (s : World D) :
  exists c, 0 <= c < 256 /\ rd8 address s = Ok c (extend s (wire_rd address [c])).
Proof.
  rewrite rd8_run.
  destruct (bytes1 _ (answer_length 1 (rd_query address) s)
              (answer_bytes 1 (rd_query address) s)) as (c & E & Hc).
  exists c. split; [exact Hc|]. rewrite E. cbn [le_value]. do 2 f_equal. lia.
Qed.

Lemma print_error_report_run turns Offset (s : World D) :
  0 <= Offset < 128 ->
  Offset + Z.of_nat turns = 128 ->
  exists chars,
    (1 <= length chars <= turns)%nat /\
    print_error_report turns Offset s = Ok tt (extend s (wire_report chars Offset)).
Proof.
  revert Offset s. induction turns as [|turns IH]; intros Offset s HO Hsum; [lia|].
  cbn [print_error_report].
  destruct (rd8_byte (RAM_ERR_REPORT + Offset) s) as (c & Hc & Hrd).
  rewrite (bind_run _ _ _ _ _ Hrd).
  rewrite (bind_run _ _ _ _ _ (Log_run _ _)), extend_extend.
  rewrite (u8_small (Offset + 1)) by lia.
  destruct (negb (c =? 0) && (Offset + 1 <? 128)) eqn:Hgo.
  - apply andb_true_iff in Hgo. destruct Hgo as [_ Hlt]. apply Z.ltb_lt in Hlt.
    destruct (IH (Offset + 1) (extend s (wire_rd (RAM_ERR_REPORT + Offset) [c] ++ [Logged [c]])))
      as (chars & Hlen & Hrun); [lia | lia |].
    exists (c :: chars). split; [simpl; lia|].
    rewrite Hrun, extend_extend. cbn [wire_report].
    rewrite (u8_small (Offset + 1)) by lia. rewrite <- !app_assoc. reflexivity.
  - exists [c]. split; [simpl; lia|].
    cbn [wire_report]. rewrite app_nil_r. reflexivity.
Qed.

Lemma recover_from_fault_run (s : World D) :
  exists chars patch,
    (length chars <= 128)%nat /\ length patch = 4%nat /\
    recover_from_fault s =
    Ok tt (extend s ([Logged [10]] ++ wire_report chars 0 ++ [Logged [10]]
                       ++ wire_recovery patch ++ [Delay 250])).
Proof.
  unfold recover_from_fault.
  rewrite (bind_run _ _ _ _ _ (Log_run _ _)).
  destruct (print_error_report_run 128 0 (extend s [Logged [10]])) as (chars & Hlen & Hrun);
    [lia | reflexivity |].
  rewrite (bind_run _ _ _ _ _ Hrun), extend_extend.
  rewrite (bind_run _ _ _ _ _ (Log_run _ _)), extend_extend.
  rewrite (bind_run _ _ _ _ _ (rd32_run _ _)), extend_extend.
  set (patch := answer 4 _ _).
  rewrite (bind_run _ _ _ _ _ (wr8_run _ _ _)), extend_extend.
  rewrite (bind_run _ _ _ _ _ (wr16_run _ _ _)), extend_extend.
  rewrite (bind_run _ _ _ _ _ (wr16_run _ _ _)), extend_extend.
  rewrite (bind_run _ _ _ _ _ (wr16_run _ _ _)), extend_extend.
  rewrite (bind_run _ _ _ _ _ (wr8_run _ _ _)), extend_extend.
  rewrite (bind_run _ _ _ _ _ (wr32_run _ _ _)), extend_extend.
  rewrite HAL_Delay_run, extend_extend.
  exists chars, patch. split; [lia|]. split; [apply answer_length|].
  unfold wire_recovery. rewrite <- !app_assoc. reflexivity.
Qed.

(** C3.  When a poll of [Wait4CoProFIFOEmpty] reads the fault sentinel
    0xFFF from the chip's read cursor, that turn of the loop prints the
    chip's error text and then runs the recovery sequence exactly once
    (read the patch pointer, halt the coprocessor, zero the read cursor,
    the write cursor and the display-list cursor, resume the coprocessor,
    write the patch pointer read before), waits, and evaluates the loop
    condition; polling goes on from there.  [FifoWriteLocation] is as
    before. *)
Theorem fault_recovery_sequence (polls : nat) (s s1 : World D) :
  rd16 (REG_CMD_READ + RAM_REG) s = Ok 0xFFF s1 ->
  exists chars patch cmdWrite s',
    (length chars <= 128)%nat /\ length patch = 4%nat /\
    s' = extend s1
           ([Logged [10]] ++ wire_report chars 0 ++ [Logged [10]]
              ++ wire_recovery patch ++ [Delay 250]
              ++ wire_rd (REG_CMD_WRITE + RAM_REG) cmdWrite) /\
    Wait4CoProFIFOEmpty_turn s = Ok (negb (0xFFF =? le_value cmdWrite)) s' /\
    Wait4CoProFIFOEmpty (S polls) s =
      (if negb (0xFFF =? le_value cmdWrite)
       then Wait4CoProFIFOEmpty polls s' else Ok tt s') /\
    FifoWriteLocation s' = FifoWriteLocation s.
Proof.
  intros Hpoll.
  destruct (recover_from_fault_run s1) as (chars & patch & Hlen & Hpatch & Hrec).
  assert (Hcur : FifoWriteLocation s1 = FifoWriteLocation s).
  { rewrite rd16_run in Hpoll. injection Hpoll as _ Hs. subst s1. reflexivity. }
  set (s2 := extend s1 ([Logged [10]] ++ wire_report chars 0 ++ [Logged [10]]
                          ++ wire_recovery patch ++ [Delay 250])) in *.
  set (cmdWrite := answer 2 (rd_query (REG_CMD_WRITE + RAM_REG)) s2).
  assert (Hturn : Wait4CoProFIFOEmpty_turn s
                  = Ok (negb (0xFFF =? le_value cmdWrite))
                      (extend s2 (wire_rd (REG_CMD_WRITE + RAM_REG) cmdWrite))).
  { unfold Wait4CoProFIFOEmpty_turn.
    rewrite (bind_run _ _ _ _ _ Hpoll). cbn [Z.eqb Pos.eqb].
    rewrite (bind_run _ _ _ _ _ Hrec).
    rewrite (bind_run _ _ _ _ _ (rd16_run _ _)). reflexivity. }
  exists chars, patch, cmdWrite, (extend s2 (wire_rd (REG_CMD_WRITE + RAM_REG) cmdWrite)).
  split; [exact Hlen|]. split; [exact Hpatch|]. split.
  { unfold s2. rewrite extend_extend, <- !app_assoc. reflexivity. }
  split; [exact Hturn|]. split.
  { cbn [Wait4CoProFIFOEmpty]. rewrite (bind_run _ _ _ _ _ Hturn).
    destruct (negb (0xFFF =? le_value cmdWrite)); reflexivity. }
  exact Hcur.
Qed.

End FaultRecovery.

(** A chip that has stopped with a fault: its read cursor shows the
    sentinel, its error report region holds the text "Err", its patch
    pointer is 0x12345678; the host has enqueued up to offset 100. *)
Definition faulted : World ram :=
  mkWorld 100
    (mkRam (reg16 0x3020F8 0xFFF
              ++ [(0x309800, 69); (0x309801, 114); (0x309802, 114)]
              ++ [(0x309162, 0x78); (0x309163, 0x56); (0x309164, 0x34); (0x309165, 0x12)])
       [] 0)
    [].

Lemma fault_recovery_sequence_witness :
  rd16 (REG_CMD_READ + RAM_REG) faulted
    = Ok 0xFFF (extend faulted (wire_rd (REG_CMD_READ + RAM_REG) [0xFF; 0x0F])) /\
  exists again s',
    Wait4CoProFIFOEmpty_turn faulted = Ok again s' /\
    FifoWriteLocation s' = 100.
Proof.
  assert (Hpoll : rd16 (REG_CMD_READ + RAM_REG) faulted
            = Ok 0xFFF (extend faulted (wire_rd (REG_CMD_READ + RAM_REG) [0xFF; 0x0F])))
    by reflexivity.
  split; [exact Hpoll|].
  destruct (fault_recovery_sequence 0 faulted _ Hpoll)
    as (chars & patch & cmdWrite & s' & _ & _ & _ & Hturn & _ & Hcur).
  exists (negb (0xFFF =? le_value cmdWrite)), s'. split; [exact Hturn | exact Hcur].
Defined.

(** The same turn, run: the text "Err" and its terminator are printed, the
    recovery sequence follows once, and the chip's cursors read 0 while
    the host's write cursor still stands at 100. *)
Example fault_recovery_on_the_wire :
  exists s',
    Wait4CoProFIFOEmpty_turn faulted = Ok true s' /\
    wire s' =
      wire_rd (REG_CMD_READ + RAM_REG) [0xFF; 0x0F]
        ++ [Logged [10]] ++ wire_report [69; 114; 114; 0] 0 ++ [Logged [10]]
        ++ wire_recovery [0x78; 0x56; 0x34; 0x12] ++ [Delay 250]
        ++ wire_rd (REG_CMD_WRITE + RAM_REG) [0; 0] /\
    FifoWriteLocation s' = 100 /\
    Wait4CoProFIFOEmpty 1 s' = Ok tt (extend s' (wire_rd (REG_CMD_READ + RAM_REG) [0; 0]
                                                  ++ wire_rd (REG_CMD_WRITE + RAM_REG) [0; 0])).
Proof.
  eexists. split; [vm_compute; reflexivity|].
  split; [vm_compute; reflexivity|]. split; [reflexivity|]. vm_compute. reflexivity.
Qed.

(* ------------------------------------------------------------------ *)
(** ** Waiting for free space *)

(** One poll of the free space is two register reads; [poll_free] is the
    free space the driver computes from the two answers. *)
Definition poll : Type := list Z * list Z.

Definition poll_free (p : poll) : Z :=
  free_space_of (le_value (fst p)) (le_value (snd p)).

Section Waiting.

Context {D : Type} {dev : Chip D} {regs : eve_h}.

Definition wire_poll (p : poll) : list Event :=
  wire_rd (REG_CMD_READ + RAM_REG) (fst p) ++ wire_rd (REG_CMD_WRITE + RAM_REG) (snd p).

(** A wait that saw the polls [busy] report too little and then [last]
    report enough. *)
Definition wire_wait (busy : list poll) (last : poll) : list Event :=
  flat_map wire_poll busy ++ wire_poll last.

Lemma CoProFIFO_FreeSpace_poll (s : World D) :
  exists p, CoProFIFO_FreeSpace s = Ok (poll_free p) (extend s (wire_poll p)).
Proof.
  pose proof (rd16_run (REG_CMD_READ + RAM_REG) s) as H1. cbv zeta in H1.
  set (r1 := answer 2 (rd_query (REG_CMD_READ + RAM_REG)) s) in *.
  pose proof (rd16_run (REG_CMD_WRITE + RAM_REG)
                (extend s (wire_rd (REG_CMD_READ + RAM_REG) r1))) as H2.
  cbv zeta in H2.
  set (r2 := answer 2 (rd_query (REG_CMD_WRITE + RAM_REG)) _) in *.
  exists (r1, r2).
  rewrite (CoProFIFO_FreeSpace_run _ _ _ _ _ H1 H2), extend_extend. reflexivity.
Qed.

Lemma Wait4CoProFIFO_inv polls room (s s' : World D) :
  Wait4CoProFIFO polls room s = Ok tt s' ->
  exists busy last,
    (length busy < polls)%nat /\
    Forall (fun p => poll_free p < u32 room) busy /\
    u32 room <= poll_free last /\
    s' = extend s (wire_wait busy last).
Proof.
  revert s. induction polls as [|polls IH]; intros s H; [discriminate|].
  cbn [Wait4CoProFIFO] in H.
  destruct (CoProFIFO_FreeSpace_poll s) as (p & Hp).
  rewrite (bind_run _ _ _ _ _ Hp) in H.
  destruct (poll_free p <? u32 room) eqn:Hcmp.
  - apply Z.ltb_lt in Hcmp.
    destruct (IH _ H) as (busy & last & Hlen & Hbusy & Hlast & Hs').
    exists (p :: busy), last. split; [simpl; lia|].
    split; [constructor; assumption|]. split; [exact Hlast|].
    rewrite Hs', extend_extend. unfold wire_wait. cbn [flat_map].
    rewrite <- !app_assoc. reflexivity.
  - apply Z.ltb_ge in Hcmp. unfold ret in H. injection H as Hs'.
    exists [], p. split; [simpl; lia|]. split; [constructor|].
    split; [exact Hcmp|]. symmetry. exact Hs'.
Qed.


End Waiting.

(* ------------------------------------------------------------------ *)
(** ** Bulk upload *)

(** [x] rounded up to the next multiple of 4. *)
Definition round_up4 (x : Z) : Z := 4 * ((x + 3) / 4).

Section Upload.

Context {D : Type} {dev : Chip D} {regs : eve_h}.

(** The write transaction that carries one chunk into the FIFO window at
    the write cursor [loc]. *)
Definition wire_chunk (loc : Z) (payload : list Z) : list Event :=
  SPI_Enable :: map SPI_Write (wr_address (loc + RAM_CMD))
    ++ [SPI_WriteBuffer payload; SPI_Disable].

(** The spec's upload, for a given list of chunk sizes: for each chunk,
    wait for free space, write the chunk in one transaction at
    FIFO base + write cursor, advance the write cursor by the chunk size
    modulo the FIFO size, publish. *)
Fixpoint upload_spec (polls : nat) (host : Z -> Z) (buff : Z) (sizes : list Z)
  : M D unit :=
  match sizes with
  | [] => ret tt
  | n :: rest =>
      Wait4CoProFIFO polls WorkBuffSz ;;
      (fun s =>
         Ok tt (with_cursor
                  (extend s (wire_chunk (FifoWriteLocation s) (peek host buff n)))
                  ((FifoWriteLocation s + n) mod FT_CMD_FIFO_SIZE))) ;;
      UpdateFIFO ;;
      upload_spec polls host (buff + n) rest
  end.

Lemma CoProWrCmdBuf_loop_step polls host buff Remaining (s : World D) :
  CoProWrCmdBuf_loop polls host buff Remaining s =
  match CoProWrCmdBuf_turn polls host buff Remaining s with
  | Ok (buff', Remaining') s' =>
      if 0 <? Remaining' then CoProWrCmdBuf_loop polls host buff' Remaining' s'
      else Ok tt s'
  | Hang => Hang
  | Trap => Trap
  end.
Proof.
  funelim (CoProWrCmdBuf_loop polls host buff Remaining s);
    match goal with
    | H : CoProWrCmdBuf_turn _ _ _ _ _ = _ |- _ => rewrite H
    end;
    try match goal with
      | H : (0 <? _) = _ |- _ => rewrite H
      end;
    reflexivity.
Qed.

Lemma StartCoProTransfer_run address (s : World D) :
  StartCoProTransfer address false s =
  Ok tt (extend s (SPI_Enable :: map SPI_Write (wr_address address))).
Proof.
  unfold StartCoProTransfer. repeat hal_step. reflexivity.
Qed.

Lemma UpdateFIFO_run (s : World D) :
  UpdateFIFO s =
  Ok tt (extend s (wire_wr16 (REG_CMD_WRITE + RAM_REG) (FifoWriteLocation s))).
Proof.
  unfold UpdateFIFO. unfold bind, get_FifoWriteLocation. apply wr16_run.
Qed.

(** One turn of the loop, once its wait has returned in [s1]. *)
Definition after_chunk (host : Z -> Z) (buff n : Z) (s1 : World D) : World D :=
  let loc := FifoWriteLocation s1 in
  let loc' := u16 ((loc + n)%c mod FT_CMD_FIFO_SIZE) in
  with_cursor
    (extend s1 (wire_chunk loc (peek host buff n)
                  ++ wire_wr16 (REG_CMD_WRITE + RAM_REG) loc'))
    loc'.

Lemma CoProWrCmdBuf_turn_run polls host buff Remaining (s : World D) :
  CoProWrCmdBuf_turn polls host buff Remaining s =
  match Wait4CoProFIFO polls WorkBuffSz s with
  | Ok _ s1 =>
      Ok (buff + next_TransferSize Remaining, next_Remaining Remaining)
        (after_chunk host buff (next_TransferSize Remaining) s1)
  | Hang => Hang
  | Trap => Trap
  end.
Proof.
  unfold CoProWrCmdBuf_turn. unfold bind at 1.
  destruct (Wait4CoProFIFO polls WorkBuffSz s) as [[] s1| |]; try reflexivity.
  unfold bind at 1. unfold get_FifoWriteLocation at 1.
  rewrite (bind_run _ _ _ _ _ (StartCoProTransfer_run _ _)).
  rewrite (bind_run _ _ _ _ _ (HAL_SPI_WriteBuffer_run _ _)), extend_extend.
  unfold bind at 1. unfold get_FifoWriteLocation at 1. cbn [extend FifoWriteLocation].
  unfold bind at 1. unfold set_FifoWriteLocation at 1.
  unfold bind at 1. unfold HAL_SPI_Disable at 1.
  unfold bind at 1. unfold get_FifoWriteLocation at 1.
  unfold bind at 1. rewrite wr16_run.
  unfold ret, after_chunk, with_cursor, extend, emit, wire_chunk.
  cbn [FifoWriteLocation chip wire].
  rewrite !chip_play_app. cbn [chip_play].
  rewrite <- !app_assoc. reflexivity.
Qed.

End Upload.

Section Chunking.

Context {D : Type} {dev : Chip D} {regs : eve_h}.

Lemma next_TransferSize_full Remaining :
  WorkBuffSz < Remaining -> next_TransferSize Remaining = WorkBuffSz.
Proof.
  intros H. unfold next_TransferSize. apply Z.ltb_lt in H. rewrite H. reflexivity.
Qed.

Lemma next_TransferSize_last Remaining :
  0 <= Remaining <= WorkBuffSz -> next_TransferSize Remaining = round_up4 Remaining.
Proof.
  unfold WorkBuffSz. intros H. unfold next_TransferSize, WorkBuffSz.
  destruct (Z.ltb_spec 512 Remaining); [lia|].
  rewrite land_FFC. unfold add32, round_up4.
  rewrite (u32_small Remaining) by lia. rewrite (u32_small (Remaining + 3)) by lia.
  rewrite (Z.mod_small (Remaining + 3) 4096) by lia. reflexivity.
Qed.

Lemma round_up4_bounds x :
  0 <= x -> x <= round_up4 x < x + 4 /\ round_up4 x mod 4 = 0.
Proof.
  intros Hx. unfold round_up4.
  pose proof (Z.div_mod (x + 3) 4 ltac:(lia)).
  pose proof (Z.mod_pos_bound (x + 3) 4 ltac:(lia)).
  split; [lia|]. rewrite Z.mul_comm. apply Z.mod_mul. lia.
Qed.

Lemma round_up4_le_512 x : 0 <= x <= 512 -> round_up4 x <= 512.
Proof.
  intros Hx. unfold round_up4.
  assert ((x + 3) / 4 <= 128); [|lia].
  apply Z.lt_succ_r. apply Z.div_lt_upper_bound; lia.
Qed.

Lemma next_Remaining_full Remaining :
  WorkBuffSz < Remaining < 2^31 -> next_Remaining Remaining = Remaining - WorkBuffSz.
Proof.
  intros H. unfold next_Remaining. rewrite next_TransferSize_full by lia.
  unfold WorkBuffSz in *. unfold sub32. rewrite s32_u32.
  rewrite u32_small by lia. apply s32_small. lia.
Qed.

Lemma next_Remaining_last Remaining :
  0 <= Remaining <= WorkBuffSz -> next_Remaining Remaining <= 0.
Proof.
  intros H. unfold next_Remaining. rewrite next_TransferSize_last by lia.
  unfold WorkBuffSz in *. unfold sub32. rewrite s32_u32.
  rewrite u32_small by lia.
  pose proof (round_up4_bounds Remaining ltac:(lia)).
  rewrite s32_small; lia.
Qed.

Lemma Wait4CoProFIFO_cursor polls room (s s' : World D) :
  Wait4CoProFIFO polls room s = Ok tt s' ->
  FifoWriteLocation s' = FifoWriteLocation s.
Proof.
  intros H. apply Wait4CoProFIFO_inv in H.
  destruct H as (busy & last & _ & _ & _ & Hs'). subst s'. reflexivity.
Qed.

Lemma upload_spec_step polls host buff n rest (s : World D) :
  0 <= FifoWriteLocation s < FT_CMD_FIFO_SIZE ->
  0 <= n <= WorkBuffSz ->
  upload_spec polls host buff (n :: rest) s =
  match Wait4CoProFIFO polls WorkBuffSz s with
  | Ok _ s1 => upload_spec polls host (buff + n) rest (after_chunk host buff n s1)
  | Hang => Hang
  | Trap => Trap
  end.
Proof.
  intros Hloc Hn. cbn [upload_spec]. unfold bind at 1.
  destruct (Wait4CoProFIFO polls WorkBuffSz s) as [[] s1| |] eqn:Hwait; try reflexivity.
  apply Wait4CoProFIFO_cursor in Hwait.
  unfold bind at 1. unfold bind at 1. rewrite UpdateFIFO_run.
  f_equal. unfold after_chunk, with_cursor, extend.
  cbn [FifoWriteLocation chip wire].
  unfold FT_CMD_FIFO_SIZE, WorkBuffSz, add32 in *.
  rewrite (u32_small (FifoWriteLocation s1 + n)) by lia.
  pose proof (Z.mod_pos_bound (FifoWriteLocation s1 + n) 4096 ltac:(lia)).
  rewrite (u16_small ((FifoWriteLocation s1 + n) mod 4096)) by lia.
  rewrite chip_play_app, <- app_assoc. reflexivity.
Qed.

Lemma after_chunk_cursor host buff n (s1 : World D) :
  0 <= FifoWriteLocation (after_chunk host buff n s1) < FT_CMD_FIFO_SIZE.
Proof.
  unfold after_chunk, with_cursor, FT_CMD_FIFO_SIZE. cbn [FifoWriteLocation].
  pose proof (Z.mod_pos_bound ((FifoWriteLocation s1 + n)%c) 4096 ltac:(lia)).
  rewrite u16_small; lia.
Qed.

(** The loop of [CoProWrCmdBuf] is the spec's upload over [k] full chunks
    and a last chunk of what remains, rounded up to a multiple of 4. *)
Lemma CoProWrCmdBuf_loop_chunks polls host (k : nat) :
  forall buff Remaining (s : World D),
    0 <= FifoWriteLocation s < FT_CMD_FIFO_SIZE ->
    Remaining < 2^31 ->
    0 <= Remaining - WorkBuffSz * Z.of_nat k <= WorkBuffSz ->
    ((0 < k)%nat -> 0 < Remaining - WorkBuffSz * Z.of_nat k) ->
    CoProWrCmdBuf_loop polls host buff Remaining s =
    upload_spec polls host buff
      (repeat WorkBuffSz k ++ [round_up4 (Remaining - WorkBuffSz * Z.of_nat k)]) s.
Proof.
  induction k as [|k IH]; intros buff Remaining s Hloc Hmax Hrem Hpos.
  - cbn [repeat app]. replace (Remaining - WorkBuffSz * Z.of_nat 0) with Remaining in * by lia.
    rewrite CoProWrCmdBuf_loop_step, CoProWrCmdBuf_turn_run.
    rewrite upload_spec_step; [|exact Hloc|].
    2:{ pose proof (round_up4_bounds Remaining ltac:(lia)).
        pose proof (round_up4_le_512 Remaining). unfold WorkBuffSz in *. lia. }
    destruct (Wait4CoProFIFO polls WorkBuffSz s) as [[] s1| |]; try reflexivity.
    pose proof (next_Remaining_last Remaining Hrem) as Hnext.
    destruct (Z.ltb_spec 0 (next_Remaining Remaining)); [lia|].
    rewrite next_TransferSize_last by exact Hrem. reflexivity.
  - assert (Hbig : WorkBuffSz < Remaining) by (unfold WorkBuffSz in *; lia).
    cbn [repeat app].
    rewrite CoProWrCmdBuf_loop_step, CoProWrCmdBuf_turn_run.
    rewrite upload_spec_step; [|exact Hloc | unfold WorkBuffSz; lia].
    destruct (Wait4CoProFIFO polls WorkBuffSz s) as [[] s1| |]; try reflexivity.
    rewrite next_Remaining_full, next_TransferSize_full by lia.
    destruct (Z.ltb_spec 0 (Remaining - WorkBuffSz)); [|lia].
    rewrite IH.
    + replace (Remaining - WorkBuffSz - WorkBuffSz * Z.of_nat k)
        with (Remaining - WorkBuffSz * Z.of_nat (S k))
        by (unfold WorkBuffSz; lia).
      reflexivity.
    + apply after_chunk_cursor.
    + unfold WorkBuffSz in *. lia.
    + unfold WorkBuffSz in *. lia.
    + unfold WorkBuffSz in *. lia.
Qed.

(** What an upload that returns has put on the bus, chunk by chunk: the
    polls of the wait (all but the last reporting less than 512 bytes
    free), the chunk at the write cursor, the new write cursor published. *)
Inductive upload_on_wire (host : Z -> Z) : Z -> Z -> list Z -> list Event -> Z -> Prop :=
| upload_done buff loc : upload_on_wire host buff loc [] [] loc
| upload_chunk buff loc n rest busy last evs loc' :
    Forall (fun p => poll_free p < WorkBuffSz) busy ->
    WorkBuffSz <= poll_free last ->
    upload_on_wire host (buff + n) ((loc + n) mod FT_CMD_FIFO_SIZE) rest evs loc' ->
    upload_on_wire host buff loc (n :: rest)
      (wire_wait busy last
         ++ wire_chunk loc (peek host buff n)
         ++ wire_wr16 (REG_CMD_WRITE + RAM_REG) ((loc + n) mod FT_CMD_FIFO_SIZE)
         ++ evs)
      loc'.

Lemma upload_spec_on_wire polls host sizes :
  forall buff (s s' : World D),
    upload_spec polls host buff sizes s = Ok tt s' ->
    exists evs,
      upload_on_wire host buff (FifoWriteLocation s) sizes evs (FifoWriteLocation s') /\
      wire s' = wire s ++ evs.
Proof.
  induction sizes as [|n rest IH]; intros buff s s' Hrun.
  - cbn [upload_spec] in Hrun. unfold ret in Hrun. injection Hrun as <-.
    exists []. split; [constructor | symmetry; apply app_nil_r].
  - cbn [upload_spec] in Hrun.
    apply bind_Ok in Hrun. destruct Hrun as ([] & s1 & Hwait & Hrun).
    apply bind_Ok in Hrun. destruct Hrun as ([] & s2 & Hchunk & Hrun).
    apply bind_Ok in Hrun. destruct Hrun as ([] & s3 & Hpub & Hrun).
    apply Wait4CoProFIFO_inv in Hwait.
    destruct Hwait as (busy & last & _ & Hbusy & Hlast & ->).
    change (u32 WorkBuffSz) with WorkBuffSz in *.
    injection Hchunk as <-. rewrite UpdateFIFO_run in Hpub. injection Hpub as <-.
    destruct (IH _ _ _ Hrun) as (evs & Hwire & Hevs).
    eexists. split.
    + apply (upload_chunk host buff (FifoWriteLocation s) n rest busy last evs);
        [exact Hbusy | exact Hlast | exact Hwire].
    + rewrite Hevs. cbn [extend with_cursor wire FifoWriteLocation].
      rewrite <- !app_assoc. reflexivity.
Qed.


End Chunking.



Section EmptyUpload.

Context {D : Type} {dev : Chip D} {regs : eve_h}.


End EmptyUpload.

(** The host has published up to offset 3800 and the coprocessor, which
    consumes 100 bytes per transaction, has not started: 292 bytes are
    free at the first poll, 492 at the second, 692 at the third. *)
Definition catching_up : World working :=
  mkWorld 3800 (mkWorking (cursors 0 3800) 100) [].


(** The same upload, run: two polls report too little, the third enough;
    with a budget of two polls the driver is still waiting. *)
Example upload_of_nothing_blocks :
  (exists s',
      CoProWrCmdBuf 3 (fun i => i) 0 0 catching_up = Ok tt s' /\
      wire s' =
        wire_wait [([0; 0], [216; 14]); ([200; 0], [216; 14])] ([144; 1], [216; 14])
          ++ wire_chunk 3800 []
          ++ wire_wr16 (REG_CMD_WRITE + RAM_REG) 3800) /\
  map poll_free [([0; 0], [216; 14]); ([200; 0], [216; 14]); ([144; 1], [216; 14])]
    = [292; 492; 692] /\
  CoProWrCmdBuf 2 (fun i => i) 0 0 catching_up = Hang.
Proof.
  split; [eexists; split; vm_compute; reflexivity|].
  split; vm_compute; reflexivity.
Qed.


(** Not covered by the theorem above beyond what is reported: once the
    chip's write cursor has wrapped below its read cursor
    [CoProFIFO_FreeSpace] reports 4096 bytes too many, and with 4 bytes
    free the upload of nothing returns after one poll that reports 4100. *)
Example upload_of_nothing_after_wrap :
  exists s',
    CoProWrCmdBuf 1 (fun i => i) 0 0 (mkWorld 0 (cursors 8 0) []) = Ok tt s' /\
    wire s' =
      wire_wait [] ([8; 0], [0; 0])
        ++ wire_chunk 0 []
        ++ wire_wr16 (REG_CMD_WRITE + RAM_REG) 0 /\
    poll_free ([8; 0], [0; 0]) = 4100.
Proof.
  eexists. split; [vm_compute; reflexivity|].
  split; vm_compute; reflexivity.
Qed.

(* ------------------------------------------------------------------ *)
(** ** Touch calibration: the arithmetic *)

(** Two integers that agree in their low 32 bits. *)
Definition same32 (a b : Z) : Prop := u32 a = u32 b.

#[local] Instance same32_equiv : Equivalence same32.
Proof. exact (eqm_setoid (2^32)). Qed.

#[local] Instance add_same32 : Proper (same32 ==> same32 ==> same32) Z.add.
Proof. exact (Zplus_eqm (2^32)). Qed.

#[local] Instance sub_same32 : Proper (same32 ==> same32 ==> same32) Z.sub.
Proof. exact (Zminus_eqm (2^32)). Qed.

#[local] Instance mul_same32 : Proper (same32 ==> same32 ==> same32) Z.mul.
Proof. exact (Zmult_eqm (2^32)). Qed.

Lemma u32_same32 a : same32 (u32 a) a.
Proof. exact (Zmod_eqm (2^32) a). Qed.

Lemma s32_same32 a b : same32 a b -> s32 a = s32 b.
Proof.
  intros H. rewrite <- (s32_u32 a), <- (s32_u32 b). unfold same32 in H.
  rewrite H. reflexivity.
Qed.

(** The determinant of the 2x2 system two coordinate triples span, and the
    numerator of the constant coefficient, over the integers. *)
Definition det3 (p q : list Z) : Z :=
  (p.[0%nat] - p.[2%nat]) * (q.[1%nat] - q.[2%nat])
  - (p.[1%nat] - p.[2%nat]) * (q.[0%nat] - q.[2%nat]).

Definition offset3 (d tX tY : list Z) : Z :=
  tY.[0%nat] * (tX.[2%nat] * d.[1%nat] - tX.[1%nat] * d.[2%nat])
  + tY.[1%nat] * (tX.[0%nat] * d.[2%nat] - tX.[2%nat] * d.[0%nat])
  + tY.[2%nat] * (tX.[1%nat] * d.[0%nat] - tX.[0%nat] * d.[1%nat]).

(** [k] and the six values of [tmp] of [calculate_touch_matrix]. *)
Definition k_of (tX tY : list Z) : Z := s32 (det3 tX tY).

Definition tmps_of (dX dY tX tY : list Z) : list Z :=
  [ s32 (det3 dX tY); s32 (det3 tX dX); s32 (offset3 dX tX tY);
    s32 (det3 dY tY); s32 (det3 tX dY); s32 (offset3 dY tX tY) ].

Ltac same32_calc :=
  apply s32_same32; unfold det3, offset3, sub32, add32, mul32;
  rewrite !u32_same32; unfold same32; f_equal; ring.

Lemma calculate_touch_matrix_eq dX dY tX tY :
  calculate_touch_matrix dX dY tX tY =
  let k := k_of tX tY in
  let tmp := tmps_of dX dY tX tY in
  m0 <-? fixed_quot tmp.[0%nat] k ;;
  m1 <-? fixed_quot tmp.[1%nat] k ;;
  m2 <-? fixed_quot tmp.[2%nat] k ;;
  m3 <-? fixed_quot tmp.[3%nat] k ;;
  m4 <-? fixed_quot tmp.[4%nat] k ;;
  m5 <-? fixed_quot tmp.[5%nat] k ;;
  Some [m0; m1; m2; m3; m4; m5].
Proof.
  unfold calculate_touch_matrix, k_of, tmps_of. cbn [nth].
  replace (s32 ((tX.[0%nat] - tX.[2%nat]) * (tY.[1%nat] - tY.[2%nat])
                - (tX.[1%nat] - tX.[2%nat]) * (tY.[0%nat] - tY.[2%nat]))%c)
    with (s32 (det3 tX tY)) by same32_calc.
  replace (s32 ((dX.[0%nat] - dX.[2%nat]) * (tY.[1%nat] - tY.[2%nat])
                - (dX.[1%nat] - dX.[2%nat]) * (tY.[0%nat] - tY.[2%nat]))%c)
    with (s32 (det3 dX tY)) by same32_calc.
  replace (s32 ((tX.[0%nat] - tX.[2%nat]) * (dX.[1%nat] - dX.[2%nat])
                - (dX.[0%nat] - dX.[2%nat]) * (tX.[1%nat] - tX.[2%nat]))%c)
    with (s32 (det3 tX dX)) by same32_calc.
  replace (s32 (tY.[0%nat] * (tX.[2%nat] * dX.[1%nat] - tX.[1%nat] * dX.[2%nat])
                + tY.[1%nat] * (tX.[0%nat] * dX.[2%nat] - tX.[2%nat] * dX.[0%nat])
                + tY.[2%nat] * (tX.[1%nat] * dX.[0%nat] - tX.[0%nat] * dX.[1%nat]))%c)
    with (s32 (offset3 dX tX tY)) by same32_calc.
  replace (s32 ((dY.[0%nat] - dY.[2%nat]) * (tY.[1%nat] - tY.[2%nat])
                - (dY.[1%nat] - dY.[2%nat]) * (tY.[0%nat] - tY.[2%nat]))%c)
    with (s32 (det3 dY tY)) by same32_calc.
  replace (s32 ((tX.[0%nat] - tX.[2%nat]) * (dY.[1%nat] - dY.[2%nat])
                - (dY.[0%nat] - dY.[2%nat]) * (tX.[1%nat] - tX.[2%nat]))%c)
    with (s32 (det3 tX dY)) by same32_calc.
  replace (s32 (tY.[0%nat] * (tX.[2%nat] * dY.[1%nat] - tX.[1%nat] * dY.[2%nat])
                + tY.[1%nat] * (tX.[0%nat] * dY.[2%nat] - tX.[2%nat] * dY.[0%nat])
                + tY.[2%nat] * (tX.[1%nat] * dY.[0%nat] - tX.[0%nat] * dY.[1%nat]))%c)
    with (s32 (offset3 dY tX tY)) by same32_calc.
  reflexivity.
Qed.

(** The 16.16 quotient the driver stores for numerator [tmp]. *)
Definition coefficient (tmp k : Z) : Z := u32 (Z.quot (Z.shiftl tmp 16) k).

Lemma fixed_quot_nonzero tmp k : k <> 0 -> fixed_quot tmp k = Some (coefficient tmp k).
Proof.
  intros Hk. unfold fixed_quot. destruct (Z.eqb_spec k 0); [contradiction | reflexivity].
Qed.

Lemma calculate_touch_matrix_nonzero dX dY tX tY :
  k_of tX tY <> 0 ->
  calculate_touch_matrix dX dY tX tY =
  Some (map (fun tmp => coefficient tmp (k_of tX tY)) (tmps_of dX dY tX tY)).
Proof.
  intros Hk. rewrite calculate_touch_matrix_eq. cbv zeta.
  rewrite !(fixed_quot_nonzero _ _ Hk). reflexivity.
Qed.

Lemma calculate_touch_matrix_zero dX dY tX tY :
  k_of tX tY = 0 -> calculate_touch_matrix dX dY tX tY = None.
Proof.
  intros Hk. rewrite calculate_touch_matrix_eq. cbv zeta. rewrite Hk. reflexivity.
Qed.

(** Shallow vocabulary for the calibration properties: a coordinate triple
    within the range the spec considers, a value that fits an [int32_t],
    the transform the chip computes from six 16.16 coefficients (in units
    of 1/65536 pixel), and agreement to within one pixel. *)
Definition in_range (l : list Z) : Prop :=
  length l = 3%nat /\ Forall (fun c => 0 <= c <= 2000) l.

Definition fits_s32 (x : Z) : Prop := - 2^31 <= x < 2^31.

Definition fixed_apply (m : list Z) (row : nat) (x y : Z) : Z :=
  s32 m.[row] * x + s32 m.[S row] * y + s32 m.[S (S row)].

Definition within_one_pixel (fx pixel : Z) : Prop :=
  Z.abs (fx - 2^16 * pixel) < 2^16.

(** The six numerators over the integers, before any wrap-around. *)
Definition exact_numerators (dX dY tX tY : list Z) : list Z :=
  [ det3 dX tY; det3 tX dX; offset3 dX tX tY;
    det3 dY tY; det3 tX dY; offset3 dY tX tY ].

Lemma in_range_inv l :
  in_range l ->
  exists a b c, l = [a; b; c] /\ 0 <= a <= 2000 /\ 0 <= b <= 2000 /\ 0 <= c <= 2000.
Proof.
  intros [Hlen Hall]. destruct l as [|a [|b [|c [|? ?]]]]; try discriminate.
  inversion Hall as [|? ? Ha H1]; subst. inversion H1 as [|? ? Hb H2]; subst.
  inversion H2 as [|? ? Hc H3]; subst. exists a, b, c. auto.
Qed.

Lemma det3_bound p q : in_range p -> in_range q -> -8000000 <= det3 p q <= 8000000.
Proof.
  intros Hp Hq.
  destruct (in_range_inv p Hp) as (p0 & p1 & p2 & -> & ? & ? & ?).
  destruct (in_range_inv q Hq) as (q0 & q1 & q2 & -> & ? & ? & ?).
  unfold det3. cbn [nth].
  assert (-4000000 <= (p0 - p2) * (q1 - q2) <= 4000000) by nia.
  assert (-4000000 <= (p1 - p2) * (q0 - q2) <= 4000000) by nia.
  lia.
Qed.

Lemma quot_rem_small n k :
  k <> 0 ->
  exists r, n = k * Z.quot n k + r /\ Z.abs r < Z.abs k.
Proof.
  intros Hk. exists (Z.rem n k). split.
  - apply Z.quot_rem'.
  - apply Z.rem_bound_abs. exact Hk.
Qed.

(** The error of the fixed-point transform at a calibration point: each
    truncated quotient is off by less than one unit of 1/65536. *)
Lemma affine_error k nA nB nC x y d :
  k <> 0 -> 0 <= x <= 2000 -> 0 <= y <= 2000 ->
  nA * x + nB * y + nC = k * d ->
  Z.abs (Z.quot (nA * 2^16) k * x + Z.quot (nB * 2^16) k * y + Z.quot (nC * 2^16) k
         - 2^16 * d) < 2^16.
Proof.
  intros Hk Hx Hy Hid.
  destruct (quot_rem_small (nA * 2^16) k Hk) as (rA & HA & HrA).
  destruct (quot_rem_small (nB * 2^16) k Hk) as (rB & HB & HrB).
  destruct (quot_rem_small (nC * 2^16) k Hk) as (rC & HC & HrC).
  set (qA := Z.quot (nA * 2^16) k) in *.
  set (qB := Z.quot (nB * 2^16) k) in *.
  set (qC := Z.quot (nC * 2^16) k) in *.
  set (E := qA * x + qB * y + qC - 2^16 * d).
  assert (HE : k * E = - (rA * x + rB * y + rC)).
  { unfold E.
    replace (k * (qA * x + qB * y + qC - 2^16 * d))
      with ((k * qA) * x + (k * qB) * y + k * qC - 2^16 * (k * d)) by ring.
    rewrite <- Hid.
    replace (k * qA) with (nA * 2^16 - rA) by lia.
    replace (k * qB) with (nB * 2^16 - rB) by lia.
    replace (k * qC) with (nC * 2^16 - rC) by lia.
    ring. }
  assert (HR : Z.abs (rA * x + rB * y + rC) <= (Z.abs k - 1) * 4001).
  { assert (Z.abs (rA * x) <= (Z.abs k - 1) * 2000).
    { rewrite Z.abs_mul, (Z.abs_eq x) by lia. nia. }
    assert (Z.abs (rB * y) <= (Z.abs k - 1) * 2000).
    { rewrite Z.abs_mul, (Z.abs_eq y) by lia. nia. }
    pose proof (Z.abs_triangle (rA * x + rB * y) rC).
    pose proof (Z.abs_triangle (rA * x) (rB * y)).
    lia. }
  assert (HkE : Z.abs k * Z.abs E <= (Z.abs k - 1) * 4001).
  { rewrite <- Z.abs_mul, HE, Z.abs_opp. exact HR. }
  assert (0 < Z.abs k) by (apply Z.abs_pos; exact Hk).
  pose proof (Z.abs_nonneg E).
  change (2^16) with 65536 in *. nia.
Qed.

Lemma numerators_identity_x dX tX tY i :
  in_range dX -> in_range tX -> in_range tY -> (i < 3)%nat ->
  det3 dX tY * tX.[i] + det3 tX dX * tY.[i] + offset3 dX tX tY
  = det3 tX tY * dX.[i] /\
  0 <= tX.[i] <= 2000 /\ 0 <= tY.[i] <= 2000.
Proof.
  intros Hd Hx Hy Hi.
  destruct (in_range_inv dX Hd) as (d0 & d1 & d2 & -> & ? & ? & ?).
  destruct (in_range_inv tX Hx) as (x0 & x1 & x2 & -> & ? & ? & ?).
  destruct (in_range_inv tY Hy) as (y0 & y1 & y2 & -> & ? & ? & ?).
  unfold det3, offset3.
  destruct i as [|[|[|i]]]; [| | |lia]; cbn [nth]; (split; [ring | lia]).
Qed.

Lemma s32_coefficient n k :
  fits_s32 (Z.quot (n * 2^16) k) ->
  s32 (coefficient n k) = Z.quot (n * 2^16) k.
Proof.
  intros Hfit. unfold coefficient.
  rewrite s32_u32, Z.shiftl_mul_pow2 by lia. apply s32_small. exact Hfit.
Qed.

(** C5, as the driver has it.  For touch points that are not collinear and
    coordinates between 0 and 2000, provided the two numerators of the
    constant coefficients fit an [int32_t] and the six quotients fit the
    signed 32-bit 16.16 format of the transform registers, the six
    coefficients [calculate_touch_matrix] produces map each of the three
    touch points to its display point to within one pixel. *)
Theorem calibration_reproduces_points (dX dY tX tY : list Z) :
  in_range dX -> in_range dY -> in_range tX -> in_range tY ->
  det3 tX tY <> 0 ->
  fits_s32 (offset3 dX tX tY) ->
  fits_s32 (offset3 dY tX tY) ->
  Forall (fun n => fits_s32 (Z.quot (n * 2^16) (det3 tX tY)))
    (exact_numerators dX dY tX tY) ->
  exists m,
    calculate_touch_matrix dX dY tX tY = Some m /\
    forall i, (i < 3)%nat ->
      within_one_pixel (fixed_apply m 0 tX.[i] tY.[i]) dX.[i] /\
      within_one_pixel (fixed_apply m 3 tX.[i] tY.[i]) dY.[i].
Proof.
  intros HdX HdY HtX HtY Hdet HfitX HfitY Hq.
  assert (Hk : k_of tX tY = det3 tX tY).
  { unfold k_of. apply s32_small. pose proof (det3_bound tX tY HtX HtY). lia. }
  assert (Htmp : tmps_of dX dY tX tY = exact_numerators dX dY tX tY).
  { unfold tmps_of, exact_numerators.
    pose proof (det3_bound dX tY HdX HtY). pose proof (det3_bound tX dX HtX HdX).
    pose proof (det3_bound dY tY HdY HtY). pose proof (det3_bound tX dY HtX HdY).
    rewrite !(s32_small (det3 _ _)) by lia.
    rewrite (s32_small (offset3 dX tX tY)) by exact HfitX.
    rewrite (s32_small (offset3 dY tX tY)) by exact HfitY.
    reflexivity. }
  eexists. split.
  { apply calculate_touch_matrix_nonzero. rewrite Hk. exact Hdet. }
  rewrite Hk, Htmp. unfold exact_numerators in *.
  inversion Hq as [|? ? HA H1]; subst. inversion H1 as [|? ? HB H2]; subst.
  inversion H2 as [|? ? HC H3]; subst. inversion H3 as [|? ? HD H4]; subst.
  inversion H4 as [|? ? HE H5]; subst. inversion H5 as [|? ? HF H6]; subst.
  intros i Hi. unfold within_one_pixel, fixed_apply. cbn [map nth].
  rewrite !s32_coefficient by assumption.
  destruct (numerators_identity_x dX tX tY i HdX HtX HtY Hi) as (HidX & Hx & Hy).
  destruct (numerators_identity_x dY tX tY i HdY HtX HtY Hi) as (HidY & _ & _).
  split; apply affine_error; assumption.
Qed.

(** Display corners of an 800x480 panel against raw touch readings. *)
Lemma calibration_reproduces_points_witness :
  in_range [120; 680; 400] /\ in_range [72; 240; 408] /\
  in_range [153; 870; 512] /\ in_range [153; 512; 870] /\
  det3 [153; 870; 512] [153; 512; 870] <> 0 /\
  exists m,
    calculate_touch_matrix [120; 680; 400] [72; 240; 408] [153; 870; 512] [153; 512; 870]
      = Some m /\
    within_one_pixel (fixed_apply m 0 870 512) 680 /\
    within_one_pixel (fixed_apply m 3 870 512) 240.
Proof.
  assert (R : forall a b c, 0 <= a <= 2000 -> 0 <= b <= 2000 -> 0 <= c <= 2000 ->
                            in_range [a; b; c]).
  { intros a b c Ha Hb Hc. split; [reflexivity|]. repeat constructor; lia. }
  assert (H1 : in_range [120; 680; 400]) by (apply R; lia).
  assert (H2 : in_range [72; 240; 408]) by (apply R; lia).
  assert (H3 : in_range [153; 870; 512]) by (apply R; lia).
  assert (H4 : in_range [153; 512; 870]) by (apply R; lia).
  assert (H5 : det3 [153; 870; 512] [153; 512; 870] <> 0) by (vm_compute; discriminate).
  repeat (split; [assumption|]).
  destruct (calibration_reproduces_points _ _ _ _ H1 H2 H3 H4 H5) as (m & Hm & Hpix).
  - vm_compute. split; [discriminate | reflexivity].
  - vm_compute. split; [discriminate | reflexivity].
  - unfold exact_numerators.
    repeat (apply Forall_cons; [vm_compute; split; [discriminate | reflexivity]|]).
    apply Forall_nil.
  - exists m. split; [exact Hm|]. exact (Hpix 1%nat ltac:(lia)).
Defined.

(** C5 as stated fails: with touch points (1,2000), (0,1), (0,0) and
    display points (0,0), (2000,0), (0,2000), none collinear and no
    coordinate above 2000, the exact coefficient A is -4000000, which no
    32-bit 16.16 register holds; the stored coefficients send the first
    touch point far from its display point. *)
Lemma calibration_out_of_format :
  in_range [0; 2000; 0] /\ in_range [0; 0; 2000] /\
  in_range [1; 0; 0] /\ in_range [2000; 1; 0] /\
  det3 [1; 0; 0] [2000; 1; 0] <> 0 /\
  det3 [0; 2000; 0] [0; 0; 2000] <> 0 /\
  exists m,
    calculate_touch_matrix [0; 2000; 0] [0; 0; 2000] [1; 0; 0] [2000; 1; 0] = Some m /\
    ~ within_one_pixel (fixed_apply m 0 1 2000) 0.
Proof.
  assert (R : forall a b c, 0 <= a <= 2000 -> 0 <= b <= 2000 -> 0 <= c <= 2000 ->
                            in_range [a; b; c]).
  { intros a b c Ha Hb Hc. split; [reflexivity|]. repeat constructor; lia. }
  repeat (split; [apply R; lia|]).
  split; [vm_compute; discriminate|]. split; [vm_compute; discriminate|].
  eexists. split; [vm_compute; reflexivity|].
  unfold within_one_pixel. vm_compute. discriminate.
Qed.

(** Not covered by the theorem above: here every exact coefficient fits
    the 16.16 format (A = B = -1, C = 4000), but the numerator of C is
    16000000000 and wraps in the [int32_t] [tmp]. *)
Example calibration_numerator_wraps :
  Forall (fun n => fits_s32 (Z.quot (n * 2^16) (det3 [0; 2000; 2000] [2000; 0; 2000])))
    (exact_numerators [2000; 2000; 0] [0; 2000; 0] [0; 2000; 2000] [2000; 0; 2000]) /\
  ~ fits_s32 (offset3 [2000; 2000; 0] [0; 2000; 2000] [2000; 0; 2000]) /\
  exists m,
    calculate_touch_matrix [2000; 2000; 0] [0; 2000; 0] [0; 2000; 2000] [2000; 0; 2000]
      = Some m /\
    ~ within_one_pixel (fixed_apply m 0 0 2000) 2000.
Proof.
  split.
  { unfold exact_numerators.
    repeat (apply Forall_cons; [vm_compute; split; [discriminate | reflexivity]|]).
    apply Forall_nil. }
  split.
  { unfold fits_s32. vm_compute. intros [_ H]. discriminate H. }
  eexists. split; [vm_compute; reflexivity|].
  unfold within_one_pixel. vm_compute. discriminate.
Qed.

Lemma nth_in_or_default (l : list Z) (P : Z -> Prop) i :
  P 0 -> Forall P l -> P l.[i].
Proof.
  intros H0 Hl. destruct (Nat.lt_ge_cases i (length l)) as [Hi|Hi].
  - rewrite Forall_forall in Hl. apply Hl, nth_In. exact Hi.
  - rewrite nth_overflow by exact Hi. exact H0.
Qed.

(** C6.  [calculate_touch_matrix] never tests its determinant [k]: when
    [k] is not zero each of the six coefficients is a numerator shifted
    left by 16 and divided by that same [k]; when [k] is zero the first
    division already divides by zero.  For touch coordinates below 2^15
    [k] is the determinant of the touch points over the integers, so it is
    zero exactly when the three touch points are collinear. *)
Theorem calibration_divides_by_determinant (dX dY tX tY : list Z) :
  let k := k_of tX tY in
  (k <> 0 ->
   calculate_touch_matrix dX dY tX tY =
   Some (map (fun tmp => u32 (Z.quot (Z.shiftl tmp 16) k)) (tmps_of dX dY tX tY))) /\
  (k = 0 -> calculate_touch_matrix dX dY tX tY = None) /\
  (Forall (fun c => 0 <= c < 2^15) tX -> Forall (fun c => 0 <= c < 2^15) tY ->
   k = det3 tX tY).
Proof.
  intros k. split; [|split].
  - apply calculate_touch_matrix_nonzero.
  - apply calculate_touch_matrix_zero.
  - intros HX HY. unfold k, k_of. apply s32_small. unfold det3.
    pose proof (nth_in_or_default tX (fun c => 0 <= c < 2^15) 0%nat ltac:(cbv beta; lia) HX).
    pose proof (nth_in_or_default tX (fun c => 0 <= c < 2^15) 1%nat ltac:(cbv beta; lia) HX).
    pose proof (nth_in_or_default tX (fun c => 0 <= c < 2^15) 2%nat ltac:(cbv beta; lia) HX).
    pose proof (nth_in_or_default tY (fun c => 0 <= c < 2^15) 0%nat ltac:(cbv beta; lia) HY).
    pose proof (nth_in_or_default tY (fun c => 0 <= c < 2^15) 1%nat ltac:(cbv beta; lia) HY).
    pose proof (nth_in_or_default tY (fun c => 0 <= c < 2^15) 2%nat ltac:(cbv beta; lia) HY).
    cbv beta in *. change (2^15) with 32768 in *. change (2^31) with 2147483648.
    assert (-1073741824 < (tX.[0%nat] - tX.[2%nat]) * (tY.[1%nat] - tY.[2%nat]) < 1073741824)
      by nia.
    assert (-1073741824 < (tX.[1%nat] - tX.[2%nat]) * (tY.[0%nat] - tY.[2%nat]) < 1073741824)
      by nia.
    lia.
Qed.

(** Touch points in general position give six quotients by the same
    determinant; touch points on the diagonal give a division by zero. *)
Lemma calibration_divides_by_determinant_witness :
  k_of [0; 100; 100] [0; 0; 100] <> 0 /\
  calculate_touch_matrix [0; 800; 800] [0; 0; 480] [0; 100; 100] [0; 0; 100]
    = Some [524288; 0; 0; 0; 314572; 0] /\
  k_of [0; 1; 2] [0; 1; 2] = 0 /\
  calculate_touch_matrix [0; 800; 800] [0; 0; 480] [0; 1; 2] [0; 1; 2] = None.
Proof.
  assert (Hk : k_of [0; 100; 100] [0; 0; 100] <> 0) by (vm_compute; discriminate).
  split; [exact Hk|]. split.
  - exact (proj1 (calibration_divides_by_determinant
                    [0; 800; 800] [0; 0; 480] [0; 100; 100] [0; 0; 100]) Hk).
  - split; [reflexivity|].
    exact (proj1 (proj2 (calibration_divides_by_determinant
                           [0; 800; 800] [0; 0; 480] [0; 1; 2] [0; 1; 2])) eq_refl).
Defined.

(* ------------------------------------------------------------------ *)
(** ** Fixed calibration *)

Section FixedCalibration.

Context {D : Type} {dev : Chip D} {regs : eve_h}.

(** Six [wr32] transactions to six consecutive 4-byte registers starting
    at the touch-transform base, carrying the six values of [m]. *)
Definition wire_matrix (m : list Z) : list Event :=
  flat_map (fun i => wire_wr32 (REG_TOUCH_TRANSFORM_A + RAM_REG + Z.of_nat i * 4) m.[i])
    (seq 0 6).

Lemma write_TransMatrix_from m (n : nat) :
  forall count (s : World D),
    0 <= count -> count + Z.of_nat (S n) = 6 ->
    write_TransMatrix (S n) m count s =
    Ok tt (extend s
             (flat_map (fun i =>
                          wire_wr32 (REG_TOUCH_TRANSFORM_A + RAM_REG + Z.of_nat i * 4) m.[i])
                (seq (Z.to_nat count) (S n)))).
Proof.
  induction n as [|n IH]; intros count s Hc Hsum.
  - cbn [write_TransMatrix].
    rewrite (bind_run _ _ _ _ _ (wr32_run _ _ _)).
    destruct (Z.ltb_spec (count + 1) 6); [lia|].
    cbn [seq flat_map]. rewrite app_nil_r, Z2Nat.id by lia. reflexivity.
  - cbn [write_TransMatrix].
    rewrite (bind_run _ _ _ _ _ (wr32_run _ _ _)).
    destruct (Z.ltb_spec (count + 1) 6); [|lia].
    change (write_TransMatrix (S n) m (count + 1)
              (extend s (wire_wr32 (REG_TOUCH_TRANSFORM_A + RAM_REG + count * 4)
                           m.[Z.to_nat count]))
            = Ok tt (extend s
                       (flat_map (fun i =>
                          wire_wr32 (REG_TOUCH_TRANSFORM_A + RAM_REG + Z.of_nat i * 4) m.[i])
                          (seq (Z.to_nat count) (S (S n)))))).
    rewrite IH by lia. rewrite extend_extend.
    replace (Z.to_nat (count + 1)) with (S (Z.to_nat count)) by lia.
    cbn [seq flat_map]. rewrite Z2Nat.id by lia. reflexivity.
Qed.

Lemma write_TransMatrix_run m (s : World D) :
  write_TransMatrix 6 m 0 s = Ok tt (extend s (wire_matrix m)).
Proof. apply (write_TransMatrix_from m 5 0 s); lia. Qed.

Lemma Calibrate_Fixed_run w h tx ty (s : World D) :
  Calibrate_Fixed w h tx ty s =
  match calculate_touch_matrix [0; u32 w; u32 w] [0; 0; u32 h]
          [0; u32 tx; u32 tx] [0; 0; u32 ty] with
  | Some m => Ok tt (extend s (wire_matrix m))
  | None => Trap
  end.
Proof.
  unfold Calibrate_Fixed.
  destruct (calculate_touch_matrix _ _ _ _) as [m|]; [|reflexivity].
  apply write_TransMatrix_run.
Qed.

(** C7.  Two runs of [Calibrate_Fixed] with the same four arguments, from
    any two states of the driver, of the chip and of the bus, either both
    divide by zero or both write the same six coefficients to the
    touch-transform registers. *)
Theorem calibrate_fixed_repeatable w h tx ty (s1 s2 : World D) :
  (exists m, length m = 6%nat /\
     Calibrate_Fixed w h tx ty s1 = Ok tt (extend s1 (wire_matrix m)) /\
     Calibrate_Fixed w h tx ty s2 = Ok tt (extend s2 (wire_matrix m))) \/
  (Calibrate_Fixed w h tx ty s1 = Trap /\ Calibrate_Fixed w h tx ty s2 = Trap).
Proof.
  rewrite !Calibrate_Fixed_run.
  set (tX := [0; u32 tx; u32 tx]). set (tY := [0; 0; u32 ty]).
  destruct (Z.eq_dec (k_of tX tY) 0) as [Hk|Hk].
  - right. rewrite calculate_touch_matrix_zero by exact Hk. split; reflexivity.
  - left. rewrite calculate_touch_matrix_nonzero by exact Hk.
    eexists. split; [|split; reflexivity]. reflexivity.
Qed.

(** C9.  For touch ranges above zero and products that fit an [int32_t],
    [Calibrate_Fixed] writes the diagonal matrix: coefficient 0 is
    (w << 16) / tx, coefficient 4 is (h << 16) / ty, both as 32-bit values,
    and coefficients 1, 2, 3, 5 are zero; the six values go to six
    consecutive 4-byte registers from the touch-transform base on. *)
Theorem calibrate_fixed_diagonal w h tx ty (s : World D) :
  0 <= w -> 0 <= h -> 0 < tx -> 0 < ty ->
  w * ty < 2^31 -> tx * h < 2^31 -> tx * ty < 2^31 ->
  Calibrate_Fixed w h tx ty s =
  Ok tt (extend s (wire_matrix
                     [ u32 (Z.shiftl w 16 / tx); 0; 0; 0; u32 (Z.shiftl h 16 / ty); 0 ])).
Proof.
  intros Hw Hh Htx Hty Hwty Htxh Htxty.
  change (2^31) with 2147483648 in *.
  assert (tx < 2147483648) by nia. assert (ty < 2147483648) by nia.
  assert (w < 2147483648) by nia. assert (h < 2147483648) by nia.
  rewrite Calibrate_Fixed_run.
  rewrite !u32_small by (change (2^32) with 4294967296; lia).
  assert (Hk : k_of [0; tx; tx] [0; 0; ty] = tx * ty).
  { unfold k_of, det3. cbn [nth].
    replace ((0 - tx) * (0 - ty) - (tx - tx) * (0 - ty)) with (tx * ty) by ring.
    apply s32_small. change (2^31) with 2147483648. nia. }
  assert (Htmps : tmps_of [0; w; w] [0; 0; h] [0; tx; tx] [0; 0; ty]
                  = [w * ty; 0; 0; 0; tx * h; 0]).
  { unfold tmps_of, det3, offset3. cbn [nth].
    replace ((0 - w) * (0 - ty) - (w - w) * (0 - ty)) with (w * ty) by ring.
    replace ((0 - tx) * (w - w) - (tx - tx) * (0 - w)) with 0 by ring.
    replace (0 * (tx * w - tx * w) + 0 * (0 * w - tx * 0) + ty * (tx * 0 - 0 * w))
      with 0 by ring.
    replace ((0 - h) * (0 - ty) - (0 - h) * (0 - ty)) with 0 by ring.
    replace ((0 - tx) * (0 - h) - (tx - tx) * (0 - h)) with (tx * h) by ring.
    replace (0 * (tx * 0 - tx * h) + 0 * (0 * h - tx * 0) + ty * (tx * 0 - 0 * 0))
      with 0 by ring.
    rewrite !s32_small by (change (2^31) with 2147483648; nia). reflexivity. }
  rewrite calculate_touch_matrix_nonzero by (rewrite Hk; nia).
  rewrite Hk, Htmps. cbn [map]. unfold coefficient.
  rewrite !Z.shiftl_mul_pow2 by lia.
  assert (Hzero : Z.quot (0 * 2^16) (tx * ty) = 0) by (apply Z.quot_0_l; nia).
  rewrite Hzero.
  assert (HA : Z.quot (w * ty * 2^16) (tx * ty) = w * 2^16 / tx).
  { rewrite Z.quot_div_nonneg by nia.
    replace (w * ty * 2^16) with (w * 2^16 * ty) by ring.
    apply Z.div_mul_cancel_r; lia. }
  assert (HE : Z.quot (tx * h * 2^16) (tx * ty) = h * 2^16 / ty).
  { rewrite Z.quot_div_nonneg by nia.
    replace (tx * h * 2^16) with (tx * (h * 2^16)) by ring.
    apply Z.div_mul_cancel_l; lia. }
  rewrite HA, HE. reflexivity.
Qed.

End FixedCalibration.

(** [Calibrate_Fixed(800, 480, 16384, 16384)], run on the blank chip and on
    the faulted one: the same six values, A = 3200 and E = 1920. *)
Lemma calibrate_fixed_diagonal_witness :
  0 <= 800 /\ 0 <= 480 /\ 0 < 16384 /\ 0 < 16384 /\
  800 * 16384 < 2^31 /\ 16384 * 480 < 2^31 /\ 16384 * 16384 < 2^31 /\
  Calibrate_Fixed 800 480 16384 16384 boot
    = Ok tt (extend boot (wire_matrix [3200; 0; 0; 0; 1920; 0])) /\
  Calibrate_Fixed 800 480 16384 16384 faulted
    = Ok tt (extend faulted (wire_matrix [3200; 0; 0; 0; 1920; 0])).
Proof.
  repeat (split; [lia|]).
  split.
  - apply (calibrate_fixed_diagonal 800 480 16384 16384 boot); lia.
  - apply (calibrate_fixed_diagonal 800 480 16384 16384 faulted); lia.
Defined.

(* ================================================================== *)
(** * The rest of the driver

    The functions of eve.c around the ones above: the remaining register
    accessors, the command wrappers that marshal their arguments into
    FIFO words, the block writer, the fixed-point helper of the manual
    calibration, the bit-banged port of the secondary display
    controller, and the flash commands and the touch firmware upload
    that are built on the FIFO engine. *)

(** Modelled from the spec: further constants of eve.h, which is not part
    of the sources; command codes and register offsets are "fixed
    quantities", taken as parameters. *)
Class eve_h_commands := {
  REG_ID : Z;
  REG_GPIOX : Z;
  REG_GPIOX_DIR : Z;
  CMD_TEXT : Z;
  CMD_BUTTON : Z;
  CMD_GAUGE : Z;
  CMD_ANIMXY : Z
}.

(** Modelled from the spec: the flash command codes, the flash status
    register and its values are constants of eve.h, taken as
    parameters. *)
Class eve_h_flash := {
  CMD_FLASHATTACH : Z;
  CMD_FLASHDETACH : Z;
  CMD_FLASHFAST : Z;
  CMD_FLASHERASE : Z;
  REG_FLASH_STATUS : Z;
  FLASH_STATUS_DETACHED : Z;
  FLASH_STATUS_BASIC : Z;
  FLASH_STATUS_FULL : Z
}.

(** [strlen]: the number of characters before the terminator; a string
    that fills its list is terminated right after it. *)
Fixpoint strlen (str : list Z) : Z :=
  match str with
  | [] => 0
  | c :: rest => if c =? 0 then 0 else 1 + strlen rest
  end.

(** [data[i] = v] on an array held as a list. *)
Definition store (data : list Z) (i : nat) (v : Z) : list Z :=
  if (i <? length data)%nat then firstn i data ++ v :: skipn (S i) data else data.

(** [((uint32_t)hi << 16) | lo] for two [uint16_t] arguments. *)
Definition pack16 (hi lo : Z) : Z :=
  Z.lor (u32 (Z.shiftl (u16 hi) 16)) (u16 lo).

(** The same expression when the low argument is an [int16_t]: it is
    promoted to [int] with its sign and then converted to [uint32_t]. *)
Definition s16 (x : Z) : Z := (x + 2^15) mod 2^16 - 2^15.

Definition pack16_signed (hi lo : Z) : Z :=
  Z.lor (u32 (Z.shiftl (u32 (s16 hi)) 16)) (u32 (s16 lo)).

(** The two loops that pack a string into little-endian words, as
    [Cmd_Text] and [Cmd_Button] both have them; [cast] is the conversion
    each applies to a [char] before shifting: [(uint32_t)(uint8_t)] in
    [Cmd_Text], [(uint32_t)] alone in [Cmd_Button]. *)
Definition pack_full_words (cast : Z -> Z) (str : list Z) (length : Z)
    (data : list Z) : list Z * Z :=
  fold_left
    (fun (acc : list Z * Z) (DataPtr : nat) =>
       let (data, StrPtr) := acc in
       let at_ (k : Z) := cast str.[Z.to_nat (StrPtr + k)] in
       (store data DataPtr
          (Z.lor (Z.lor (Z.lor (u32 (Z.shiftl (at_ 3) 24))
                               (u32 (Z.shiftl (at_ 2) 16)))
                        (u32 (Z.shiftl (at_ 1) 8)))
                 (at_ 0)),
        u16 (StrPtr + 4)))
    (seq 0 (Z.to_nat (Z.quot length 4)))
    (data, 0).

Definition pack_last_word (cast : Z -> Z) (str : list Z) (length : Z)
    (DataPtr : nat) (acc : list Z * Z) : list Z * Z :=
  fold_left
    (fun (acc : list Z * Z) (LoopCount : nat) =>
       let (data, StrPtr) := acc in
       (store data DataPtr
          (Z.lor data.[DataPtr]
                 (u32 (Z.shiftl (cast str.[Z.to_nat StrPtr]) (Z.of_nat LoopCount * 8)))),
        u16 (StrPtr + 1)))
    (seq 0 (Z.to_nat (Z.rem length 4)))
    acc.

(** The words both functions send for the string: [calloc], the two
    loops, and the array read back up to index [length / 4]. *)
Definition text_words (cast : Z -> Z) (str : list Z) (length : Z) : list Z :=
  let slots := Z.to_nat (Z.quot length 4 + 1) in
  let data := repeat 0 slots in
  let acc := pack_full_words cast str length data in
  let DataPtr := Z.to_nat (Z.quot length 4) in
  let (data, _) := pack_last_word cast str length DataPtr acc in
  map (fun LoopCount => data.[LoopCount]) (seq 0 slots).

(** [int32_t CalcCoef(int32_t Q, int32_t K)]; the unsigned division by a
    zero [K] has no result. *)
Definition CalcCoef (Q K : Z) : option Z :=
  let Q := s32 Q in
  let K := s32 K in
  let sn := 0 in
  let (Q, sn) := if Q <? 0 then (s32 (Q * -1), sn + 1) else (Q, sn) in
  let (K, sn) := if K <? 0 then (s32 (K * -1), sn + 1) else (K, sn) in
  if u32 K =? 0 then None else
  let I := u32 (Z.shiftl (u32 Q / u32 K) 16) in
  let R := u32 (Z.rem Q K) in
  let R := u32 (Z.shiftl R 14) in
  let R := R / u32 K in
  let R := u32 (Z.shiftl R 2) in
  let returnValue := s32 (I + R)%c in
  let returnValue := if Z.land sn 0x01 =? 0 then returnValue else s32 (returnValue * -1) in
  Some returnValue.

(** [#define CS 0x02], [SCL 0x04], [SDA 0x08] *)
Definition CS : Z := 0x02.
Definition SCL : Z := 0x04.
Definition SDA : Z := 0x08.

Section MoreDriver.

Context {D : Type} {dev : Chip D} {regs : eve_h} {cmds : eve_h_commands}
        {flash : eve_h_flash}.

Definition rdN (address : Z) (size : Z) : M D (list Z) :=
  let address := u32 address in
  HAL_SPI_Enable ;;
  HAL_SPI_Write (Z.land (address >> 16) 0x3F) ;;
  HAL_SPI_Write (Z.land (address >> 8) 0xff) ;;
  HAL_SPI_Write (Z.land address 0xff) ;;
  buffer <- HAL_SPI_ReadBuffer (Z.to_nat (u32 size)) ;;
  HAL_SPI_Disable ;;
  ret buffer.

Definition HostCommand (HCMD : Z) : M D unit :=
  HAL_SPI_Enable ;;
  HAL_SPI_Write (u8 HCMD) ;;
  HAL_SPI_Write 0x00 ;;
  HAL_SPI_Write 0x00 ;;
  HAL_SPI_Disable.

Definition Cmd_READ_REG_ID : M D Z :=
  HAL_SPI_Enable ;;
  HAL_SPI_Write 0x30 ;;
  HAL_SPI_Write 0x20 ;;
  HAL_SPI_Write REG_ID ;;
  readData <- HAL_SPI_ReadBuffer 1 ;;
  HAL_SPI_Disable ;;
  if readData.[0%nat] =? 0x7C then ret 1 else ret 0.

(** [for (index = 0; index < count; index++) wr8(WriteAddress++, buff[index])] *)
Fixpoint WriteBlockRAM_loop (turns : nat) (host : Z -> Z) (buff count index WriteAddress : Z)
  : M D Z :=
  if index <? count then
    match turns with
    | O => hang
    | S turns' =>
        wr8 WriteAddress (u8 (host (buff + index))) ;;
        WriteBlockRAM_loop turns' host buff count (u32 (index + 1)) (u32 (WriteAddress + 1))
    end
  else ret WriteAddress.

Definition WriteBlockRAM (host : Z -> Z) (Add buff count : Z) : M D Z :=
  let Add := u32 Add in
  let count := u32 count in
  WriteBlockRAM_loop (Z.to_nat count) host buff count 0 Add.

Definition Cmd_Text (x y font options : Z) (str : list Z) : M D unit :=
  let length := u16 (strlen str) in
  if length =? 0 then ret tt else
  let data := text_words (fun c => u32 (u8 c)) str length in
  Send_CMD CMD_TEXT ;;
  Send_CMD (pack16 y x) ;;
  Send_CMD (pack16 options font) ;;
  send_all data.

Definition Cmd_Button (x y w h font options : Z) (str : list Z) : M D unit :=
  let length := u16 (strlen str) in
  if length =? 0 then ret tt else
  let data := text_words (fun c => u32 c) str length in
  Send_CMD CMD_BUTTON ;;
  Send_CMD (pack16 y x) ;;
  Send_CMD (pack16 h w) ;;
  Send_CMD (pack16 options font) ;;
  send_all data.

Definition Cmd_Gauge (x y r options major minor val range : Z) : M D unit :=
  Send_CMD CMD_GAUGE ;;
  Send_CMD (pack16 y x) ;;
  Send_CMD (pack16 options r) ;;
  Send_CMD (pack16 minor major) ;;
  Send_CMD (pack16 range val).

Definition Cmd_AnimXY (ch x y : Z) : M D unit :=
  Send_CMD CMD_ANIMXY ;;
  Send_CMD (s32 ch) ;;
  Send_CMD (pack16_signed y x).

Definition GPIOX_WriteBit (data : Z) (state : bool) : M D unit :=
  let data := u8 data in
  if state then
    v <- rd8 (REG_GPIOX + RAM_REG) ;;
    wr8 (REG_GPIOX + RAM_REG) (Z.lor v data)
  else
    let data := u8 (Z.lnot data) in
    v <- rd8 (REG_GPIOX + RAM_REG) ;;
    wr8 (REG_GPIOX + RAM_REG) (Z.land v data).

Definition MO_SPIBB_CS (enable : Z) : M D unit :=
  let enable := u8 enable in
  wr16 (REG_GPIOX_DIR + RAM_REG) 0x00f7 ;;
  if enable =? 0 then
    v <- rd8 (REG_GPIOX + RAM_REG) ;;
    wr8 (REG_GPIOX + RAM_REG) (Z.land v (Z.lnot CS))
  else if enable =? 1 then
    v <- rd8 (REG_GPIOX + RAM_REG) ;;
    wr8 (REG_GPIOX + RAM_REG) (Z.lor v CS)
  else ret tt.

(** [for (i = 0; i < 8; i++) { ...; m = m >> 1; }] with [uint8_t i] and
    [unsigned char m]. *)
Fixpoint MO_SPIBB_Send_loop (turns : nat) (data m i : Z) : M D unit :=
  if i <? 8 then
    match turns with
    | O => hang
    | S turns' =>
        GPIOX_WriteBit SCL false ;;
        (if negb (Z.land data m =? 0)
         then GPIOX_WriteBit SDA true
         else GPIOX_WriteBit SDA false) ;;
        GPIOX_WriteBit SCL true ;;
        MO_SPIBB_Send_loop turns' data (u8 (m >> 1)) (u8 (i + 1))
    end
  else ret tt.

(** [type] is a [bool] compared with [COMMAND] (0) and [DATA] (1). *)
Definition MO_SPIBB_Send (type : bool) (data : Z) : M D unit :=
  let data := u8 data in
  wr16 (REG_GPIOX_DIR + RAM_REG) 0x80ff ;;
  wr16 (REG_GPIOX + RAM_REG) 0x80f0 ;;
  (if negb type then
     GPIOX_WriteBit SCL false ;;
     GPIOX_WriteBit SDA false ;;
     GPIOX_WriteBit SCL true
   else
     GPIOX_WriteBit SCL false ;;
     GPIOX_WriteBit SDA true ;;
     GPIOX_WriteBit SCL true) ;;
  MO_SPIBB_Send_loop 8 data 0x80 0 ;;
  GPIOX_WriteBit SCL false.

Definition Cmd_Flash_Fast : M D unit :=
  Send_CMD CMD_FLASHFAST ;;
  Send_CMD 0.

Definition FlashAttach (polls : nat) : M D bool :=
  Send_CMD CMD_FLASHATTACH ;;
  UpdateFIFO ;;
  Wait4CoProFIFOEmpty polls ;;
  FlashStatus <- rd8 (REG_FLASH_STATUS + RAM_REG) ;;
  if negb (FlashStatus =? FLASH_STATUS_BASIC) then ret false else ret true.

Definition FlashDetach (polls : nat) : M D bool :=
  Send_CMD CMD_FLASHDETACH ;;
  UpdateFIFO ;;
  Wait4CoProFIFOEmpty polls ;;
  FlashStatus <- rd8 (REG_FLASH_STATUS + RAM_REG) ;;
  if negb (FlashStatus =? FLASH_STATUS_DETACHED) then ret false else ret true.

Definition FlashFast (polls : nat) : M D bool :=
  Cmd_Flash_Fast ;;
  UpdateFIFO ;;
  Wait4CoProFIFOEmpty polls ;;
  FlashStatus <- rd8 (REG_FLASH_STATUS + RAM_REG) ;;
  if negb (FlashStatus =? FLASH_STATUS_FULL) then ret false else ret true.

Definition FlashErase (polls : nat) : M D bool :=
  Send_CMD CMD_FLASHERASE ;;
  UpdateFIFO ;;
  Wait4CoProFIFOEmpty polls ;;
  ret true.

(** [length] is a [size_t], narrowed to the [uint32_t] parameter of
    [CoProWrCmdBuf]. *)
Definition UploadTouchFirmware (polls : nat) (host : Z -> Z) (firmware length : Z)
  : M D unit :=
  CoProWrCmdBuf polls host firmware length ;;
  UpdateFIFO ;;
  Wait4CoProFIFOEmpty polls ;;
  wr8 (REG_CPU_RESET + RAM_REG) 2 ;;
  v <- rd8 (RAM_REG + REG_GPIOX_DIR) ;;
  wr8 (REG_GPIOX_DIR + RAM_REG) (Z.lor v 0x08) ;;
  v <- rd8 (RAM_REG + REG_GPIOX) ;;
  wr8 (REG_GPIOX + RAM_REG) (Z.lor v 0xF7) ;;
  HAL_Delay 1 ;;
  wr8 (REG_CPU_RESET + RAM_REG) 0 ;;
  HAL_Delay 100 ;;
  v <- rd8 (RAM_REG + REG_GPIOX_DIR) ;;
  wr8 (REG_GPIOX_DIR + RAM_REG) (Z.land v 0xF7).

End MoreDriver.

(* ------------------------------------------------------------------ *)
(** ** Enqueued words stay inside the FIFO window *)

Section Enqueue.

Context {D : Type} {dev : Chip D} {regs : eve_h}.

(** The FIFO offsets [n] consecutive words occupy from offset [loc] on. *)
Definition fifo_offsets (loc : Z) (n : nat) : list Z :=
  map (fun i => (loc + 4 * Z.of_nat i) mod FT_CMD_FIFO_SIZE) (seq 0 n).

Definition wire_enqueue (loc : Z) (words : list Z) : list Event :=
  flat_map (fun p => wire_wr32 (fst p + RAM_CMD) (snd p))
    (combine (fifo_offsets loc (length words)) words).

Lemma fifo_offsets_S loc n :
  cursor_ok loc ->
  fifo_offsets loc (S n) = loc :: fifo_offsets ((loc + 4) mod 4096) n.
Proof.
  intros [_ Hin]. unfold fifo_offsets, FT_CMD_FIFO_SIZE in *. cbn [seq map].
  f_equal.
  - rewrite Z.add_0_r. apply Z.mod_small. lia.
  - rewrite <- seq_shift, map_map. apply map_ext. intros i.
    rewrite Zplus_mod_idemp_l. f_equal. lia.
Qed.

Lemma fifo_offsets_in_window loc n :
  cursor_ok loc ->
  Forall (fun off => 0 <= off <= FT_CMD_FIFO_SIZE - 4 /\ off mod 4 = 0)
    (fifo_offsets loc n).
Proof.
  revert loc. induction n as [|n IH]; intros loc Hloc; [constructor|].
  rewrite (fifo_offsets_S _ _ Hloc). constructor.
  - destruct Hloc as [Hal Hin]. unfold FT_CMD_FIFO_SIZE in *. split; [|exact Hal].
    assert (Hdiv : loc = 4 * (loc / 4) + loc mod 4) by (apply Z.div_mod; lia).
    lia.
  - apply IH. apply cursor_advance. exact Hloc.
Qed.

Lemma send_all_enqueue (words : list Z) (s : World D) :
  cursor_ok (FifoWriteLocation s) ->
  send_all words s =
    Ok tt (with_cursor (extend s (wire_enqueue (FifoWriteLocation s) words))
             ((FifoWriteLocation s + 4 * Z.of_nat (length words)) mod FT_CMD_FIFO_SIZE)).
Proof.
  revert s. induction words as [|w words IH]; intros s Hs.
  - cbn [send_all length]. unfold ret, wire_enqueue.
    cbn [fifo_offsets seq map combine flat_map]. rewrite extend_nil.
    destruct Hs as [_ Hin]. unfold FT_CMD_FIFO_SIZE in *.
    rewrite Z.add_0_r, Z.mod_small by lia. destruct s. reflexivity.
  - cbn [send_all length]. rewrite (bind_run _ _ _ _ _ (Send_CMD_run _ _)).
    destruct (cursor_advance _ Hs) as [Heq Hok]. rewrite Heq.
    set (s1 := with_cursor _ _).
    rewrite (IH s1 Hok).
    assert (Hs1 : FifoWriteLocation s1 = (FifoWriteLocation s + 4) mod 4096) by reflexivity.
    rewrite Hs1. unfold wire_enqueue. cbn [length].
    rewrite (fifo_offsets_S _ _ Hs).
    cbn [combine flat_map fst snd].
    unfold s1. unfold with_cursor, extend. cbn [FifoWriteLocation chip wire].
    rewrite chip_play_app, <- app_assoc. unfold FT_CMD_FIFO_SIZE.
    rewrite Zplus_mod_idemp_l.
    replace (FifoWriteLocation s + 4 + 4 * Z.of_nat (length words))
      with (FifoWriteLocation s + 4 * Z.of_nat (S (length words))) by lia.
    reflexivity.
Qed.

(** X1.  From a write cursor that is a multiple of 4 inside the window,
    any sequence of [Send_CMD] calls puts one [wr32] transaction per word
    at consecutive FIFO offsets, wrapping at the end of the window, so
    every word lands 4-aligned inside [RAM_CMD, RAM_CMD + 4096); the
    write cursor ends 4 bytes per word further, modulo the window. *)
Theorem send_all_stays_in_window (words : list Z) (s : World D) :
  cursor_ok (FifoWriteLocation s) ->
  send_all words s =
    Ok tt (with_cursor (extend s (wire_enqueue (FifoWriteLocation s) words))
             ((FifoWriteLocation s + 4 * Z.of_nat (length words)) mod FT_CMD_FIFO_SIZE)) /\
  Forall (fun off => 0 <= off <= FT_CMD_FIFO_SIZE - 4 /\ off mod 4 = 0)
    (fifo_offsets (FifoWriteLocation s) (length words)).
Proof.
  intros Hs. split.
  - apply send_all_enqueue. exact Hs.
  - apply fifo_offsets_in_window. exact Hs.
Qed.

End Enqueue.

(** Two words enqueued at the last slot of the window: the second one
    wraps to offset 0. *)
Lemma send_all_stays_in_window_witness :
  cursor_ok (FifoWriteLocation (with_cursor boot 4092)) /\
  send_all [1; 2] (with_cursor boot 4092)
    = Ok tt (with_cursor
               (extend (with_cursor boot 4092)
                  (wire_wr32 (4092 + RAM_CMD) 1 ++ wire_wr32 (0 + RAM_CMD) 2))
               4).
Proof.
  assert (H : cursor_ok (FifoWriteLocation (with_cursor boot 4092))).
  { split; [reflexivity|]. unfold FT_CMD_FIFO_SIZE. simpl. lia. }
  split; [exact H|].
  exact (proj1 (send_all_stays_in_window [1; 2] (with_cursor boot 4092) H)).
Defined.

(* ------------------------------------------------------------------ *)
(** ** Calibration: the identity and the division by zero *)

Lemma det3_same p : det3 p p = 0.
Proof. unfold det3. ring. Qed.

Lemma offset3_first tX tY : offset3 tX tX tY = 0.
Proof. unfold offset3. ring. Qed.

Lemma offset3_second tX tY : offset3 tY tX tY = 0.
Proof. unfold offset3. ring. Qed.

Lemma coefficient_same k : k <> 0 -> coefficient k k = 65536.
Proof.
  intros Hk. unfold coefficient. rewrite Z.shiftl_mul_pow2 by lia.
  rewrite (Z.mul_comm k), Z.quot_mul by exact Hk. reflexivity.
Qed.

Lemma coefficient_zero k : k <> 0 -> coefficient 0 k = 0.
Proof.
  intros Hk. unfold coefficient. rewrite Z.shiftl_0_l, Z.quot_0_l by exact Hk.
  reflexivity.
Qed.

(** X2.  Calibrating with touch points that are the display points gives
    the identity transform, 1.0 on the diagonal in 16.16 and zero
    elsewhere, for every triple of points whose 32-bit determinant is not
    zero: the wrap-around of the 32-bit products cancels out. *)
Theorem calibration_identity (tX tY : list Z) :
  k_of tX tY <> 0 ->
  calculate_touch_matrix tX tY tX tY = Some [65536; 0; 0; 0; 65536; 0].
Proof.
  intros Hk. rewrite calculate_touch_matrix_nonzero by exact Hk.
  unfold tmps_of. rewrite !det3_same, offset3_first, offset3_second.
  cbn [map]. change (s32 0) with 0. fold (k_of tX tY).
  rewrite !(coefficient_same _ Hk), !(coefficient_zero _ Hk). reflexivity.
Qed.

(** Three points in general position, used as display and as touch
    points. *)
Lemma calibration_identity_witness :
  k_of [100; 700; 400] [50; 90; 430] <> 0 /\
  calculate_touch_matrix [100; 700; 400] [50; 90; 430] [100; 700; 400] [50; 90; 430]
    = Some [65536; 0; 0; 0; 65536; 0].
Proof.
  assert (H : k_of [100; 700; 400] [50; 90; 430] <> 0) by (vm_compute; discriminate).
  split; [exact H|]. exact (calibration_identity _ _ H).
Defined.

Lemma s32_zero_iff x : s32 x = 0 <-> u32 x = 0.
Proof.
  split; intros H.
  - rewrite <- (s32_u32 x) in H. pose proof (u32_range x) as Hr.
    unfold s32 in H. change (2^32) with 4294967296 in *. change (2^31) with 2147483648 in *.
    destruct (Z.lt_ge_cases (u32 x) 2147483648) as [Hlt|Hge].
    + rewrite Z.mod_small in H by lia. lia.
    + replace (u32 x + 2147483648) with (u32 x - 2147483648 + 1 * 4294967296) in H by lia.
      rewrite Z_mod_plus_full, Z.mod_small in H by lia. lia.
  - rewrite <- (s32_u32 x), H. reflexivity.
Qed.

Section FixedCalibrationTrap.

Context {D : Type} {dev : Chip D} {regs : eve_h}.

(** X3.  [Calibrate_Fixed] divides by zero exactly when the product of the
    two touch maxima is zero as a 32-bit value, whatever the display size
    and the state of the chip; in every other case it returns. *)
Theorem calibrate_fixed_traps_iff w h tx ty (s : World D) :
  (Calibrate_Fixed w h tx ty s = Trap <-> u32 (u32 tx * u32 ty) = 0) /\
  Calibrate_Fixed w h tx ty s <> Hang.
Proof.
  rewrite Calibrate_Fixed_run.
  set (tX := [0; u32 tx; u32 tx]). set (tY := [0; 0; u32 ty]).
  assert (Hk : k_of tX tY = 0 <-> u32 (u32 tx * u32 ty) = 0).
  { unfold k_of, det3, tX, tY. cbn [nth].
    replace ((0 - u32 tx) * (0 - u32 ty) - (u32 tx - u32 tx) * (0 - u32 ty))
      with (u32 tx * u32 ty) by ring.
    apply s32_zero_iff. }
  destruct (Z.eq_dec (k_of tX tY) 0) as [Hz|Hnz].
  - rewrite calculate_touch_matrix_zero by exact Hz. split; [|discriminate].
    split; [intros _; apply Hk, Hz | reflexivity].
  - rewrite calculate_touch_matrix_nonzero by exact Hnz. split; [|discriminate].
    split; [discriminate | intros H; exfalso; apply Hnz, Hk, H].
Qed.

End FixedCalibrationTrap.

(** A touch range of 65536 by 65536 counts: the product is 2^32. *)
Example calibrate_fixed_traps_on_wrap :
  Calibrate_Fixed 800 480 65536 65536 boot = Trap.
Proof. reflexivity. Qed.
(* ------------------------------------------------------------------ *)
(** ** The fixed-point quotient of the manual calibration *)

Lemma s32_neg x : 0 < x < 2^31 -> s32 (- x) = - x.
Proof. intros H. apply s32_small. lia. Qed.

(** [CalcCoef] on two operands that are already positive. *)
Lemma CalcCoef_positive Q K :
  0 <= Q < 2^31 -> 0 < K < 2^31 ->
  CalcCoef Q K =
  Some (s32 (u32 (Z.shiftl (Q / K) 16)
             + u32 (Z.shiftl (u32 (Z.shiftl (Q mod K) 14) / K) 2))%c).
Proof.
  intros HQ HK. unfold CalcCoef.
  rewrite (s32_small Q), (s32_small K) by lia.
  destruct (Z.ltb_spec Q 0); [lia|]. destruct (Z.ltb_spec K 0); [lia|].
  change (2^31) with 2147483648 in *.
  rewrite (u32_small K), (u32_small Q) by (change (2^32) with 4294967296; lia).
  destruct (Z.eqb_spec K 0); [lia|].
  rewrite Z.rem_mod_nonneg by lia.
  pose proof (Z.mod_pos_bound Q K ltac:(lia)).
  rewrite (u32_small (Q mod K)) by (change (2^32) with 4294967296; lia).
  reflexivity.
Qed.

(** X4.  For a non-negative [Q] and a positive [K] whose quotient fits
    the 16.16 format (integer part below 2^15) and whose remainder is
    below 2^18 (as it is whenever K <= 2^18), [CalcCoef] returns the 16.16
    quotient Q * 65536 / K with its two lowest bits cleared: a multiple
    of 4 at most 3 units of 1/65536 below the exact quotient. *)
Theorem CalcCoef_precision Q K :
  0 <= Q < 2^31 -> 0 < K < 2^31 -> Q / K < 2^15 -> Q mod K < 2^18 ->
  exists r,
    CalcCoef Q K = Some r /\
    r mod 4 = 0 /\
    r <= Q * 65536 / K < r + 4.
Proof.
  intros HQ HK Hint Hrem.
  rewrite CalcCoef_positive by assumption.
  change (2^31) with 2147483648 in *. change (2^15) with 32768 in *.
  change (2^18) with 262144 in *.
  pose proof (Z.mod_pos_bound Q K ltac:(lia)) as Hm.
  pose proof (Z.div_mod Q K ltac:(lia)) as HQK.
  assert (Hq0 : 0 <= Q / K) by (apply Z.div_pos; lia).
  set (q := Q / K) in *. set (m := Q mod K) in *.
  rewrite !Z.shiftl_mul_pow2 by lia.
  change (2^16) with 65536. change (2^14) with 16384. change (2^2) with 4.
  rewrite (u32_small (q * 65536)) by (change (2^32) with 4294967296; lia).
  rewrite (u32_small (m * 16384)) by (change (2^32) with 4294967296; lia).
  set (t := m * 16384).
  pose proof (Z.div_mod t K ltac:(lia)) as Ht.
  pose proof (Z.mod_pos_bound t K ltac:(lia)) as Htm.
  assert (Hf0 : 0 <= t / K) by (apply Z.div_pos; lia).
  assert (Hf1 : t / K < 16384).
  { apply Z.div_lt_upper_bound; [lia|]. unfold t. nia. }
  set (f := t / K) in *.
  rewrite (u32_small (f * 4)) by (change (2^32) with 4294967296; lia).
  unfold add32. rewrite (u32_small (q * 65536 + f * 4)) by (change (2^32) with 4294967296; lia).
  rewrite s32_small by (change (2^31) with 2147483648; lia).
  exists (q * 65536 + f * 4). split; [reflexivity|]. split.
  - replace (q * 65536 + f * 4) with ((q * 16384 + f) * 4) by ring.
    apply Z.mod_mul. lia.
  - assert (Hexact : Q * 65536 = K * (q * 65536 + f * 4) + 4 * (t mod K)).
    { unfold t in *. rewrite HQK at 1. lia. }
    rewrite Hexact. split.
    + apply Z.div_le_lower_bound; lia.
    + apply Z.div_lt_upper_bound; [lia|]. nia.
Qed.

(** 7 / 3: the exact quotient is 152917, the result 152916. *)
Lemma CalcCoef_precision_witness :
  0 <= 7 < 2^31 /\ 0 < 3 < 2^31 /\ 7 / 3 < 2^15 /\ 7 mod 3 < 2^18 /\
  exists r, CalcCoef 7 3 = Some r /\ r mod 4 = 0 /\ r <= 7 * 65536 / 3 < r + 4.
Proof.
  assert (H1 : 0 <= 7 < 2^31) by lia.
  assert (H2 : 0 < 3 < 2^31) by lia.
  assert (H3 : 7 / 3 < 2^15) by (vm_compute; reflexivity).
  assert (H4 : 7 mod 3 < 2^18) by (vm_compute; reflexivity).
  split; [exact H1|]. split; [exact H2|]. split; [exact H3|]. split; [exact H4|].
  exact (CalcCoef_precision 7 3 H1 H2 H3 H4).
Defined.

(** The same quotient where the remainder is 2^18 or more: the shift by
    14 leaves the 32 bits and the fraction is wrong.  1.5 comes out as
    1.0 for Q = 3 * 2^19 and K = 2^20. *)
Example CalcCoef_large_divisor :
  CalcCoef (3 * 2^19) (2^20) = Some 65536 /\ (3 * 2^19) * 65536 / 2^20 = 98304.
Proof. split; vm_compute; reflexivity. Qed.

Lemma CalcCoef_negate_Q Q K :
  0 < Q < 2^31 -> 0 < K < 2^31 ->
  CalcCoef (- Q) K = option_map (fun r => s32 (- r)) (CalcCoef Q K).
Proof.
  intros HQ HK. rewrite (CalcCoef_positive Q K) by lia. unfold CalcCoef.
  rewrite (s32_neg Q HQ), (s32_small K) by lia.
  destruct (Z.ltb_spec (- Q) 0); [|lia]. destruct (Z.ltb_spec K 0); [lia|].
  replace (- Q * -1) with Q by ring. rewrite (s32_small Q) by lia.
  change (2^31) with 2147483648 in *.
  rewrite (u32_small K), (u32_small Q) by (change (2^32) with 4294967296; lia).
  destruct (Z.eqb_spec K 0); [lia|].
  rewrite Z.rem_mod_nonneg by lia.
  pose proof (Z.mod_pos_bound Q K ltac:(lia)).
  rewrite (u32_small (Q mod K)) by (change (2^32) with 4294967296; lia).
  cbn [option_map]. change (Z.land (0 + 1) 1 =? 0) with false. cbv iota.
  f_equal. f_equal. ring.
Qed.

Lemma CalcCoef_negate_K Q K :
  0 <= Q < 2^31 -> 0 < K < 2^31 ->
  CalcCoef Q (- K) = option_map (fun r => s32 (- r)) (CalcCoef Q K).
Proof.
  intros HQ HK. rewrite (CalcCoef_positive Q K) by lia. unfold CalcCoef.
  rewrite (s32_neg K HK), (s32_small Q) by lia.
  destruct (Z.ltb_spec Q 0); [lia|]. destruct (Z.ltb_spec (- K) 0); [|lia].
  replace (- K * -1) with K by ring. rewrite (s32_small K) by lia.
  change (2^31) with 2147483648 in *.
  rewrite (u32_small K), (u32_small Q) by (change (2^32) with 4294967296; lia).
  destruct (Z.eqb_spec K 0); [lia|].
  rewrite Z.rem_mod_nonneg by lia.
  pose proof (Z.mod_pos_bound Q K ltac:(lia)).
  rewrite (u32_small (Q mod K)) by (change (2^32) with 4294967296; lia).
  cbn [option_map]. change (Z.land (0 + 1) 1 =? 0) with false. cbv iota.
  f_equal. f_equal. ring.
Qed.

Lemma CalcCoef_negate_both Q K :
  0 < Q < 2^31 -> 0 < K < 2^31 ->
  CalcCoef (- Q) (- K) = CalcCoef Q K.
Proof.
  intros HQ HK. rewrite (CalcCoef_positive Q K) by lia. unfold CalcCoef.
  rewrite (s32_neg K HK), (s32_neg Q HQ).
  destruct (Z.ltb_spec (- Q) 0); [|lia]. destruct (Z.ltb_spec (- K) 0); [|lia].
  replace (- K * -1) with K by ring. replace (- Q * -1) with Q by ring.
  rewrite (s32_small K), (s32_small Q) by lia.
  change (2^31) with 2147483648 in *.
  rewrite (u32_small K), (u32_small Q) by (change (2^32) with 4294967296; lia).
  destruct (Z.eqb_spec K 0); [lia|].
  rewrite Z.rem_mod_nonneg by lia.
  pose proof (Z.mod_pos_bound Q K ltac:(lia)).
  rewrite (u32_small (Q mod K)) by (change (2^32) with 4294967296; lia).
  reflexivity.
Qed.

(** The value [CalcCoef] returns for positive operands whose quotient
    fits the 16.16 format is a non-negative [int32_t]. *)
Lemma CalcCoef_positive_value Q K :
  0 <= Q < 2^31 -> 0 < K < 2^31 -> Q / K < 2^15 ->
  exists r, CalcCoef Q K = Some r /\ 0 <= r < 2^31.
Proof.
  intros HQ HK Hint. rewrite CalcCoef_positive by assumption.
  eexists. split; [reflexivity|].
  change (2^31) with 2147483648 in *. change (2^15) with 32768 in *.
  assert (Hq0 : 0 <= Q / K) by (apply Z.div_pos; lia).
  pose proof (Z.mod_pos_bound Q K ltac:(lia)) as Hm.
  rewrite !Z.shiftl_mul_pow2 by lia.
  change (2^16) with 65536. change (2^14) with 16384. change (2^2) with 4.
  rewrite (u32_small (Q / K * 65536)) by (change (2^32) with 4294967296; lia).
  pose proof (u32_range (Q mod K * 16384)) as Hu. change (2^32) with 4294967296 in Hu.
  assert (Hlt : u32 (Q mod K * 16384) < K * 16384).
  { destruct (Z.le_gt_cases K 262144).
    - rewrite u32_small by (change (2^32) with 4294967296; lia). lia.
    - lia. }
  assert (Hf0 : 0 <= u32 (Q mod K * 16384) / K) by (apply Z.div_pos; lia).
  assert (Hf1 : u32 (Q mod K * 16384) / K < 16384)
    by (apply Z.div_lt_upper_bound; lia).
  rewrite (u32_small (_ / K * 4)) by (change (2^32) with 4294967296; lia).
  unfold add32. rewrite u32_small by (change (2^32) with 4294967296; lia).
  rewrite s32_small by (change (2^31) with 2147483648; lia). lia.
Qed.

(** X5.  [CalcCoef] works on magnitudes and puts the sign back.  For
    operands whose quotient fits the 16.16 format, so that no signed
    operation overflows, the result for two positive operands is not
    negative, negating either operand negates it, and negating both
    leaves it as it is. *)
Theorem CalcCoef_sign Q K :
  0 < Q < 2^31 -> 0 < K < 2^31 -> Q / K < 2^15 ->
  exists r,
    0 <= r < 2^31 /\
    CalcCoef Q K = Some r /\
    CalcCoef (- Q) K = Some (- r) /\
    CalcCoef Q (- K) = Some (- r) /\
    CalcCoef (- Q) (- K) = Some r.
Proof.
  intros HQ HK Hint.
  destruct (CalcCoef_positive_value Q K ltac:(lia) HK Hint) as (r & Hr & Hrange).
  exists r. split; [exact Hrange|]. split; [exact Hr|].
  rewrite CalcCoef_negate_Q, CalcCoef_negate_K, CalcCoef_negate_both by lia.
  rewrite Hr. cbn [option_map]. rewrite s32_small by lia. auto.
Qed.

(** 7 / 3 with each combination of signs. *)
Lemma CalcCoef_sign_witness :
  0 < 7 < 2^31 /\ 0 < 3 < 2^31 /\ 7 / 3 < 2^15 /\
  exists r, 0 <= r < 2^31 /\ CalcCoef 7 3 = Some r /\
    CalcCoef (- 7) 3 = Some (- r) /\ CalcCoef 7 (- 3) = Some (- r) /\
    CalcCoef (- 7) (- 3) = Some r.
Proof.
  assert (H1 : 0 < 7 < 2^31) by lia.
  assert (H2 : 0 < 3 < 2^31) by lia.
  assert (H3 : 7 / 3 < 2^15) by (vm_compute; reflexivity).
  split; [exact H1|]. split; [exact H2|]. split; [exact H3|].
  exact (CalcCoef_sign 7 3 H1 H2 H3).
Defined.

Lemma u32_s32 x : u32 (s32 x) = u32 x.
Proof.
  unfold u32, s32. rewrite Zminus_mod_idemp_l. f_equal. lia.
Qed.

Lemma u32_neg_zero x : u32 (- x) = 0 <-> u32 x = 0.
Proof.
  unfold u32. split; intros H.
  - apply Z.mod_opp_l_z in H; [|lia]. rewrite Z.opp_involutive in H. exact H.
  - apply Z.mod_opp_l_z; [lia | exact H].
Qed.

(** X6.  For operands whose negation does not overflow, [CalcCoef]
    divides by zero exactly when [K] is zero, whatever [Q] is. *)
Theorem CalcCoef_zero_divisor Q K :
  - 2^31 < Q < 2^31 -> - 2^31 < K < 2^31 ->
  (CalcCoef Q K = None <-> K = 0).
Proof.
  intros HQ HK.
  assert (Hneg : u32 (s32 (s32 K * -1)) = 0 <-> u32 K = 0).
  { rewrite u32_s32. replace (s32 K * -1) with (- s32 K) by ring.
    rewrite u32_neg_zero, u32_s32. reflexivity. }
  assert (Hpos : u32 (s32 K) = 0 <-> u32 K = 0) by (rewrite u32_s32; reflexivity).
  assert (HK0 : u32 K = 0 <-> K = 0).
  { rewrite <- s32_zero_iff. rewrite s32_small by lia. reflexivity. }
  unfold CalcCoef.
  destruct (s32 Q <? 0); destruct (s32 K <? 0).
  all: match goal with
       | |- context [u32 ?k =? 0] => destruct (Z.eqb_spec (u32 k) 0) as [Hz|Hnz]
       end.
  all: split; intros H; try reflexivity; try discriminate; tauto.
Qed.

(** -5 / 0. *)
Lemma CalcCoef_zero_divisor_witness :
  - 2^31 < -5 < 2^31 /\ - 2^31 < 0 < 2^31 /\ CalcCoef (-5) 0 = None.
Proof.
  assert (H1 : - 2^31 < -5 < 2^31) by lia.
  assert (H2 : - 2^31 < 0 < 2^31) by lia.
  split; [exact H1|]. split; [exact H2|].
  exact (proj2 (CalcCoef_zero_divisor (-5) 0 H1 H2) eq_refl).
Defined.
(* ------------------------------------------------------------------ *)
(** ** Command words: packing two 16-bit fields, packing a string *)

Lemma land_shifted_low hi lo n :
  0 <= n -> 0 <= lo < 2^n -> Z.land (hi * 2^n) lo = 0.
Proof.
  intros Hn Hlo. apply Z.bits_inj'. intros i Hi.
  rewrite Z.land_spec, Z.bits_0.
  destruct (Z.lt_ge_cases i n) as [Hlt|Hge].
  - rewrite Z.mul_pow2_bits_low by lia. reflexivity.
  - rewrite <- (Z.mod_small lo (2^n)) by lia.
    rewrite Z.mod_pow2_bits_high by lia. apply andb_false_r.
Qed.

Lemma lor_shifted_low hi lo n :
  0 <= n -> 0 <= lo < 2^n -> Z.lor (hi * 2^n) lo = hi * 2^n + lo.
Proof.
  intros Hn Hlo. rewrite <- Z.add_lor_land, land_shifted_low by assumption. lia.
Qed.

(** [((uint32_t)hi << 16) | lo] keeps the two fields apart. *)
Lemma pack16_sum hi lo : pack16 hi lo = u16 hi * 65536 + u16 lo.
Proof.
  unfold pack16. pose proof (u16_range hi). pose proof (u16_range lo).
  rewrite Z.shiftl_mul_pow2 by lia.
  rewrite u32_small by (change (2^16) with 65536; change (2^32) with 4294967296; lia).
  rewrite lor_shifted_low by (change (2^16) with 65536; lia). reflexivity.
Qed.

Lemma s16_range x : - 2^15 <= s16 x < 2^15.
Proof. unfold s16. pose proof (Z.mod_pos_bound (x + 2^15) (2^16)). lia. Qed.

Lemma s16_small x : - 2^15 <= x < 2^15 -> s16 x = x.
Proof. intros. unfold s16. rewrite Z.mod_small; lia. Qed.

Lemma u16_s16 x : u16 (s16 x) = u16 x.
Proof. unfold u16, s16. rewrite Zminus_mod_idemp_l. f_equal. lia. Qed.

(** The high half of the word: the 16 bits of [hi], whatever its sign. *)
Lemma high_half hi : u32 (Z.shiftl (u32 (s16 hi)) 16) = u16 hi * 65536.
Proof.
  rewrite Z.shiftl_mul_pow2 by lia. unfold u32.
  change (2^32) with (2^16 * 2^16).
  rewrite Zmult_mod_distr_r. f_equal.
  change (2^16 * 2^16) with (2^16 * 65536).
  rewrite <- (u16_s16 hi). unfold u16.
  rewrite Z.rem_mul_r by lia.
  rewrite Z.mul_comm, Z_mod_plus_full. apply Z.mod_mod. lia.
Qed.

Lemma lor_ones16 h : 0 <= h < 65536 -> Z.lor h 65535 = 65535.
Proof.
  intros Hh. change 65535 with (Z.ones 16).
  destruct (Z.eq_dec h 0) as [->|Hne]; [reflexivity|].
  apply Z.lor_ones_low; [lia|]. apply Z.log2_lt_pow2; lia.
Qed.

(** [((uint32_t)hi << 16) | lo] with a signed [lo]: a negative [lo] is
    widened with its sign and fills the high half with ones. *)
Lemma pack16_signed_value hi lo :
  - 2^15 <= lo < 2^15 ->
  pack16_signed hi lo = if lo <? 0 then 2^32 + lo else u16 hi * 65536 + lo.
Proof.
  intros Hlo. unfold pack16_signed. rewrite high_half, (s16_small lo Hlo).
  pose proof (u16_range hi) as Hhi.
  change (2^15) with 32768 in *.
  destruct (Z.ltb_spec lo 0) as [Hneg|Hpos].
  - unfold u32.
    replace (lo mod 2^32) with (65535 * 2^16 + (65536 + lo)).
    2:{ apply Z.mod_unique with (q := -1);
          change (2^16) with 65536; change (2^32) with 4294967296; lia. }
    rewrite <- (lor_shifted_low 65535 (65536 + lo) 16)
      by (change (2^16) with 65536; lia).
    rewrite Z.lor_assoc. change 65536 with (2^16) at 1.
    rewrite <- !Z.shiftl_mul_pow2, <- Z.shiftl_lor by lia.
    rewrite lor_ones16 by exact Hhi.
    rewrite Z.shiftl_mul_pow2, lor_shifted_low by (change (2^16) with 65536; lia).
    change (2^16) with 65536. change (2^32) with 4294967296. lia.
  - rewrite u32_small by (change (2^32) with 4294967296; lia).
    change 65536 with (2^16). apply lor_shifted_low; [lia|].
    change (2^16) with 65536. lia.
Qed.

Section Wrappers.

Context {D : Type} {dev : Chip D} {regs : eve_h} {cmds : eve_h_commands}.

Lemma send_all_last (c : M D unit) (s : World D) : (c ;; ret tt) s = c s.
Proof. unfold bind, ret. destruct (c s) as [[] s'| |]; reflexivity. Qed.

Lemma send_all_app (ws1 ws2 : list Z) (s : World D) :
  send_all (ws1 ++ ws2) s = (send_all ws1 ;; send_all ws2) s.
Proof.
  revert s. induction ws1 as [|w ws1 IH]; intros s; [reflexivity|].
  cbn [app send_all]. unfold bind in *.
  destruct (Send_CMD w s) as [[] s1| |]; try reflexivity.
  apply IH.
Qed.

(** X7.  [Cmd_Gauge] enqueues five words, the command code and four
    words that each hold two of the 16-bit arguments, the one named
    first in the low half and the other in the high half, neither
    disturbing the other. *)
Theorem Cmd_Gauge_words x y r options major minor val range (s : World D) :
  Cmd_Gauge x y r options major minor val range s =
  send_all [ CMD_GAUGE;
             u16 y * 65536 + u16 x;
             u16 options * 65536 + u16 r;
             u16 minor * 65536 + u16 major;
             u16 range * 65536 + u16 val ] s.
Proof.
  unfold Cmd_Gauge. rewrite !pack16_sum. cbn [send_all].
  do 9 rewrite (bind_run _ _ _ _ _ (Send_CMD_run _ _)).
  rewrite Send_CMD_run. reflexivity.
Qed.

(** X8.  [Cmd_AnimXY] packs [y] above [x] only when [x] is not negative:
    a negative [int16_t x] is widened with its sign before the OR, the
    high half of the word becomes all ones, and [y] is lost. *)
Theorem Cmd_AnimXY_word ch x y (s : World D) :
  - 2^15 <= x < 2^15 ->
  Cmd_AnimXY ch x y s =
  send_all [ CMD_ANIMXY; s32 ch;
             if x <? 0 then 2^32 + x else u16 y * 65536 + x ] s.
Proof.
  intros Hx. unfold Cmd_AnimXY. rewrite (pack16_signed_value y x Hx).
  cbn [send_all].
  do 5 rewrite (bind_run _ _ _ _ _ (Send_CMD_run _ _)).
  rewrite Send_CMD_run. reflexivity.
Qed.

End Wrappers.

(** Codes and offsets of the BT81x family for the commands modelled
    here, used to run them on concrete worlds. *)
#[export] Instance bt81x_commands : eve_h_commands := {
  REG_ID := 0x00;
  REG_GPIOX := 0x9C;
  REG_GPIOX_DIR := 0x98;
  CMD_TEXT := 0xFFFFFF0C;
  CMD_BUTTON := 0xFFFFFF0D;
  CMD_GAUGE := 0xFFFFFF13;
  CMD_ANIMXY := 0xFFFFFF55
}.

(** An animation moved to x = -1, y = 5: the word sent is 0xFFFFFFFF. *)
Lemma Cmd_AnimXY_word_witness :
  - 2^15 <= -1 < 2^15 /\
  Cmd_AnimXY 0 (-1) 5 boot = send_all [CMD_ANIMXY; 0; 0xFFFFFFFF] boot.
Proof.
  assert (H : - 2^15 <= -1 < 2^15) by lia.
  split; [exact H|]. exact (Cmd_AnimXY_word 0 (-1) 5 boot H).
Defined.
(* ------------------------------------------------------------------ *)
(** ** The string of [Cmd_Text] and [Cmd_Button] *)

(** The four bytes [wr32] sends for a word, least significant first. *)
Definition le_bytes (v : Z) : list Z := [byte0 v; byte1 v; byte2 v; byte3 v].

(** The word the first loop stores for the four characters from [StrPtr]
    on, and the last word after [j] turns of the second loop. *)
Definition word4 (cast : Z -> Z) (str : list Z) (StrPtr : Z) : Z :=
  let at_ (k : Z) := cast str.[Z.to_nat (StrPtr + k)] in
  Z.lor (Z.lor (Z.lor (u32 (Z.shiftl (at_ 3) 24))
                      (u32 (Z.shiftl (at_ 2) 16)))
               (u32 (Z.shiftl (at_ 1) 8)))
        (at_ 0).

Fixpoint partial_word (cast : Z -> Z) (str : list Z) (base : Z) (j : nat) : Z :=
  match j with
  | O => 0
  | S j' =>
      Z.lor (partial_word cast str base j')
        (u32 (Z.shiftl (cast str.[Z.to_nat (base + Z.of_nat j')]) (Z.of_nat j' * 8)))
  end.

Lemma strlen_bounds str : 0 <= strlen str <= Z.of_nat (length str).
Proof.
  induction str as [|c rest IH]; cbn [strlen length]; [lia|].
  destruct (c =? 0); lia.
Qed.

Lemma skipn_nth_cons {A} (l : list A) (i : nat) (d : A) :
  (i < length l)%nat -> skipn i l = nth i l d :: skipn (S i) l.
Proof.
  revert i. induction l as [|a l IH]; intros i Hi; [simpl in Hi; lia|].
  destruct i as [|i]; [reflexivity|]. cbn [skipn nth]. apply IH. simpl in Hi. lia.
Qed.

Lemma store_middle (pre rest : list Z) (old v : Z) (i : nat) :
  length pre = i -> store (pre ++ old :: rest) i v = pre ++ v :: rest.
Proof.
  intros <-. unfold store. rewrite length_app. cbn [length].
  destruct (Nat.ltb_spec (length pre) (length pre + S (length rest))); [|lia].
  rewrite firstn_app, Nat.sub_diag, firstn_all, firstn_O, app_nil_r.
  f_equal. f_equal.
  change (S (length pre)) with (1 + length pre)%nat.
  rewrite <- skipn_skipn, skipn_app, Nat.sub_diag, skipn_all. reflexivity.
Qed.

Lemma nth_middle_at (pre rest : list Z) (old : Z) (i : nat) :
  length pre = i -> (pre ++ old :: rest).[i] = old.
Proof. intros <-. apply nth_middle. Qed.

Lemma nth_all (l : list Z) : map (fun i => l.[i]) (seq 0 (length l)) = l.
Proof.
  induction l as [|a l IH]; [reflexivity|].
  cbn [length seq map nth]. f_equal.
  rewrite <- seq_shift, map_map. exact IH.
Qed.

Lemma pack_full_words_prefix cast str (data : list Z) (i : nat) :
  (i <= length data)%nat -> 4 * Z.of_nat i < 65536 ->
  fold_left
    (fun (acc : list Z * Z) (DataPtr : nat) =>
       let (data, StrPtr) := acc in
       (store data DataPtr (word4 cast str StrPtr), u16 (StrPtr + 4)))
    (seq 0 i) (data, 0)
  = (map (fun j => word4 cast str (4 * Z.of_nat j)) (seq 0 i) ++ skipn i data,
     4 * Z.of_nat i).
Proof.
  induction i as [|i IH]; intros Hlen Hsmall; [reflexivity|].
  rewrite seq_S, fold_left_app, IH by lia. cbn [fold_left Nat.add].
  rewrite (skipn_nth_cons data i 0) by lia.
  assert (Hpre : length (map (fun j => word4 cast str (4 * Z.of_nat j)) (seq 0 i)) = i)
    by (rewrite length_map, length_seq; reflexivity).
  rewrite (store_middle _ _ _ _ i Hpre).
  rewrite map_app. cbn [map]. rewrite <- app_assoc. cbn [app].
  f_equal. rewrite u16_small by lia. lia.
Qed.

Lemma pack_last_word_prefix cast str (pre : list Z) (DataPtr : nat) (base : Z) (j : nat) :
  length pre = DataPtr ->
  0 <= base -> base + Z.of_nat j < 65536 ->
  fold_left
    (fun (acc : list Z * Z) (LoopCount : nat) =>
       let (data, StrPtr) := acc in
       (store data DataPtr
          (Z.lor data.[DataPtr]
                 (u32 (Z.shiftl (cast str.[Z.to_nat StrPtr]) (Z.of_nat LoopCount * 8)))),
        u16 (StrPtr + 1)))
    (seq 0 j) (pre ++ [0], base)
  = (pre ++ [partial_word cast str base j], base + Z.of_nat j).
Proof.
  intros Hpre Hbase. induction j as [|j IH]; intros Hsmall.
  - cbn [seq fold_left partial_word]. f_equal. lia.
  - rewrite seq_S, fold_left_app, IH by lia. cbn [fold_left Nat.add].
    rewrite (nth_middle_at _ _ _ _ Hpre), (store_middle _ _ _ _ _ Hpre).
    cbn [partial_word].
    f_equal. rewrite u16_small by lia. lia.
Qed.

(** The words sent for the string: one word per four characters and a
    last word with the characters that remain. *)
Lemma text_words_eq cast str n :
  0 <= n < 65536 ->
  text_words cast str n =
  map (fun j => word4 cast str (4 * Z.of_nat j)) (seq 0 (Z.to_nat (Z.quot n 4)))
    ++ [partial_word cast str (4 * Z.of_nat (Z.to_nat (Z.quot n 4))) (Z.to_nat (Z.rem n 4))].
Proof.
  intros Hn. unfold text_words, pack_last_word, pack_full_words.
  assert (Hq : 0 <= Z.quot n 4) by (apply Z.quot_pos; lia).
  pose proof (Z.quot_rem' n 4) as Hqr.
  assert (Hr : 0 <= Z.rem n 4 < 4) by (apply Z.rem_bound_pos; lia).
  set (q := Z.to_nat (Z.quot n 4)).
  replace (Z.to_nat (Z.quot n 4 + 1)) with (S q) by lia.
  change (fold_left _ (seq 0 q) (repeat 0 (S q), 0))
    with (fold_left
            (fun (acc : list Z * Z) (DataPtr : nat) =>
               let (data, StrPtr) := acc in
               (store data DataPtr (word4 cast str StrPtr), u16 (StrPtr + 4)))
            (seq 0 q) (repeat 0 (S q), 0)).
  rewrite pack_full_words_prefix by (rewrite ?repeat_length; lia).
  replace (skipn q (repeat 0 (S q))) with [0].
  2:{ replace (S q) with (q + 1)%nat by lia.
      rewrite repeat_app, skipn_app, repeat_length, Nat.sub_diag, skipn_all2
        by (rewrite repeat_length; lia).
      reflexivity. }
  set (pre := map (fun j => word4 cast str (4 * Z.of_nat j)) (seq 0 q)).
  assert (Hpre : length pre = q) by (unfold pre; rewrite length_map, length_seq; reflexivity).
  rewrite (pack_last_word_prefix cast str pre q _ _ Hpre) by lia.
  replace (S q) with (length (pre ++ [partial_word cast str (4 * Z.of_nat q)
                                        (Z.to_nat (Z.rem n 4))]))
    by (rewrite length_app, Hpre; cbn [length]; lia).
  apply nth_all.
Qed.

Lemma div_mod_byte a x :
  0 <= a < 256 -> (a + 2^8 * x) mod 2^8 = a /\ (a + 2^8 * x) / 2^8 = x.
Proof.
  intros Ha. change (2^8) with 256. split.
  - symmetry. apply Z.mod_unique with (q := x); lia.
  - symmetry. apply Z.div_unique with (r := a); lia.
Qed.

Lemma le_bytes_le_value b0 b1 b2 b3 :
  0 <= b0 < 256 -> 0 <= b1 < 256 -> 0 <= b2 < 256 -> 0 <= b3 < 256 ->
  le_bytes (le_value [b0; b1; b2; b3]) = [b0; b1; b2; b3].
Proof.
  intros H0 H1 H2 H3. unfold le_bytes, byte0, byte1, byte2, byte3. cbn [le_value].
  change (2^16) with (2^8 * 2^8). change (2^24) with (2^8 * 2^8 * 2^8).
  rewrite <- !Z.div_div by lia.
  destruct (div_mod_byte b0 (b1 + 2^8 * (b2 + 2^8 * (b3 + 2^8 * 0))) H0) as [-> ->].
  destruct (div_mod_byte b1 (b2 + 2^8 * (b3 + 2^8 * 0)) H1) as [-> ->].
  destruct (div_mod_byte b2 (b3 + 2^8 * 0) H2) as [-> ->].
  destruct (div_mod_byte b3 0 H3) as [-> _]. reflexivity.
Qed.

Lemma lor_low_shifted lo hi n :
  0 <= n -> 0 <= lo < 2^n -> Z.lor lo (hi * 2^n) = lo + hi * 2^n.
Proof. intros. rewrite Z.lor_comm, lor_shifted_low by assumption. lia. Qed.

Lemma shifted_byte b n :
  0 <= b < 256 -> 0 <= n <= 24 -> u32 (Z.shiftl b n) = b * 2^n.
Proof.
  intros Hb Hn. rewrite Z.shiftl_mul_pow2 by lia. apply u32_small.
  assert (0 < 2^n <= 2^24) by (split; [apply Z.pow_pos_nonneg; lia | apply Z.pow_le_mono_r; lia]).
  change (2^24) with 16777216 in *. change (2^32) with 4294967296. nia.
Qed.

Lemma word4_bytes cast str p :
  (forall i, 0 <= cast str.[i] < 256) ->
  le_bytes (word4 cast str p) =
  [ cast str.[Z.to_nat (p + 0)]; cast str.[Z.to_nat (p + 1)];
    cast str.[Z.to_nat (p + 2)]; cast str.[Z.to_nat (p + 3)] ].
Proof.
  intros Hc. unfold word4.
  set (b0 := cast str.[Z.to_nat (p + 0)]). set (b1 := cast str.[Z.to_nat (p + 1)]).
  set (b2 := cast str.[Z.to_nat (p + 2)]). set (b3 := cast str.[Z.to_nat (p + 3)]).
  assert (H0 : 0 <= b0 < 256) by apply Hc. assert (H1 : 0 <= b1 < 256) by apply Hc.
  assert (H2 : 0 <= b2 < 256) by apply Hc. assert (H3 : 0 <= b3 < 256) by apply Hc.
  rewrite <- (le_bytes_le_value b0 b1 b2 b3) by assumption. f_equal.
  rewrite !shifted_byte by lia. cbn [le_value].
  rewrite (lor_shifted_low b3 (b2 * 2^16) 24)
    by (change (2^16) with 65536; change (2^24) with 16777216; lia).
  replace (b3 * 2^24 + b2 * 2^16) with ((b3 * 2^8 + b2) * 2^16)
    by (change (2^16) with 65536; change (2^24) with 16777216; change (2^8) with 256; ring).
  rewrite (lor_shifted_low _ (b1 * 2^8) 16)
    by (change (2^16) with 65536; change (2^8) with 256; lia).
  replace ((b3 * 2^8 + b2) * 2^16 + b1 * 2^8) with (((b3 * 2^8 + b2) * 2^8 + b1) * 2^8)
    by (change (2^16) with 65536; change (2^8) with 256; ring).
  rewrite (lor_shifted_low _ b0 8) by (change (2^8) with 256; lia).
  change (2^8) with 256. ring.
Qed.

Lemma partial_word_bytes cast str base (r : nat) :
  (forall i, 0 <= cast str.[i] < 256) ->
  (r < 4)%nat ->
  le_bytes (partial_word cast str base r) =
  map (fun t => cast str.[Z.to_nat (base + Z.of_nat t)]) (seq 0 r) ++ repeat 0 (4 - r).
Proof.
  intros Hc Hr.
  set (b0 := cast str.[Z.to_nat (base + Z.of_nat 0)]).
  set (b1 := cast str.[Z.to_nat (base + Z.of_nat 1)]).
  set (b2 := cast str.[Z.to_nat (base + Z.of_nat 2)]).
  assert (H0 : 0 <= b0 < 256) by apply Hc. assert (H1 : 0 <= b1 < 256) by apply Hc.
  assert (H2 : 0 <= b2 < 256) by apply Hc.
  destruct r as [|[|[|[|r]]]]; [| | | |lia]; cbn [partial_word seq map repeat Nat.sub app].
  - reflexivity.
  - fold b0. rewrite <- (le_bytes_le_value b0 0 0 0) by lia. f_equal.
    rewrite shifted_byte by lia. cbn [le_value]. rewrite Z.lor_0_l.
    change (Z.of_nat 0 * 8) with 0. change (2^0) with 1. lia.
  - fold b0 b1. rewrite <- (le_bytes_le_value b0 b1 0 0) by lia. f_equal.
    rewrite !shifted_byte by lia. cbn [le_value]. rewrite Z.lor_0_l.
    change (Z.of_nat 0 * 8) with 0. change (Z.of_nat 1 * 8) with 8. change (2^0) with 1.
    rewrite Z.mul_1_r, lor_low_shifted by (change (2^8) with 256; lia).
    change (2^8) with 256. ring.
  - fold b0 b1 b2. rewrite <- (le_bytes_le_value b0 b1 b2 0) by lia. f_equal.
    rewrite !shifted_byte by lia. cbn [le_value]. rewrite Z.lor_0_l.
    change (Z.of_nat 0 * 8) with 0. change (Z.of_nat 1 * 8) with 8.
    change (Z.of_nat 2 * 8) with 16. change (2^0) with 1.
    rewrite Z.mul_1_r, (lor_low_shifted b0 b1 8) by (change (2^8) with 256; lia).
    rewrite lor_low_shifted by (change (2^8) with 256; change (2^16) with 65536; lia).
    change (2^8) with 256. change (2^16) with 65536. ring.
Qed.

Lemma flat_map_quads (c : nat -> Z) (q : nat) :
  flat_map (fun j => [c (4 * j)%nat; c (4 * j + 1)%nat; c (4 * j + 2)%nat; c (4 * j + 3)%nat])
    (seq 0 q)
  = map c (seq 0 (4 * q)).
Proof.
  induction q as [|q IH]; [reflexivity|].
  rewrite seq_S, flat_map_app, IH. cbn [flat_map Nat.add app].
  replace (4 * S q)%nat with (4 * q + 4)%nat by lia.
  rewrite seq_app, map_app. cbn [seq map Nat.add]. 
  repeat f_equal; lia.
Qed.

Lemma map_seq_from (c : nat -> Z) (a r : nat) :
  map (fun t => c (a + t)%nat) (seq 0 r) = map c (seq a r).
Proof.
  revert a. induction r as [|r IH]; intros a; [reflexivity|].
  cbn [seq map]. f_equal; [f_equal; lia|].
  rewrite <- seq_shift, map_map, <- (IH (S a)).
  apply map_ext. intros t. f_equal. lia.
Qed.

Lemma map_nth_firstn (f : Z -> Z) (str : list Z) (n : nat) :
  (n <= length str)%nat ->
  map (fun i => f str.[i]) (seq 0 n) = map f (firstn n str).
Proof.
  revert n. induction str as [|c rest IH]; intros n Hn.
  - simpl in Hn. replace n with 0%nat by lia. reflexivity.
  - destruct n as [|n]; [reflexivity|].
    cbn [seq map firstn nth]. f_equal.
    rewrite <- seq_shift, map_map. apply IH. simpl in Hn. lia.
Qed.

(** The bytes of the words sent for a string of [n] characters: the
    characters in order, then zero bytes up to the end of the last
    word, at least one. *)
Lemma text_words_bytes cast str (n : nat) :
  (forall i, 0 <= cast str.[i] < 256) ->
  Z.of_nat n < 65536 ->
  flat_map le_bytes (text_words cast str (Z.of_nat n)) =
  map (fun i => cast str.[i]) (seq 0 n) ++ repeat 0 (4 - n mod 4) /\
  length (text_words cast str (Z.of_nat n)) = (n / 4 + 1)%nat.
Proof.
  intros Hc Hn. rewrite text_words_eq by lia.
  assert (Hq : Z.to_nat (Z.quot (Z.of_nat n) 4) = (n / 4)%nat).
  { rewrite Z.quot_div_nonneg by lia. change 4 with (Z.of_nat 4).
    rewrite <- Nat2Z.inj_div. apply Nat2Z.id. }
  assert (Hr : Z.to_nat (Z.rem (Z.of_nat n) 4) = (n mod 4)%nat).
  { rewrite Z.rem_mod_nonneg by lia. change 4 with (Z.of_nat 4).
    rewrite <- Nat2Z.inj_mod. apply Nat2Z.id. }
  rewrite Hq, Hr. set (q := (n / 4)%nat). set (r := (n mod 4)%nat).
  assert (Hr4 : (r < 4)%nat) by (apply Nat.mod_upper_bound; lia).
  assert (Hnqr : n = (4 * q + r)%nat) by (apply Nat.div_mod_eq).
  split.
  - rewrite flat_map_app. cbn [flat_map]. rewrite app_nil_r.
    rewrite (partial_word_bytes _ _ _ _ Hc Hr4).
    rewrite flat_map_concat_map, map_map, <- flat_map_concat_map.
    rewrite (flat_map_ext _ (fun j => [ (fun i => cast str.[i]) (4 * j)%nat;
                                         (fun i => cast str.[i]) (4 * j + 1)%nat;
                                         (fun i => cast str.[i]) (4 * j + 2)%nat;
                                         (fun i => cast str.[i]) (4 * j + 3)%nat ])).
    2:{ intros j. rewrite (word4_bytes _ _ _ Hc).
        repeat (f_equal; try (f_equal; lia)). }
    pose proof (flat_map_quads (fun i => cast str.[i]) q) as Hquads.
    cbv beta in Hquads |- *. rewrite Hquads, app_assoc. f_equal.
    replace (seq 0 n) with (seq 0 (4 * q) ++ seq (4 * q) r)
      by (rewrite <- seq_app; f_equal; lia).
    rewrite map_app. f_equal.
    rewrite <- (map_seq_from (fun i => cast str.[i])).
    apply map_ext. intros t. f_equal. f_equal. lia.
  - rewrite length_app, length_map, length_seq. cbn [length]. lia.
Qed.

Section Strings.

Context {D : Type} {dev : Chip D} {regs : eve_h} {cmds : eve_h_commands}.

(** X9.  [Cmd_Text] takes the length of the string modulo 2^16.  When
    that is zero, for the empty string and for one of 65536 characters
    alike, nothing is sent at all.  Otherwise the command code and two
    words of arguments are followed by the first [n] characters of the
    string, four to a word and least significant byte first, and then by
    zero bytes up to the end of the last word, one at least: the text
    on the bus is always terminated. *)
Theorem Cmd_Text_bytes x y font options str (s : World D) :
  let n := Z.to_nat (u16 (strlen str)) in
  (n = 0%nat /\ Cmd_Text x y font options str s = Ok tt s) \/
  (n <> 0%nat /\
   exists words,
     Cmd_Text x y font options str s =
       send_all ([CMD_TEXT; u16 y * 65536 + u16 x; u16 options * 65536 + u16 font]
                   ++ words) s /\
     length words = (n / 4 + 1)%nat /\
     flat_map le_bytes words = map u8 (firstn n str) ++ repeat 0 (4 - n mod 4)).
Proof.
  intros n. pose proof (u16_range (strlen str)) as Hu.
  pose proof (strlen_bounds str) as Hlen.
  assert (Hle : u16 (strlen str) <= strlen str).
  { unfold u16. apply Z.mod_le; lia. }
  unfold Cmd_Text. destruct (Z.eqb_spec (u16 (strlen str)) 0) as [Hz|Hnz].
  - left. split; [unfold n; rewrite Hz; reflexivity | reflexivity].
  - right. split; [unfold n; lia|].
    exists (text_words (fun c => u32 (u8 c)) str (u16 (strlen str))).
    split; [rewrite !pack16_sum; cbn [app send_all]; reflexivity|].
    assert (Hc : forall i, 0 <= (fun c => u32 (u8 c)) str.[i] < 256).
    { intros i. cbv beta. pose proof (u8_range str.[i]).
      rewrite u32_small by (change (2^32) with 4294967296; lia). lia. }
    destruct (text_words_bytes _ str n Hc ltac:(unfold n; lia)) as [Hbytes Hwords].
    unfold n in Hbytes, Hwords. rewrite Z2Nat.id in Hbytes, Hwords by lia.
    split; [exact Hwords|]. rewrite Hbytes. f_equal.
    rewrite <- map_nth_firstn by lia. apply map_ext. intros i.
    pose proof (u8_range str.[i]).
    apply u32_small. change (2^32) with 4294967296. lia.
Qed.

(** X10.  [Cmd_Button] sends its label as [Cmd_Text] sends its text when
    no character is negative: four words of code and arguments, then the
    characters and the zero bytes that fill the last word. *)
Theorem Cmd_Button_bytes x y w h font options str (s : World D) :
  Forall (fun c => 0 <= c < 256) str ->
  u16 (strlen str) <> 0 ->
  let n := Z.to_nat (u16 (strlen str)) in
  exists words,
    Cmd_Button x y w h font options str s =
      send_all ([CMD_BUTTON; u16 y * 65536 + u16 x; u16 h * 65536 + u16 w;
                 u16 options * 65536 + u16 font] ++ words) s /\
    length words = (n / 4 + 1)%nat /\
    flat_map le_bytes words = firstn n str ++ repeat 0 (4 - n mod 4).
Proof.
  intros Hstr Hnz n. pose proof (u16_range (strlen str)) as Hu.
  pose proof (strlen_bounds str) as Hlen.
  assert (Hle : u16 (strlen str) <= strlen str).
  { unfold u16. apply Z.mod_le; lia. }
  assert (Hin : forall i, 0 <= str.[i] < 256).
  { intros i. apply (nth_in_or_default str (fun c => 0 <= c < 256) i); [lia | exact Hstr]. }
  unfold Cmd_Button. destruct (Z.eqb_spec (u16 (strlen str)) 0) as [Hz|_]; [contradiction|].
  exists (text_words (fun c => u32 c) str (u16 (strlen str))).
  split; [rewrite !pack16_sum; cbn [app send_all]; reflexivity|].
  assert (Hc : forall i, 0 <= (fun c => u32 c) str.[i] < 256).
  { intros i. cbv beta. specialize (Hin i).
    rewrite u32_small by (change (2^32) with 4294967296; lia). lia. }
  destruct (text_words_bytes _ str n Hc ltac:(unfold n; lia)) as [Hbytes Hwords].
  unfold n in Hbytes, Hwords. rewrite Z2Nat.id in Hbytes, Hwords by lia.
  split; [exact Hwords|]. rewrite Hbytes. f_equal.
  rewrite <- (map_id (firstn _ str)). rewrite <- (map_nth_firstn (fun c => c)) by lia.
  apply map_ext. intros i. specialize (Hin i).
  apply u32_small. change (2^32) with 4294967296. lia.
Qed.

End Strings.

(** "Hi!" on a button: one word, the three characters and a zero. *)
Lemma Cmd_Button_bytes_witness :
  Forall (fun c => 0 <= c < 256) [72; 105; 33] /\
  u16 (strlen [72; 105; 33]) <> 0 /\
  exists words,
    Cmd_Button 10 20 100 40 27 0 [72; 105; 33] boot =
      send_all ([CMD_BUTTON; 20 * 65536 + 10; 40 * 65536 + 100; 0 * 65536 + 27] ++ words)
        boot /\
    length words = 1%nat /\
    flat_map le_bytes words = [72; 105; 33; 0].
Proof.
  assert (H1 : Forall (fun c => 0 <= c < 256) [72; 105; 33])
    by (repeat constructor; lia).
  assert (H2 : u16 (strlen [72; 105; 33]) <> 0) by (vm_compute; discriminate).
  split; [exact H1|]. split; [exact H2|].
  exact (Cmd_Button_bytes 10 20 100 40 27 0 [72; 105; 33] boot H1 H2).
Defined.

(** Where [char] is signed, a character above 0x7F is negative, and
    [Cmd_Button], which widens it with its sign, fills the rest of the
    word with ones: of the two bytes 0xC3 0xA9 the second is lost and no
    zero byte follows.  [Cmd_Text] narrows to [uint8_t] first. *)
Example Cmd_Button_signed_char :
  flat_map le_bytes (text_words (fun c => u32 c) [-61; -87] 2) = [0xC3; 0xFF; 0xFF; 0xFF] /\
  flat_map le_bytes (text_words (fun c => u32 (u8 c)) [-61; -87] 2) = [0xC3; 0xA9; 0; 0].
Proof. split; vm_compute; reflexivity. Qed.

(* ------------------------------------------------------------------ *)
(** ** Block transfers: [WriteBlockRAM] and [rdN] *)

Lemma u32_u32 x : u32 (u32 x) = u32 x.
Proof. apply u32_small, u32_range. Qed.

Lemma wire_wr8_u32 a v : wire_wr8 (u32 a) v = wire_wr8 a v.
Proof. unfold wire_wr8, wr_address. rewrite u32_u32. reflexivity. Qed.

Lemma wire_wr8_u8 a v : wire_wr8 a (u8 v) = wire_wr8 a v.
Proof. unfold wire_wr8. rewrite u8_u8. reflexivity. Qed.

Lemma wire_wr8_same32 a b v : u32 a = u32 b -> wire_wr8 a v = wire_wr8 b v.
Proof. intros H. rewrite <- (wire_wr8_u32 a), <- (wire_wr8_u32 b), H. reflexivity. Qed.

(** The transactions of a block write: one [wr8] per byte, at
    consecutive addresses. *)
Definition wire_block (host : Z -> Z) (Add buff : Z) (n : nat) : list Event :=
  flat_map (fun i => wire_wr8 (Add + Z.of_nat i) (host (buff + Z.of_nat i))) (seq 0 n).

Lemma wire_block_S host Add buff n :
  wire_block host Add buff (S n) =
  wire_wr8 Add (host buff) ++ wire_block host (Add + 1) (buff + 1) n.
Proof.
  unfold wire_block. cbn [seq flat_map]. rewrite !Z.add_0_r. f_equal.
  rewrite <- seq_shift, flat_map_concat_map, map_map, <- flat_map_concat_map.
  apply flat_map_ext. intros i. f_equal; [|f_equal]; lia.
Qed.

Section Blocks.

Context {D : Type} {dev : Chip D} {regs : eve_h}.

Lemma WriteBlockRAM_loop_run host buff count (k : nat) :
  forall (turns : nat) index WriteAddress (s : World D),
    (k <= turns)%nat -> 0 <= index -> index + Z.of_nat k = count -> count < 2^32 ->
    WriteBlockRAM_loop turns host buff count index WriteAddress s =
    Ok (u32 (WriteAddress + Z.of_nat k))
       (extend s (wire_block host WriteAddress (buff + index) k)) \/
    (k = 0%nat /\
     WriteBlockRAM_loop turns host buff count index WriteAddress s = Ok WriteAddress s).
Proof.
  induction k as [|k IH]; intros turns index WriteAddress s Hturns Hindex Hsum Hcount.
  - right. split; [reflexivity|].
    destruct turns; cbn [WriteBlockRAM_loop];
      destruct (Z.ltb_spec index count); try lia; reflexivity.
  - left. destruct turns as [|turns]; [lia|]. cbn [WriteBlockRAM_loop].
    destruct (Z.ltb_spec index count); [|lia].
    rewrite (bind_run _ _ _ _ _ (wr8_run _ _ _)).
    rewrite wire_wr8_u8, wire_block_S.
    change (2^32) with 4294967296 in *.
    rewrite (u32_small (index + 1)) by (change (2^32) with 4294967296; lia).
    destruct (IH turns (index + 1) (u32 (WriteAddress + 1))
                (extend s (wire_wr8 WriteAddress (host (buff + index))))
                ltac:(lia) ltac:(lia) ltac:(lia) ltac:(lia)) as [Hrun | [Hk Hrun]].
    + rewrite Hrun, extend_extend. f_equal.
      * unfold u32. rewrite Zplus_mod_idemp_l. f_equal. lia.
      * f_equal. f_equal. replace (buff + (index + 1)) with (buff + index + 1) by lia.
        generalize (buff + index + 1) as b. intros b. unfold wire_block.
        apply flat_map_ext. intros i. apply wire_wr8_same32.
        unfold u32. rewrite Zplus_mod_idemp_l. reflexivity.
    + subst k. rewrite Hrun. unfold wire_block. cbn [seq flat_map].
      rewrite app_nil_r. reflexivity.
Qed.

(** X11.  [WriteBlockRAM] always returns, for every chip and every
    count: it puts one [wr8] transaction per byte on the bus, in the
    order of the buffer and at consecutive addresses from [Add] on, and
    returns the address after the last byte, modulo 2^32. *)
Theorem WriteBlockRAM_run host Add buff count (s : World D) :
  WriteBlockRAM host Add buff count s =
  Ok (u32 (Add + u32 count))
     (extend s (wire_block host Add buff (Z.to_nat (u32 count)))).
Proof.
  unfold WriteBlockRAM. pose proof (u32_range count) as Hc.
  destruct (WriteBlockRAM_loop_run host buff (u32 count) (Z.to_nat (u32 count))
              (Z.to_nat (u32 count)) 0 (u32 Add) s
              ltac:(lia) ltac:(lia) ltac:(lia) ltac:(lia)) as [Hrun | [Hk Hrun]].
  - rewrite Hrun. rewrite Z2Nat.id, Z.add_0_r by lia. f_equal.
    + unfold u32. rewrite Zplus_mod_idemp_l. reflexivity.
    + f_equal. unfold wire_block. apply flat_map_ext. intros i.
      apply wire_wr8_same32. unfold u32. rewrite Zplus_mod_idemp_l. reflexivity.
  - rewrite Hrun, Hk. assert (Hz : u32 count = 0) by lia. rewrite Hz, Z.add_0_r.
    unfold wire_block. cbn [seq flat_map]. rewrite extend_nil. reflexivity.
Qed.

Lemma rdN_run address size (s : World D) :
  let reply := answer (Z.to_nat (u32 size)) (rd_query address) s in
  rdN address size s = Ok reply (extend s (wire_rd address reply)).
Proof.
  intros reply. unfold rdN. repeat hal_step. simpl app.
  change (answer (Z.to_nat (u32 size)) _ s) with reply. reflexivity.
Qed.

Lemma chip_play_Writes (bs : list Z) (d : D) :
  chip_play (map SPI_Write bs) d = chip_feed bs d.
Proof.
  revert d. unfold chip_feed. induction bs as [|b bs IH]; intros d; [reflexivity|].
  cbn [map chip_play fold_left]. apply IH.
Qed.

Lemma rd32_query_chip address (d : D) :
  chip_play (rd32_query address) d = chip_play (rd_query address) d.
Proof.
  unfold rd32_query, rd_query. cbn [chip_play]. rewrite chip_play_Writes. reflexivity.
Qed.

(** X12.  [rd8], [rd16] and [rd32] are [rdN] for 1, 2 and 4 bytes with
    the buffer read as a little-endian value.  [rd8] and [rd16] put the
    very same events on the bus; [rd32] hands the three address bytes
    over as one buffer, which the chip cannot tell apart: it gets the
    same bytes, gives the same answer and ends in the same state. *)
Theorem reads_are_rdN address (s : World D) :
  rd8 address s = (buffer <- rdN address 1 ;; ret (le_value buffer)) s /\
  rd16 address s = (buffer <- rdN address 2 ;; ret (le_value buffer)) s /\
  exists reply sN s32,
    rdN address 4 s = Ok reply sN /\
    rd32 address s = Ok (le_value reply) s32 /\
    chip s32 = chip sN /\
    flat_map sent (wire s32) = flat_map sent (wire sN).
Proof.
  split; [|split].
  - rewrite rd8_run, (bind_run _ _ _ _ _ (rdN_run _ _ _)). reflexivity.
  - rewrite rd16_run, (bind_run _ _ _ _ _ (rdN_run _ _ _)). reflexivity.
  - pose proof (rdN_run address 4 s) as HN. pose proof (rd32_run address s) as H32.
    cbv zeta in HN, H32.
    assert (Heq : answer 4 (rd32_query address) s = answer 4 (rd_query address) s).
    { unfold answer. rewrite rd32_query_chip. reflexivity. }
    rewrite Heq in H32. change (Z.to_nat (u32 4)) with 4%nat in HN.
    eexists _, _, _. split; [exact HN|]. split; [exact H32|]. split.
    + unfold extend. cbn [chip]. unfold wire_rd32, wire_rd.
      change (chip_play (SPI_Enable :: map SPI_Write (rd_address address) ++ ?t) ?d)
        with (chip_play (rd_query address ++ t) d).
      change [SPI_Enable; SPI_WriteBuffer (rd_address address);
              SPI_ReadBuffer ?r; SPI_Disable]
        with (rd32_query address ++ [SPI_ReadBuffer r; SPI_Disable]).
      rewrite !chip_play_app, rd32_query_chip. reflexivity.
    + unfold extend. cbn [wire]. rewrite !flat_map_app.
      apply (f_equal (app (flat_map sent (wire s)))).
      unfold wire_rd32, wire_rd. cbn [flat_map sent app].
      rewrite flat_map_app, flat_map_sent_Write. cbn [flat_map sent app].
      rewrite !app_nil_r. reflexivity.
Qed.

End Blocks.

(* ------------------------------------------------------------------ *)
(** ** A block written and read back

    On the memory-mapped chip [Sim.ram] the framing of [wr8] and of [rdN]
    can be checked against each other: what [WriteBlockRAM] stores is
    what [rdN] returns. *)

Lemma address_bits_join a :
  0 <= a < 2^22 -> bits_16_21 a * 65536 + byte1 a * 256 + byte0 a = a.
Proof.
  intros Ha. unfold bits_16_21, byte1, byte0.
  change (2^22) with 4194304 in Ha. change (2^16) with 65536. change (2^8) with 256.
  change (2^6) with 64.
  assert (H16 : 0 <= a / 65536 < 64)
    by (split; [apply Z.div_pos; lia | apply Z.div_lt_upper_bound; lia]).
  rewrite (Z.mod_small (a / 65536)) by lia.
  pose proof (Z.div_mod a 256 ltac:(lia)) as H1.
  pose proof (Z.div_mod (a / 256) 256 ltac:(lia)) as H2.
  rewrite Z.div_div in H2 by lia. change (256 * 256) with 65536 in H2. lia.
Qed.

Lemma bits_16_21_range a : 0 <= bits_16_21 a < 64.
Proof. unfold bits_16_21. apply Z.mod_pos_bound. reflexivity. Qed.

Lemma write_command_byte h :
  0 <= h < 64 -> Z.testbit (128 + h) 7 = true /\ Z.land (128 + h) 0x3F = h.
Proof.
  intros Hh.
  assert (H : forallb (fun n => Z.testbit (128 + Z.of_nat n) 7
                                && (Z.land (128 + Z.of_nat n) 0x3F =? Z.of_nat n))
                (seq 0 64) = true) by (vm_compute; reflexivity).
  rewrite forallb_forall in H.
  specialize (H (Z.to_nat h)). rewrite Z2Nat.id in H by lia.
  assert (Hin : In (Z.to_nat h) (seq 0 64)) by (apply in_seq; lia).
  apply H, andb_true_iff in Hin. destruct Hin as [H1 H2].
  split; [exact H1 | apply Z.eqb_eq, H2].
Qed.

Lemma read_command_byte h : 0 <= h < 64 -> Z.land h 0x3F = h.
Proof. intros Hh. rewrite land_3f. apply Z.mod_small. change (2^6) with 64. lia. Qed.

Lemma mosi_header b m h :
  (length h < 3)%nat -> mosi b (mkRam m h 0) = mkRam m (h ++ [b]) 0.
Proof.
  intros Hh. unfold mosi. cbn [hdr mem cnt].
  destruct (Nat.ltb_spec (length h) 3); [reflexivity | lia].
Qed.

Lemma mosi_payload b m h c :
  length h = 3%nat -> Z.testbit h.[0%nat] 7 = true ->
  mosi b (mkRam m h c) = mkRam ((addr_of h + c, b) :: m) h (c + 1).
Proof.
  intros Hh Hbit. unfold mosi. cbn [hdr mem cnt].
  destruct (Nat.ltb_spec (length h) 3); [lia|]. rewrite Hbit. reflexivity.
Qed.

(** One [wr8] stores one byte. *)
Lemma ram_wr8 a v (d : ram) :
  0 <= a < 2^22 ->
  chip_play (wire_wr8 a v) d = mkRam ((a, u8 v) :: mem d) [] 0.
Proof.
  intros Ha. unfold wire_wr8. rewrite (wr_address_bits a Ha).
  destruct (write_command_byte _ (bits_16_21_range a)) as [Hbit Hland].
  cbn [app map chip_play chip_select chip_mosi chip_deselect ram_chip].
  unfold select at 2.
  rewrite !mosi_header by (cbn [length app]; lia). cbn [app].
  rewrite mosi_payload by (cbn [nth length]; first [reflexivity | exact Hbit]).
  unfold select. cbn [mem]. unfold addr_of. cbn [nth].
  rewrite Hland, Z.add_0_r, (address_bits_join a Ha). reflexivity.
Qed.

(** What a block write has stored: the bytes of the buffer, the last
    one written first in the list. *)
Definition stored (host : Z -> Z) (Add buff : Z) (n : nat) : list (Z * Z) :=
  rev (map (fun i => (Add + Z.of_nat i, u8 (host (buff + Z.of_nat i)))) (seq 0 n)).

Lemma stored_S host Add buff n :
  stored host Add buff (S n) =
  (Add + Z.of_nat n, u8 (host (buff + Z.of_nat n))) :: stored host Add buff n.
Proof. unfold stored. rewrite seq_S, map_app, rev_app_distr. reflexivity. Qed.

Lemma wire_block_last host Add buff n :
  wire_block host Add buff (S n) =
  wire_block host Add buff n
    ++ wire_wr8 (Add + Z.of_nat n) (host (buff + Z.of_nat n)).
Proof.
  unfold wire_block. rewrite seq_S, flat_map_app. cbn [flat_map Nat.add].
  rewrite app_nil_r. reflexivity.
Qed.

Lemma ram_block host Add buff (n : nat) (d : ram) :
  0 <= Add -> Add + Z.of_nat n <= 2^22 ->
  mem (chip_play (wire_block host Add buff n) d) = stored host Add buff n ++ mem d.
Proof.
  intros HAdd. induction n as [|n IH]; intros Hend; [reflexivity|].
  rewrite wire_block_last, chip_play_app, ram_wr8 by lia.
  cbn [mem]. rewrite IH by lia. rewrite stored_S. reflexivity.
Qed.

Lemma load_stored host Add buff (n i : nat) m :
  (i < n)%nat ->
  load (stored host Add buff n ++ m) (Add + Z.of_nat i) = u8 (host (buff + Z.of_nat i)).
Proof.
  induction n as [|n IH]; intros Hi; [lia|].
  rewrite stored_S. unfold load. cbn [app find fst].
  destruct (Z.eqb_spec (Add + Z.of_nat n) (Add + Z.of_nat i)) as [Heq|Hne].
  - assert (n = i) by lia. subst i. reflexivity.
  - apply IH. lia.
Qed.

(** A burst read returns the bytes stored from the address on. *)
Lemma ram_burst (n : nat) m h c :
  chip_burst n (mkRam m h c)
  = (map (fun i => u8 (load m (addr_of h + c + Z.of_nat i))) (seq 0 n),
     mkRam m h (c + Z.of_nat n)).
Proof.
  revert c. induction n as [|n IH]; intros c.
  - cbn [chip_burst seq map]. rewrite Z.add_0_r. reflexivity.
  - cbn [chip_burst chip_miso ram_chip]. unfold miso. cbn [mem hdr cnt].
    rewrite IH. cbn [seq map]. f_equal.
    + f_equal; [f_equal; f_equal; lia|].
      rewrite <- seq_shift, map_map. apply map_ext. intros i. do 2 f_equal. lia.
    + f_equal. lia.
Qed.

Lemma ram_rd_query a (d : ram) :
  chip_play (rd_query a) d = mkRam (mem d) (rd_address a) 0.
Proof.
  unfold rd_query, rd_address.
  cbn [map chip_play chip_select chip_mosi ram_chip].
  unfold select.
  rewrite !mosi_header by (cbn [length app]; lia). reflexivity.
Qed.

Lemma addr_of_rd_address a : 0 <= a < 2^22 -> addr_of (rd_address a) = a.
Proof.
  intros Ha. rewrite rd_address_bits. unfold addr_of. cbn [nth].
  rewrite (read_command_byte _ (bits_16_21_range a)). apply address_bits_join, Ha.
Qed.

(** X13.  On the memory-mapped chip, a block written with
    [WriteBlockRAM] anywhere in the 22-bit address space is read back
    unchanged by [rdN] from the same address, whatever the chip held
    before; [WriteBlockRAM] returns the address after the block. *)
Theorem block_round_trip host Add buff count (s : World ram) :
  0 <= Add < 2^22 -> 0 <= count -> Add + count <= 2^22 ->
  exists s1 s2,
    WriteBlockRAM host Add buff count s = Ok (Add + count) s1 /\
    rdN Add count s1 = Ok (peek host buff count) s2.
Proof.
  intros HAdd Hcount Hend. change (2^22) with 4194304 in *.
  assert (Hc32 : u32 count = count) by (apply u32_small; change (2^32) with 4294967296; lia).
  assert (HA32 : u32 Add = Add) by (apply u32_small; change (2^32) with 4294967296; lia).
  assert (Hw : WriteBlockRAM host Add buff count s =
               Ok (Add + count) (extend s (wire_block host Add buff (Z.to_nat count)))).
  { unfold WriteBlockRAM. rewrite Hc32, HA32.
    destruct (WriteBlockRAM_loop_run host buff count (Z.to_nat count) (Z.to_nat count)
                0 Add s ltac:(lia) ltac:(lia) ltac:(lia)
                ltac:(change (2^32) with 4294967296; lia)) as [Hrun | [Hk Hrun]].
    - rewrite Hrun, Z2Nat.id, Z.add_0_r by lia.
      rewrite u32_small by (change (2^32) with 4294967296; lia). reflexivity.
    - rewrite Hrun, Hk. assert (Hz : count = 0) by lia. rewrite Hz, Z.add_0_r.
      unfold wire_block. cbn [seq flat_map]. rewrite extend_nil. reflexivity. }
  eexists _, _. split; [exact Hw|].
  - rewrite rdN_run. cbv zeta. rewrite Hc32. f_equal.
    unfold answer, extend. cbn [chip]. rewrite ram_rd_query, ram_burst. cbn [fst].
    rewrite addr_of_rd_address by (change (2^22) with 4194304; lia).
    rewrite ram_block by (change (2^22) with 4194304; lia).
    unfold peek. apply map_ext_in. intros i Hi. apply in_seq in Hi.
    rewrite Z.add_0_r, load_stored by lia. apply u8_u8.
Qed.

(** Five bytes written at 0x1000 on the chip that has faulted, and read
    back. *)
Lemma block_round_trip_witness :
  0 <= 0x1000 < 2^22 /\ 0 <= 5 /\ 0x1000 + 5 <= 2^22 /\
  exists s1 s2,
    WriteBlockRAM (fun i => 7 * i) 0x1000 40 5 faulted = Ok (0x1000 + 5) s1 /\
    rdN 0x1000 5 s1 = Ok (peek (fun i => 7 * i) 40 5) s2.
Proof.
  assert (H1 : 0 <= 0x1000 < 2^22) by lia.
  assert (H2 : 0 <= 5) by lia.
  assert (H3 : 0x1000 + 5 <= 2^22) by lia.
  split; [exact H1|]. split; [exact H2|]. split; [exact H3|].
  exact (block_round_trip (fun i => 7 * i) 0x1000 40 5 faulted H1 H2 H3).
Defined.

(* ------------------------------------------------------------------ *)
(** ** The bit-banged port on the GPIO pins *)

Section BitBang.

Context {D : Type} {dev : Chip D} {regs : eve_h} {cmds : eve_h_commands}.

(** One bit on the port: clock low, the bit on the data pin, clock
    high; and a sequence of bits, one after the other. *)
Definition clock_out_bit (b : bool) : M D unit :=
  GPIOX_WriteBit SCL false ;;
  GPIOX_WriteBit SDA b ;;
  GPIOX_WriteBit SCL true.

Fixpoint clock_out (bits : list bool) : M D unit :=
  match bits with
  | [] => ret tt
  | b :: rest =>
      GPIOX_WriteBit SCL false ;;
      GPIOX_WriteBit SDA b ;;
      GPIOX_WriteBit SCL true ;;
      clock_out rest
  end.

Lemma u8_testbit x i : 0 <= i < 8 -> Z.testbit (u8 x) i = Z.testbit x i.
Proof. intros Hi. unfold u8. apply Z.mod_pow2_bits_low. lia. Qed.

(** X14.  [GPIOX_WriteBit] reads the pin register once and writes it
    back once, with exactly the bits of the mask [data] set to [state]
    and every other bit as it was read. *)
Theorem GPIOX_WriteBit_bits data state (s : World D) :
  exists v v',
    0 <= v < 256 /\ 0 <= v' < 256 /\
    GPIOX_WriteBit data state s =
      Ok tt (extend s (wire_rd (REG_GPIOX + RAM_REG) [v]
                         ++ wire_wr8 (REG_GPIOX + RAM_REG) v')) /\
    forall i, 0 <= i < 8 ->
      Z.testbit v' i = if Z.testbit data i then state else Z.testbit v i.
Proof.
  destruct (rd8_byte (REG_GPIOX + RAM_REG) s) as (v & Hv & Hrd).
  unfold GPIOX_WriteBit. destruct state.
  - exists v, (u8 (Z.lor v (u8 data))). split; [exact Hv|].
    split; [apply u8_range|]. split.
    + rewrite (bind_run _ _ _ _ _ Hrd), wr8_run, extend_extend, wire_wr8_u8.
      reflexivity.
    + intros i Hi. rewrite u8_testbit, Z.lor_spec, u8_testbit by exact Hi.
      destruct (Z.testbit data i); [apply orb_true_r | apply orb_false_r].
  - exists v, (u8 (Z.land v (u8 (Z.lnot (u8 data))))). split; [exact Hv|].
    split; [apply u8_range|]. split.
    + rewrite (bind_run _ _ _ _ _ Hrd), wr8_run, extend_extend, wire_wr8_u8.
      reflexivity.
    + intros i Hi.
      rewrite u8_testbit, Z.land_spec, u8_testbit, Z.lnot_spec, u8_testbit by lia.
      destruct (Z.testbit data i); [apply andb_false_r | apply andb_true_r].
Qed.

Lemma WriteBit_if (c : bool) :
  (if c then GPIOX_WriteBit SDA true else GPIOX_WriteBit SDA false)
  = GPIOX_WriteBit SDA c.
Proof. destruct c; reflexivity. Qed.

Lemma mask_is_testbit data (p : Z * Z) :
  In p [(0x80, 7); (0x40, 6); (0x20, 5); (0x10, 4); (0x08, 3); (0x04, 2); (0x02, 1); (0x01, 0)] ->
  negb (Z.land (u8 data) (fst p) =? 0) = Z.testbit data (snd p).
Proof.
  intros Hp.
  assert (Hk : 0 <= snd p < 8).
  { cbn [In] in Hp. repeat (destruct Hp as [<-|Hp]; [cbn [snd]; lia|]). contradiction. }
  rewrite <- (u8_testbit data (snd p) Hk).
  pose proof (u8_range data) as Hd. generalize dependent (u8 data). intros d Hd.
  assert (H : forallb
                (fun n =>
                   forallb (fun p => Bool.eqb (negb (Z.land (Z.of_nat n) (fst p) =? 0))
                                       (Z.testbit (Z.of_nat n) (snd p)))
                     [(0x80, 7); (0x40, 6); (0x20, 5); (0x10, 4);
                      (0x08, 3); (0x04, 2); (0x02, 1); (0x01, 0)])
                (seq 0 256) = true) by (vm_compute; reflexivity).
  rewrite forallb_forall in H.
  specialize (H (Z.to_nat d) ltac:(apply in_seq; lia)). rewrite Z2Nat.id in H by lia.
  rewrite forallb_forall in H. apply Bool.eqb_prop, H, Hp.
Qed.

(** X15.  [MO_SPIBB_Send] sets the pin directions and levels and then
    clocks out nine bits through [GPIOX_WriteBit]: the command/data flag
    first, then the eight bits of the byte from the most significant
    one down; every bit is put on the data pin while the clock is low
    and the clock is raised after it.  The clock is left low. *)
Theorem MO_SPIBB_Send_bits (type : bool) (data : Z) (s : World D) :
  MO_SPIBB_Send type data s =
  (wr16 (REG_GPIOX_DIR + RAM_REG) 0x80ff ;;
   wr16 (REG_GPIOX + RAM_REG) 0x80f0 ;;
   clock_out_bit type ;;
   clock_out (map (Z.testbit data) [7; 6; 5; 4; 3; 2; 1; 0]) ;;
   GPIOX_WriteBit SCL false) s.
Proof.
  unfold MO_SPIBB_Send.
  replace (if negb type
           then GPIOX_WriteBit SCL false ;; GPIOX_WriteBit SDA false ;; GPIOX_WriteBit SCL true
           else GPIOX_WriteBit SCL false ;; GPIOX_WriteBit SDA true ;; GPIOX_WriteBit SCL true)
    with (clock_out_bit type) by (destruct type; reflexivity).
  replace (MO_SPIBB_Send_loop 8 (u8 data) 0x80 0)
    with (clock_out (map (Z.testbit data) [7; 6; 5; 4; 3; 2; 1; 0])); [reflexivity|].
  cbn [map clock_out].
  pose proof (mask_is_testbit data (0x80, 7) ltac:(cbn [In]; auto 10)) as H7;
    cbn [fst snd] in H7; rewrite <- H7; clear H7.
  pose proof (mask_is_testbit data (0x40, 6) ltac:(cbn [In]; auto 10)) as H6;
    cbn [fst snd] in H6; rewrite <- H6; clear H6.
  pose proof (mask_is_testbit data (0x20, 5) ltac:(cbn [In]; auto 10)) as H5;
    cbn [fst snd] in H5; rewrite <- H5; clear H5.
  pose proof (mask_is_testbit data (0x10, 4) ltac:(cbn [In]; auto 10)) as H4;
    cbn [fst snd] in H4; rewrite <- H4; clear H4.
  pose proof (mask_is_testbit data (0x08, 3) ltac:(cbn [In]; auto 10)) as H3;
    cbn [fst snd] in H3; rewrite <- H3; clear H3.
  pose proof (mask_is_testbit data (0x04, 2) ltac:(cbn [In]; auto 10)) as H2;
    cbn [fst snd] in H2; rewrite <- H2; clear H2.
  pose proof (mask_is_testbit data (0x02, 1) ltac:(cbn [In]; auto 10)) as H1;
    cbn [fst snd] in H1; rewrite <- H1; clear H1.
  pose proof (mask_is_testbit data (0x01, 0) ltac:(cbn [In]; auto 10)) as H0;
    cbn [fst snd] in H0; rewrite <- H0; clear H0.
  rewrite <- !WriteBit_if. reflexivity.
Qed.

End BitBang.

Lemma u8_eq_bits x y :
  (forall i, 0 <= i < 8 -> Z.testbit x i = Z.testbit y i) -> u8 x = u8 y.
Proof.
  intros H. apply Z.bits_inj'. intros i Hi. unfold u8.
  destruct (Z.lt_ge_cases i 8) as [Hlt|Hge].
  - rewrite !Z.mod_pow2_bits_low by lia. apply H. lia.
  - rewrite !Z.mod_pow2_bits_high by lia. reflexivity.
Qed.

Lemma wire_wr8_same8 a x y : u8 x = u8 y -> wire_wr8 a x = wire_wr8 a y.
Proof. intros H. unfold wire_wr8. rewrite H. reflexivity. Qed.

Section ChipSelect.

Context {D : Type} {dev : Chip D} {regs : eve_h} {cmds : eve_h_commands}.

(** X16.  [MO_SPIBB_CS] sets the pin directions and then does what
    [GPIOX_WriteBit] does for the chip-select mask: it clears the pin
    for 0, sets it for 1, and leaves the pins alone for any other
    argument, for which the [switch] has no case. *)
Theorem MO_SPIBB_CS_is_WriteBit enable (s : World D) :
  MO_SPIBB_CS enable s =
  (wr16 (REG_GPIOX_DIR + RAM_REG) 0x00f7 ;;
   if u8 enable =? 0 then GPIOX_WriteBit CS false
   else if u8 enable =? 1 then GPIOX_WriteBit CS true
   else ret tt) s.
Proof.
  unfold MO_SPIBB_CS. rewrite !(bind_run _ _ _ _ _ (wr16_run _ _ _)).
  set (s1 := extend s _).
  destruct (rd8_byte (REG_GPIOX + RAM_REG) s1) as (v & Hv & Hrd).
  destruct (u8 enable =? 0); [|destruct (u8 enable =? 1); [|reflexivity]];
    unfold GPIOX_WriteBit; rewrite !(bind_run _ _ _ _ _ Hrd), !wr8_run; do 2 f_equal.
  apply wire_wr8_same8, u8_eq_bits. intros i Hi.
  rewrite !Z.land_spec, u8_testbit, !Z.lnot_spec, u8_testbit by lia. reflexivity.
Qed.

(** X17.  [Cmd_READ_REG_ID] spells out the three address bytes 0x30,
    0x20 and the register offset.  With the register window at 0x302000
    and an offset that fits a byte this is [rd8] of the identification
    register, and the result is 1 exactly when the chip answers 0x7C. *)
Theorem Cmd_READ_REG_ID_is_rd8 (s : World D) :
  RAM_REG = 0x302000 -> 0 <= REG_ID < 256 ->
  Cmd_READ_REG_ID s =
  (v <- rd8 (REG_ID + RAM_REG) ;; ret (if v =? 0x7C then 1 else 0)) s.
Proof.
  intros Hbase Hid. rewrite Hbase.
  pose proof (rd_address_bits (REG_ID + 0x302000)) as Hbits.
  assert (E2 : bits_16_21 (REG_ID + 0x302000) = 0x30).
  { unfold bits_16_21. change (2^16) with 65536. change (2^6) with 64.
    replace ((REG_ID + 0x302000) / 65536) with 48
      by (apply Z.div_unique with (r := REG_ID + 0x2000); lia).
    reflexivity. }
  assert (E1 : byte1 (REG_ID + 0x302000) = 0x20).
  { unfold byte1. change (2^8) with 256.
    replace ((REG_ID + 0x302000) / 256) with 12320
      by (apply Z.div_unique with (r := REG_ID); lia).
    reflexivity. }
  assert (E0 : byte0 (REG_ID + 0x302000) = REG_ID).
  { unfold byte0. change (2^8) with 256. symmetry.
    apply Z.mod_unique with (q := 12320); lia. }
  rewrite E2, E1, E0 in Hbits.
  rewrite (bind_run _ _ _ _ _ (rd8_run _ _)).
  unfold wire_rd, rd_query. rewrite Hbits.
  unfold Cmd_READ_REG_ID. repeat hal_step. simpl app.
  change (u8 48) with 48. change (u8 32) with 32. rewrite (u8_small REG_ID Hid).
  set (reply := answer 1 _ s).
  destruct (bytes1 reply (answer_length _ _ _) (answer_bytes _ _ _)) as (b0 & E & ?).
  rewrite E. cbn [nth le_value map app]. rewrite Z.mul_0_r, Z.add_0_r.
  destruct (b0 =? 124); reflexivity.
Qed.

End ChipSelect.

(** The BT81x values: register window at 0x302000, REG_ID at offset 0. *)
Lemma Cmd_READ_REG_ID_is_rd8_witness :
  RAM_REG = 0x302000 /\ 0 <= REG_ID < 256 /\
  Cmd_READ_REG_ID boot = (v <- rd8 (REG_ID + RAM_REG) ;; ret (if v =? 0x7C then 1 else 0)) boot.
Proof.
  assert (H1 : RAM_REG = 0x302000) by reflexivity.
  assert (H2 : 0 <= REG_ID < 256) by (cbn; lia).
  split; [exact H1|]. split; [exact H2|].
  exact (Cmd_READ_REG_ID_is_rd8 boot H1 H2).
Defined.

(* ------------------------------------------------------------------ *)
(** ** Waiting for the FIFO to drain *)

Section Draining.

Context {D : Type} {dev : Chip D} {regs : eve_h}.

(** One turn of the loop on the bus: the read cursor is read, the
    recovery runs if and only if it shows the fault sentinel, the write
    cursor is read. *)
Lemma Wait4CoProFIFOEmpty_turn_run (s : World D) :
  exists rd mid wr,
    Wait4CoProFIFOEmpty_turn s =
      Ok (negb (le_value rd =? le_value wr))
         (extend s (wire_rd (REG_CMD_READ + RAM_REG) rd ++ mid
                      ++ wire_rd (REG_CMD_WRITE + RAM_REG) wr)) /\
    (mid = [] \/ le_value rd = 0xFFF).
Proof.
  unfold Wait4CoProFIFOEmpty_turn.
  pose proof (rd16_run (REG_CMD_READ + RAM_REG) s) as Hrd. cbv zeta in Hrd.
  set (rd := answer 2 _ s) in Hrd.
  rewrite (bind_run _ _ _ _ _ Hrd).
  destruct (Z.eqb_spec (le_value rd) 0xFFF) as [Hfault|Hok].
  - destruct (recover_from_fault_run (extend s (wire_rd (REG_CMD_READ + RAM_REG) rd)))
      as (chars & patch & _ & _ & Hrec).
    rewrite (bind_run _ _ _ _ _ Hrec), extend_extend.
    rewrite (bind_run _ _ _ _ _ (rd16_run _ _)), extend_extend.
    eexists rd, _, _. split; [unfold ret; rewrite <- app_assoc; reflexivity|].
    right. exact Hfault.
  - unfold ret at 1. unfold bind at 1.
    rewrite (bind_run _ _ _ _ _ (rd16_run _ _)), extend_extend.
    eexists rd, [], _. split; [reflexivity|]. left. reflexivity.
Qed.

(** A wait that returns has only put events on the bus. *)
Lemma Wait4CoProFIFOEmpty_extend (polls : nat) (s s' : World D) :
  Wait4CoProFIFOEmpty polls s = Ok tt s' -> exists evs, s' = extend s evs.
Proof.
  revert s. induction polls as [|polls IH]; intros s Hrun; [discriminate|].
  cbn [Wait4CoProFIFOEmpty] in Hrun.
  destruct (Wait4CoProFIFOEmpty_turn_run s) as (rd & mid & wr & Hturn & _).
  rewrite (bind_run _ _ _ _ _ Hturn) in Hrun.
  destruct (negb (le_value rd =? le_value wr)).
  - destruct (IH _ Hrun) as (evs & ->). eexists. apply extend_extend.
  - unfold ret in Hrun. injection Hrun as <-. eexists. reflexivity.
Qed.

(** X18.  When [Wait4CoProFIFOEmpty] returns, the last turn of its loop
    has read the same value from the read cursor and from the write
    cursor, with nothing between the two reads unless the value is the
    fault sentinel; and whatever happened before, recoveries included,
    the host's own write cursor is what it was. *)
Theorem Wait4CoProFIFOEmpty_returns (polls : nat) (s s' : World D) :
  Wait4CoProFIFOEmpty polls s = Ok tt s' ->
  FifoWriteLocation s' = FifoWriteLocation s /\
  exists before rd mid wr,
    wire s' = wire s ++ before
                ++ wire_rd (REG_CMD_READ + RAM_REG) rd ++ mid
                ++ wire_rd (REG_CMD_WRITE + RAM_REG) wr /\
    le_value rd = le_value wr /\
    (mid = [] \/ le_value rd = 0xFFF).
Proof.
  revert s. induction polls as [|polls IH]; intros s Hrun; [discriminate|].
  cbn [Wait4CoProFIFOEmpty] in Hrun.
  destruct (Wait4CoProFIFOEmpty_turn_run s) as (rd & mid & wr & Hturn & Hmid).
  rewrite (bind_run _ _ _ _ _ Hturn) in Hrun.
  destruct (Z.eqb_spec (le_value rd) (le_value wr)) as [Heq|Hne]; cbn [negb] in Hrun.
  - unfold ret in Hrun. injection Hrun as <-. split; [reflexivity|].
    exists [], rd, mid, wr. split; [reflexivity|]. split; assumption.
  - destruct (IH _ Hrun) as (Hcur & before & rd' & mid' & wr' & Hwire & Heq & Hmid').
    split; [rewrite Hcur; reflexivity|].
    exists (wire_rd (REG_CMD_READ + RAM_REG) rd ++ mid
              ++ wire_rd (REG_CMD_WRITE + RAM_REG) wr ++ before), rd', mid', wr'.
    split; [|split; assumption].
    rewrite Hwire. cbn [extend wire]. rewrite <- !app_assoc. reflexivity.
Qed.

End Draining.

(** On the chip that has just faulted, two turns: the recovery in the
    first, both cursors read as 0 in the second. *)
Lemma Wait4CoProFIFOEmpty_returns_witness :
  exists s',
    Wait4CoProFIFOEmpty 2 faulted = Ok tt s' /\
    FifoWriteLocation s' = FifoWriteLocation faulted.
Proof.
  eassert (Hrun : Wait4CoProFIFOEmpty 2 faulted = Ok tt _) by (vm_compute; reflexivity).
  eexists. split; [exact Hrun|].
  exact (proj1 (Wait4CoProFIFOEmpty_returns 2 faulted _ Hrun)).
Defined.

(* ------------------------------------------------------------------ *)
(** ** Bulk upload: the bytes that reach the FIFO *)

(** The payload of the buffer writes among the events. *)
Definition uploaded (evs : list Event) : list Z :=
  flat_map (fun e => match e with SPI_WriteBuffer bs => bs | _ => [] end) evs.

Lemma uploaded_app e1 e2 : uploaded (e1 ++ e2) = uploaded e1 ++ uploaded e2.
Proof. apply flat_map_app. Qed.

Lemma uploaded_Writes bs : uploaded (map SPI_Write bs) = [].
Proof. induction bs as [|b bs IH]; [reflexivity | exact IH]. Qed.

Lemma uploaded_wire_rd a reply : uploaded (wire_rd a reply) = [].
Proof.
  unfold wire_rd. change (SPI_Enable :: ?l) with ([SPI_Enable] ++ l).
  rewrite !uploaded_app, uploaded_Writes. reflexivity.
Qed.

Lemma uploaded_wire_wr16 a v : uploaded (wire_wr16 a v) = [].
Proof.
  unfold wire_wr16. change (SPI_Enable :: ?l) with ([SPI_Enable] ++ l).
  rewrite !uploaded_app, uploaded_Writes. reflexivity.
Qed.

Lemma peek_app host p n m :
  0 <= n -> 0 <= m -> peek host p n ++ peek host (p + n) m = peek host p (n + m).
Proof.
  intros Hn Hm. unfold peek. rewrite Z2Nat.inj_add, seq_app, map_app by lia.
  f_equal. cbn [Nat.add].
  rewrite <- (map_seq_from (fun i => u8 (host (p + Z.of_nat i))) (Z.to_nat n)).
  apply map_ext. intros i. do 2 f_equal. lia.
Qed.

Section UploadedBytes.

Context {D : Type} {dev : Chip D} {regs : eve_h}.

Lemma uploaded_wire_wait busy last : uploaded (wire_wait busy last) = [].
Proof.
  unfold wire_wait, wire_poll. rewrite uploaded_app.
  rewrite !uploaded_app, !uploaded_wire_rd, app_nil_r.
  induction busy as [|p busy IH]; [reflexivity|].
  cbn [flat_map]. rewrite !uploaded_app, !uploaded_wire_rd. exact IH.
Qed.

Lemma uploaded_wire_chunk loc payload : uploaded (wire_chunk loc payload) = payload.
Proof.
  unfold wire_chunk. change (SPI_Enable :: ?l) with ([SPI_Enable] ++ l).
  rewrite !uploaded_app, uploaded_Writes. cbn [uploaded flat_map app].
  apply app_nil_r.
Qed.

Lemma upload_on_wire_bytes host buff loc sizes evs loc' :
  upload_on_wire host buff loc sizes evs loc' ->
  0 <= loc < FT_CMD_FIFO_SIZE ->
  Forall (fun n => 0 <= n) sizes ->
  uploaded evs = peek host buff (fold_right Z.add 0 sizes) /\
  loc' = (loc + fold_right Z.add 0 sizes) mod FT_CMD_FIFO_SIZE.
Proof.
  intros Hwire. induction Hwire as [buff loc | buff loc n rest busy last evs loc' _ _ _ IH];
    intros Hloc Hsizes.
  - cbn [fold_right]. split; [reflexivity|].
    rewrite Z.add_0_r. symmetry. apply Z.mod_small. exact Hloc.
  - inversion Hsizes as [|? ? Hn Hrest]; subst.
    assert (Hsum : 0 <= fold_right Z.add 0 rest).
    { clear - Hrest. induction Hrest; cbn [fold_right]; lia. }
    destruct IH as [Hbytes Hloc'];
      [apply Z.mod_pos_bound; reflexivity | exact Hrest |].
    cbn [fold_right]. split.
    + rewrite !uploaded_app, uploaded_wire_wait, uploaded_wire_chunk, uploaded_wire_wr16.
      cbn [app]. rewrite Hbytes. apply peek_app; assumption.
    + rewrite Hloc'. unfold FT_CMD_FIFO_SIZE. rewrite Zplus_mod_idemp_l.
      f_equal. lia.
Qed.

Lemma round_up4_add_512 x (k : nat) :
  round_up4 (x - WorkBuffSz * Z.of_nat k) + WorkBuffSz * Z.of_nat k = round_up4 x.
Proof.
  unfold round_up4, WorkBuffSz.
  replace (x + 3) with (x - 512 * Z.of_nat k + 3 + (128 * Z.of_nat k) * 4) by lia.
  rewrite Z.div_add by lia. lia.
Qed.

Lemma sum_chunks (k : nat) last :
  fold_right Z.add 0 (repeat WorkBuffSz k ++ [last]) = last + WorkBuffSz * Z.of_nat k.
Proof.
  induction k as [|k IH]; cbn [repeat app fold_right]; [lia|].
  rewrite IH. lia.
Qed.

(** What an upload that returns has put on the bus and done to the
    write cursor. *)
Lemma CoProWrCmdBuf_delivers polls host buff count (s s' : World D) :
  0 <= count < 2^31 ->
  0 <= FifoWriteLocation s < FT_CMD_FIFO_SIZE ->
  CoProWrCmdBuf polls host buff count s = Ok tt s' ->
  exists evs,
    wire s' = wire s ++ evs /\
    uploaded evs = peek host buff (round_up4 count) /\
    FifoWriteLocation s' = (FifoWriteLocation s + round_up4 count) mod FT_CMD_FIFO_SIZE.
Proof.
  intros Hcount Hloc Hrun.
  set (k := Z.to_nat (if count <=? 0 then 0 else (count - 1) / WorkBuffSz)).
  assert (Hk : 0 <= count - WorkBuffSz * Z.of_nat k <= WorkBuffSz /\
               ((0 < k)%nat -> 0 < count - WorkBuffSz * Z.of_nat k)).
  { unfold k, WorkBuffSz. destruct (Z.leb_spec count 0).
    - simpl. lia.
    - pose proof (Z.div_mod (count - 1) 512 ltac:(lia)).
      pose proof (Z.mod_pos_bound (count - 1) 512 ltac:(lia)).
      assert (0 <= (count - 1) / 512) by (apply Z.div_pos; lia).
      rewrite Z2Nat.id by lia. lia. }
  destruct Hk as [Hrem Hpos].
  unfold CoProWrCmdBuf in Hrun. rewrite (u32_small count) in Hrun by lia.
  rewrite (s32_small count) in Hrun by lia.
  rewrite (CoProWrCmdBuf_loop_chunks polls host k) in Hrun by (assumption || lia).
  destruct (upload_spec_on_wire _ _ _ _ _ _ Hrun) as (evs & Hwire & Hevs).
  pose proof (round_up4_bounds (count - WorkBuffSz * Z.of_nat k) ltac:(lia)) as [Hlast _].
  apply upload_on_wire_bytes in Hwire; [|exact Hloc|].
  2:{ apply Forall_app. split.
      - apply Forall_forall. intros n Hn. apply repeat_spec in Hn. subst n.
        unfold WorkBuffSz. lia.
      - constructor; [lia | constructor]. }
  rewrite sum_chunks, round_up4_add_512 in Hwire. destruct Hwire as [Hbytes Hcur].
  exists evs. split; [exact Hevs|]. split; [exact Hbytes | exact Hcur].
Qed.

(** X19.  When an upload of [count] bytes returns, the buffer writes on
    the bus carry, in order and with nothing repeated or left out, the
    [count] bytes of the buffer followed by the bytes that lie after
    it in memory up to the next multiple of 4 (three at most), and the
    write cursor has advanced by that many bytes modulo the FIFO size. *)
Theorem upload_delivers_buffer polls host buff count (s s' : World D) :
  0 <= count < 2^31 ->
  0 <= FifoWriteLocation s < FT_CMD_FIFO_SIZE ->
  CoProWrCmdBuf polls host buff count s = Ok tt s' ->
  exists evs,
    wire s' = wire s ++ evs /\
    uploaded evs = peek host buff (round_up4 count) /\
    firstn (Z.to_nat count) (uploaded evs) = peek host buff count /\
    FifoWriteLocation s' = (FifoWriteLocation s + round_up4 count) mod FT_CMD_FIFO_SIZE.
Proof.
  intros Hcount Hloc Hrun.
  destruct (CoProWrCmdBuf_delivers _ _ _ _ _ _ Hcount Hloc Hrun) as (evs & Hevs & Hbytes & Hcur).
  exists evs. split; [exact Hevs|]. split; [exact Hbytes|]. split; [|exact Hcur].
  rewrite Hbytes. pose proof (round_up4_bounds count ltac:(lia)) as [Hup _].
  replace (round_up4 count) with (count + (round_up4 count - count)) by lia.
  rewrite <- peek_app by lia.
  rewrite firstn_app.
  assert (Hlen : length (peek host buff count) = Z.to_nat count)
    by (unfold peek; rewrite length_map, length_seq; reflexivity).
  rewrite Hlen, Nat.sub_diag, firstn_O, app_nil_r.
  rewrite <- Hlen. apply firstn_all.
Qed.

End UploadedBytes.

(** 1030 bytes uploaded to the blank chip: 1032 bytes reach the FIFO,
    the buffer and the two bytes after it. *)
Lemma upload_delivers_buffer_witness :
  0 <= 1030 < 2^31 /\
  0 <= FifoWriteLocation boot < FT_CMD_FIFO_SIZE /\
  exists s' evs,
    CoProWrCmdBuf 1 (fun i => i) 0 1030 boot = Ok tt s' /\
    wire s' = wire boot ++ evs /\
    uploaded evs = peek (fun i => i) 0 1032 /\
    FifoWriteLocation s' = 1032.
Proof.
  assert (H1 : 0 <= 1030 < 2^31) by lia.
  assert (H2 : 0 <= FifoWriteLocation boot < FT_CMD_FIFO_SIZE)
    by (unfold FT_CMD_FIFO_SIZE; simpl; lia).
  split; [exact H1|]. split; [exact H2|].
  eassert (Hrun : CoProWrCmdBuf 1 (fun i => i) 0 1030 boot = Ok tt _)
    by (vm_compute; reflexivity).
  destruct (upload_delivers_buffer 1 (fun i => i) 0 1030 boot _ H1 H2 Hrun)
    as (evs & Hwire & Hbytes & _ & Hcur).
  eexists _, evs. split; [exact Hrun|]. split; [exact Hwire|].
  split; [exact Hbytes | exact Hcur].
Defined.

(* ------------------------------------------------------------------ *)
(** ** Addresses beyond the 22-bit address space *)

Lemma rd_address_alias a k : rd_address (a + k * 2^22) = rd_address a.
Proof.
  rewrite !rd_address_bits.
  assert (E2 : bits_16_21 (a + k * 2^22) = bits_16_21 a).
  { unfold bits_16_21.
    replace (a + k * 2^22) with (a + (k * 2^6) * 2^16)
      by (change (2^22) with (2^6 * 2^16); ring).
    rewrite Z.div_add by lia. apply Z_mod_plus_full. }
  assert (E1 : byte1 (a + k * 2^22) = byte1 a).
  { unfold byte1.
    replace (a + k * 2^22) with (a + (k * 2^14) * 2^8)
      by (change (2^22) with (2^14 * 2^8); ring).
    rewrite Z.div_add by lia.
    replace (k * 2^14) with ((k * 2^6) * 2^8) by (change (2^14) with (2^6 * 2^8); ring).
    apply Z_mod_plus_full. }
  assert (E0 : byte0 (a + k * 2^22) = byte0 a).
  { unfold byte0.
    replace (a + k * 2^22) with (a + (k * 2^14) * 2^8)
      by (change (2^22) with (2^14 * 2^8); ring).
    apply Z_mod_plus_full. }
  rewrite E2, E1, E0. reflexivity.
Qed.

Section Aliasing.

Context {D : Type} {dev : Chip D} {regs : eve_h} {cmds : eve_h_commands}.

(** X20.  The reads mask the first address byte to six bits, so a read
    sees only bits 0..21 of its address: adding any multiple of 2^22
    leaves the bus traffic, the chip and the value read the same. *)
Theorem reads_alias address k size (s : World D) :
  rd8 (address + k * 2^22) s = rd8 address s /\
  rd16 (address + k * 2^22) s = rd16 address s /\
  rd32 (address + k * 2^22) s = rd32 address s /\
  rdN (address + k * 2^22) size s = rdN address size s.
Proof.
  rewrite !rd8_run, !rd16_run, !rd32_run, !rdN_run. cbv zeta.
  unfold wire_rd, wire_rd32, rd_query, rd32_query.
  rewrite !rd_address_alias. repeat split.
Qed.

End Aliasing.

(** The writes do not mask: bit 22 of the address reaches the first
    byte, which then no longer says "write" (10xxxxxx). *)
Example writes_do_not_alias :
  wr_address 0x302000 = [0xB0; 0x20; 0x00] /\
  wr_address (0x302000 + 2^22) = [0xF0; 0x20; 0x00].
Proof. split; reflexivity. Qed.

(* ------------------------------------------------------------------ *)
(** ** Registers written and read back *)

Lemma le_value_le_bytes v : le_value (le_bytes v) = u32 v.
Proof.
  unfold le_bytes, byte0, byte1, byte2, byte3, u32. cbn [le_value].
  change (2^32) with (2^8 * (2^8 * (2^8 * 2^8))).
  rewrite (Z.rem_mul_r v (2^8)) by lia.
  rewrite (Z.rem_mul_r (v / 2^8) (2^8)) by lia.
  rewrite (Z.rem_mul_r (v / 2^8 / 2^8) (2^8)) by lia.
  rewrite !Z.div_div by lia.
  change (2^8 * 2^8 * 2^8) with (2^24). change (2^8 * 2^8) with (2^16). lia.
Qed.

Lemma le_value_2 v : le_value [byte0 v; byte1 v] = u16 v.
Proof.
  unfold byte0, byte1, u16. cbn [le_value].
  change (2^16) with (2^8 * 2^8). rewrite (Z.rem_mul_r v (2^8)) by lia. lia.
Qed.

Lemma byte_ranges v :
  0 <= byte0 v < 256 /\ 0 <= byte1 v < 256 /\ 0 <= byte2 v < 256 /\ 0 <= byte3 v < 256.
Proof.
  unfold byte0, byte1, byte2, byte3. change 256 with (2^8).
  repeat split; apply Z.mod_pos_bound; reflexivity.
Qed.

Lemma ram_wr16 a v (d : ram) :
  0 <= a < 2^22 ->
  chip_play (wire_wr16 a v) d = mkRam ((a + 1, byte1 v) :: (a, byte0 v) :: mem d) [] 0.
Proof.
  intros Ha. unfold wire_wr16. rewrite (wr_address_bits a Ha).
  destruct (write_command_byte _ (bits_16_21_range a)) as [Hbit Hland].
  cbn [app map chip_play chip_select chip_mosi chip_deselect ram_chip].
  unfold select at 2.
  rewrite !mosi_header by (cbn [length app]; lia). cbn [app].
  rewrite !mosi_payload by (cbn [nth length]; first [reflexivity | exact Hbit]).
  unfold select. cbn [mem]. unfold addr_of. cbn [nth].
  rewrite Hland, Z.add_0_r, (address_bits_join a Ha). reflexivity.
Qed.

Lemma ram_wr32 a v (d : ram) :
  0 <= a < 2^22 ->
  chip_play (wire_wr32 a v) d =
  mkRam ((a + 3, byte3 v) :: (a + 2, byte2 v) :: (a + 1, byte1 v) :: (a, byte0 v) :: mem d)
    [] 0.
Proof.
  intros Ha. unfold wire_wr32. rewrite (wr_address_bits a Ha).
  destruct (write_command_byte _ (bits_16_21_range a)) as [Hbit Hland].
  cbn [app chip_play chip_select chip_mosi chip_deselect ram_chip].
  unfold chip_feed. cbn [fold_left chip_mosi ram_chip].
  unfold select at 2.
  rewrite !mosi_header by (cbn [length app]; lia). cbn [app].
  rewrite !mosi_payload by (cbn [nth length]; first [reflexivity | exact Hbit]).
  unfold select. cbn [mem]. unfold addr_of. cbn [nth].
  rewrite Hland, (address_bits_join a Ha).
  repeat (f_equal; try lia).
Qed.

Lemma load_here a b m : load ((a, b) :: m) a = b.
Proof. unfold load. cbn [find fst]. rewrite Z.eqb_refl. reflexivity. Qed.

Lemma load_skip a a' b m : a' <> a -> load ((a', b) :: m) a = load m a.
Proof.
  intros H. unfold load. cbn [find fst].
  destruct (Z.eqb_spec a' a); [contradiction | reflexivity].
Qed.

Lemma ram_answer (n : nat) a (s : World ram) :
  0 <= a < 2^22 ->
  answer n (rd_query a) s
  = map (fun i => u8 (load (mem (chip s)) (a + Z.of_nat i))) (seq 0 n).
Proof.
  intros Ha. unfold answer. rewrite ram_rd_query, ram_burst. cbn [fst].
  rewrite (addr_of_rd_address a Ha). apply map_ext. intros i. rewrite Z.add_0_r.
  reflexivity.
Qed.

(** X21.  On the memory-mapped chip a register written with [wr8],
    [wr16] or [wr32] reads back through [rd8], [rd16] or [rd32] as the
    value written, cut to its width: the writes send the least
    significant byte first and the reads assemble the bytes in the
    same order. *)
Theorem register_round_trip a v (s : World ram) :
  0 <= a -> a + 4 <= 2^22 ->
  (exists s1 s2, wr8 a v s = Ok tt s1 /\ rd8 a s1 = Ok (u8 v) s2) /\
  (exists s1 s2, wr16 a v s = Ok tt s1 /\ rd16 a s1 = Ok (u16 v) s2) /\
  (exists s1 s2, wr32 a v s = Ok tt s1 /\ rd32 a s1 = Ok (u32 v) s2).
Proof.
  intros Ha0 Ha4. change (2^22) with 4194304 in Ha4.
  assert (Ha : 0 <= a < 2^22) by (change (2^22) with 4194304; lia).
  destruct (byte_ranges v) as (H0 & H1 & H2 & H3).
  split; [|split].
  - eexists _, _. split; [apply wr8_run|].
    rewrite rd8_run. cbv zeta. f_equal.
    rewrite (ram_answer 1 a _ Ha). cbn [seq map le_value extend chip].
    rewrite (ram_wr8 a v _ Ha). cbn [mem]. change (Z.of_nat 0) with 0.
    rewrite (Z.add_0_r a), load_here, u8_u8. lia.
  - eexists _, _. split; [apply wr16_run|].
    rewrite rd16_run. cbv zeta. f_equal.
    rewrite (ram_answer 2 a _ Ha). cbn [seq map extend chip].
    rewrite (ram_wr16 a v _ Ha). cbn [mem].
    change (Z.of_nat 0) with 0. change (Z.of_nat 1) with 1.
    rewrite (Z.add_0_r a), load_here, (load_skip a) by lia. rewrite load_here.
    rewrite (u8_small _ H0), (u8_small _ H1). apply le_value_2.
  - eexists _, _. split; [apply wr32_run|].
    rewrite rd32_run. cbv zeta. f_equal.
    unfold answer. rewrite rd32_query_chip. fold (answer 4 (rd_query a) (extend s (wire_wr32 a v))).
    rewrite (ram_answer 4 a _ Ha). cbn [seq map extend chip].
    rewrite (ram_wr32 a v _ Ha). cbn [mem].
    change (Z.of_nat 0) with 0. change (Z.of_nat 1) with 1.
    change (Z.of_nat 2) with 2. change (Z.of_nat 3) with 3.
    rewrite (Z.add_0_r a).
    rewrite load_here.
    rewrite (load_skip (a + 2)), load_here by lia.
    rewrite !(load_skip (a + 1)), load_here by lia.
    rewrite !(load_skip a), load_here by lia.
    rewrite (u8_small _ H0), (u8_small _ H1), (u8_small _ H2), (u8_small _ H3).
    apply le_value_le_bytes.
Qed.

(** The write-cursor register, written with 0x12345 and read back. *)
Lemma register_round_trip_witness :
  0 <= 0x3020FC /\ 0x3020FC + 4 <= 2^22 /\
  exists s1 s2, wr16 0x3020FC 0x12345 faulted = Ok tt s1 /\ rd16 0x3020FC s1 = Ok 0x2345 s2.
Proof.
  assert (H1 : 0 <= 0x3020FC) by lia.
  assert (H2 : 0x3020FC + 4 <= 2^22) by lia.
  split; [exact H1|]. split; [exact H2|].
  exact (proj1 (proj2 (register_round_trip 0x3020FC 0x12345 faulted H1 H2))).
Defined.

(* ------------------------------------------------------------------ *)
(** ** Callers of the FIFO engine: flash commands, touch firmware *)

(** One turn of the loop of [Wait4CoProFIFOEmpty] as the bus sees it:
    the two bytes read from the read cursor, the error text and the
    patch pointer read if the turn ran the recovery, the two bytes read
    from the write cursor. *)
Record turn : Type := mkTurn {
  turn_rd : list Z;
  turn_fault : option (list Z * list Z);
  turn_wr : list Z
}.

(** The loop condition, [ReadReg != rd16(REG_CMD_WRITE + RAM_REG)]. *)
Definition turn_again (t : turn) : bool :=
  negb (le_value (turn_rd t) =? le_value (turn_wr t)).

(** The recovery runs in a turn exactly when the read cursor showed the
    fault sentinel. *)
Definition turn_ok (t : turn) : Prop :=
  match turn_fault t with
  | Some _ => le_value (turn_rd t) = 0xFFF
  | None => le_value (turn_rd t) <> 0xFFF
  end.

Section Drained.

Context {D : Type} {dev : Chip D} {regs : eve_h}.

Definition wire_turn (t : turn) : list Event :=
  wire_rd (REG_CMD_READ + RAM_REG) (turn_rd t)
    ++ match turn_fault t with
       | Some (chars, patch) =>
           [Logged [10]] ++ wire_report chars 0 ++ [Logged [10]]
             ++ wire_recovery patch ++ [Delay 250]
       | None => []
       end
    ++ wire_rd (REG_CMD_WRITE + RAM_REG) (turn_wr t).

Definition wire_drain (busy : list turn) (last : turn) : list Event :=
  flat_map wire_turn busy ++ wire_turn last.

(** The events of a wait for the FIFO to drain that has returned: turns
    that each read two different cursors, then one turn that read the
    same value from both. *)
Definition drained (evs : list Event) : Prop :=
  exists busy last,
    evs = wire_drain busy last /\
    Forall turn_ok busy /\ turn_ok last /\
    Forall (fun t => turn_again t = true) busy /\
    turn_again last = false.

Lemma Wait4CoProFIFOEmpty_turn_wire (s : World D) :
  exists t,
    turn_ok t /\
    Wait4CoProFIFOEmpty_turn s = Ok (turn_again t) (extend s (wire_turn t)).
Proof.
  unfold Wait4CoProFIFOEmpty_turn.
  pose proof (rd16_run (REG_CMD_READ + RAM_REG) s) as Hrd. cbv zeta in Hrd.
  set (rd := answer 2 _ s) in Hrd.
  rewrite (bind_run _ _ _ _ _ Hrd).
  destruct (Z.eqb_spec (le_value rd) 0xFFF) as [Hfault|Hok].
  - destruct (recover_from_fault_run (extend s (wire_rd (REG_CMD_READ + RAM_REG) rd)))
      as (chars & patch & _ & _ & Hrec).
    rewrite (bind_run _ _ _ _ _ Hrec), extend_extend.
    rewrite (bind_run _ _ _ _ _ (rd16_run _ _)), extend_extend.
    eexists (mkTurn rd (Some (chars, patch)) _). split; [exact Hfault|].
    unfold ret, turn_again, wire_turn. cbn [turn_rd turn_fault turn_wr].
    rewrite <- !app_assoc. reflexivity.
  - unfold ret at 1. unfold bind at 1.
    rewrite (bind_run _ _ _ _ _ (rd16_run _ _)), extend_extend.
    eexists (mkTurn rd None _). split; [exact Hok|]. reflexivity.
Qed.

(** A wait that returns has put on the bus the turns of a drain, and
    nothing else. *)
Lemma Wait4CoProFIFOEmpty_drained (polls : nat) (s s' : World D) :
  Wait4CoProFIFOEmpty polls s = Ok tt s' ->
  exists drain, drained drain /\ s' = extend s drain.
Proof.
  revert s. induction polls as [|polls IH]; intros s Hrun; [discriminate|].
  cbn [Wait4CoProFIFOEmpty] in Hrun.
  destruct (Wait4CoProFIFOEmpty_turn_wire s) as (t & Hok & Hturn).
  rewrite (bind_run _ _ _ _ _ Hturn) in Hrun.
  destruct (turn_again t) eqn:Hagain.
  - destruct (IH _ Hrun) as (drain & (busy & last & -> & Hbusy & Hlast & Hmore & Hend) & ->).
    exists (wire_drain (t :: busy) last). split.
    + exists (t :: busy), last. split; [reflexivity|].
      split; [constructor; assumption|]. split; [exact Hlast|].
      split; [constructor; assumption | exact Hend].
    + rewrite extend_extend. unfold wire_drain. cbn [flat_map].
      rewrite <- app_assoc. reflexivity.
  - unfold ret in Hrun. injection Hrun as <-.
    exists (wire_drain [] t). split; [|reflexivity].
    exists [], t. split; [reflexivity|]. split; [constructor|].
    split; [exact Hok|]. split; [constructor | exact Hagain].
Qed.

(** A drain is never empty: its last turn reads both cursors. *)
Lemma drained_not_nil (evs : list Event) : drained evs -> evs <> [].
Proof.
  intros (busy & last & -> & _) E. unfold wire_drain in E.
  apply app_eq_nil in E. destruct E as [_ E].
  unfold wire_turn in E. apply app_eq_nil in E. destruct E as [E _].
  discriminate E.
Qed.

End Drained.

Section Flash.

Context {D : Type} {dev : Chip D} {regs : eve_h} {cmds : eve_h_commands}
        {flash : eve_h_flash}.

Lemma bind_assoc_at {A B C} (c : M D A) (k1 : A -> M D B) (k2 : B -> M D C)
    (s : World D) :
  bind (bind c k1) k2 s = bind c (fun a => bind (k1 a) k2) s.
Proof. unfold bind. destruct (c s) as [a s1| |]; reflexivity. Qed.

(** What a flash command has put on the bus when its wait returns: the
    words enqueued at the write cursor, the advanced cursor published,
    the turns of the wait for the FIFO to drain, and after them [rest]. *)
Definition flash_issue (words : list Z) (rest : list Event) (s s' : World D) : Prop :=
  let loc := FifoWriteLocation s in
  let loc' := (loc + 4 * Z.of_nat (length words)) mod FT_CMD_FIFO_SIZE in
  exists drain,
    drained drain /\
    wire s' = wire s
                ++ wire_enqueue loc words
                ++ wire_wr16 (REG_CMD_WRITE + RAM_REG) loc'
                ++ drain
                ++ rest /\
    FifoWriteLocation s' = loc'.

(** What a flash command that returns [b] has done: the command issued
    and waited for, then one read of the status register, whose value
    decides [b]. *)
Definition flash_command (words : list Z) (expected : Z) (s s' : World D) (b : bool)
  : Prop :=
  exists status,
    0 <= status < 256 /\
    flash_issue words (wire_rd (REG_FLASH_STATUS + RAM_REG) [status]) s s' /\
    b = (status =? expected).

Lemma flash_issue_run (words : list Z) (polls : nat) (s s' : World D) (b : bool) :
  cursor_ok (FifoWriteLocation s) ->
  (send_all words ;;
   UpdateFIFO ;;
   Wait4CoProFIFOEmpty polls ;;
   ret true) s = Ok b s' ->
  flash_issue words [] s s' /\ b = true.
Proof.
  intros Hs Hrun.
  rewrite (bind_run _ _ _ _ _ (send_all_enqueue words s Hs)) in Hrun.
  rewrite (bind_run _ _ _ _ _ (UpdateFIFO_run _)) in Hrun.
  apply bind_Ok in Hrun. destruct Hrun as ([] & s2 & Hwait & Hrun).
  destruct (Wait4CoProFIFOEmpty_drained _ _ _ Hwait) as (drain & Hdrain & ->).
  unfold ret in Hrun. injection Hrun as <- <-.
  split; [|reflexivity].
  exists drain. split; [exact Hdrain|].
  cbn [extend with_cursor wire FifoWriteLocation].
  rewrite app_nil_r, <- !app_assoc. auto.
Qed.

Lemma flash_command_run (words : list Z) (expected : Z) (polls : nat)
    (s s' : World D) (b : bool) :
  cursor_ok (FifoWriteLocation s) ->
  (send_all words ;;
   UpdateFIFO ;;
   Wait4CoProFIFOEmpty polls ;;
   FlashStatus <- rd8 (REG_FLASH_STATUS + RAM_REG) ;;
   if negb (FlashStatus =? expected) then ret false else ret true) s = Ok b s' ->
  flash_command words expected s s' b.
Proof.
  intros Hs Hrun.
  rewrite (bind_run _ _ _ _ _ (send_all_enqueue words s Hs)) in Hrun.
  rewrite (bind_run _ _ _ _ _ (UpdateFIFO_run _)) in Hrun.
  apply bind_Ok in Hrun. destruct Hrun as ([] & s2 & Hwait & Hrun).
  destruct (Wait4CoProFIFOEmpty_drained _ _ _ Hwait) as (drain & Hdrain & ->).
  destruct (rd8_byte (REG_FLASH_STATUS + RAM_REG)
              (extend (extend (with_cursor (extend s (wire_enqueue (FifoWriteLocation s) words))
                                 ((FifoWriteLocation s + 4 * Z.of_nat (length words))
                                    mod FT_CMD_FIFO_SIZE))
                         (wire_wr16 (REG_CMD_WRITE + RAM_REG)
                            ((FifoWriteLocation s + 4 * Z.of_nat (length words))
                               mod FT_CMD_FIFO_SIZE)))
                 drain)) as (status & Hstatus & Hrd).
  cbn [with_cursor FifoWriteLocation] in Hrun, Hrd.
  rewrite (bind_run _ _ _ _ _ Hrd) in Hrun.
  exists status. split; [exact Hstatus|].
  destruct (status =? expected); cbn [negb] in Hrun; unfold ret in Hrun;
    injection Hrun as <- <-; (split; [|reflexivity]); exists drain;
    (split; [exact Hdrain|]); cbn [extend with_cursor wire FifoWriteLocation];
    rewrite <- !app_assoc; auto.
Qed.

(** X22.  A flash command that returns has enqueued its words at the
    write cursor, published the advanced cursor and then waited for the
    FIFO to drain, turn after turn until the read cursor and the write
    cursor read the same; after the wait [FlashAttach], [FlashDetach]
    and [FlashFast] read the flash status once and return true exactly
    when it is the state they asked for, while [FlashErase] does
    nothing after the wait and returns true. *)
Theorem flash_commands_report_status (polls : nat) (s s' : World D) (b : bool) :
  cursor_ok (FifoWriteLocation s) ->
  (FlashAttach polls s = Ok b s' ->
   flash_command [CMD_FLASHATTACH] FLASH_STATUS_BASIC s s' b) /\
  (FlashDetach polls s = Ok b s' ->
   flash_command [CMD_FLASHDETACH] FLASH_STATUS_DETACHED s s' b) /\
  (FlashFast polls s = Ok b s' ->
   flash_command [CMD_FLASHFAST; 0] FLASH_STATUS_FULL s s' b) /\
  (FlashErase polls s = Ok b s' ->
   flash_issue [CMD_FLASHERASE] [] s s' /\ b = true).
Proof.
  intros Hs. split; [|split; [|split]].
  - intros Hrun. apply (flash_command_run _ _ polls _ _ _ Hs).
    unfold FlashAttach in Hrun. cbn [send_all].
    rewrite (bind_run _ _ _ _ _ (Send_CMD_run _ _)) in Hrun.
    rewrite bind_assoc_at, (bind_run _ _ _ _ _ (Send_CMD_run _ _)).
    exact Hrun.
  - intros Hrun. apply (flash_command_run _ _ polls _ _ _ Hs).
    unfold FlashDetach in Hrun. cbn [send_all].
    rewrite (bind_run _ _ _ _ _ (Send_CMD_run _ _)) in Hrun.
    rewrite bind_assoc_at, (bind_run _ _ _ _ _ (Send_CMD_run _ _)).
    exact Hrun.
  - intros Hrun. apply (flash_command_run _ _ polls _ _ _ Hs).
    unfold FlashFast, Cmd_Flash_Fast in Hrun. cbn [send_all].
    rewrite bind_assoc_at, (bind_run _ _ _ _ _ (Send_CMD_run _ _)) in Hrun.
    rewrite (bind_run _ _ _ _ _ (Send_CMD_run _ _)) in Hrun.
    rewrite bind_assoc_at, (bind_run _ _ _ _ _ (Send_CMD_run _ _)).
    rewrite bind_assoc_at, (bind_run _ _ _ _ _ (Send_CMD_run _ _)).
    exact Hrun.
  - intros Hrun. apply (flash_issue_run _ polls _ _ _ Hs).
    unfold FlashErase in Hrun. cbn [send_all].
    rewrite (bind_run _ _ _ _ _ (Send_CMD_run _ _)) in Hrun.
    rewrite bind_assoc_at, (bind_run _ _ _ _ _ (Send_CMD_run _ _)).
    exact Hrun.
Qed.

End Flash.

(** Flash constants of the BT81x family, and a chip whose coprocessor
    is idle and consumes what it is given. *)
#[export] Instance bt81x_flash : eve_h_flash := {
  CMD_FLASHATTACH := 0xFFFFFF49;
  CMD_FLASHDETACH := 0xFFFFFF48;
  CMD_FLASHFAST := 0xFFFFFF4A;
  CMD_FLASHERASE := 0xFFFFFF44;
  REG_FLASH_STATUS := 0x5F0;
  FLASH_STATUS_DETACHED := 1;
  FLASH_STATUS_BASIC := 2;
  FLASH_STATUS_FULL := 3
}.

Definition idle : World working :=
  mkWorld 0 (mkWorking blank 100) [].

(** [FlashAttach] on the idle chip, whose flash status reads 0: the
    command is consumed at once and the answer is false. *)
Lemma flash_commands_report_status_witness :
  cursor_ok (FifoWriteLocation idle) /\
  exists s',
    FlashAttach 1 idle = Ok false s' /\
    flash_command [CMD_FLASHATTACH] FLASH_STATUS_BASIC idle s' false.
Proof.
  assert (H : cursor_ok (FifoWriteLocation idle)).
  { split; [reflexivity|]. unfold FT_CMD_FIFO_SIZE. simpl. lia. }
  eassert (Hrun : FlashAttach 1 idle = Ok false _) by (vm_compute; reflexivity).
  split; [exact H|]. eexists. split; [exact Hrun|].
  exact (proj1 (flash_commands_report_status 1 idle _ false H) Hrun).
Defined.

Section TouchFirmware.

Context {D : Type} {dev : Chip D} {regs : eve_h} {cmds : eve_h_commands}
        {flash : eve_h_flash}.

(** The register accesses that restart the touch engine, given the
    three bytes [d], [g], [d'] read on the way: the engine held in
    reset, one bit of the direction register set, seven bits of the pin
    register set, the engine released, the direction bit cleared. *)
Definition wire_touch_reset (d g d' : Z) : list Event :=
  wire_wr8 (REG_CPU_RESET + RAM_REG) 2
    ++ wire_rd (REG_GPIOX_DIR + RAM_REG) [d]
    ++ wire_wr8 (REG_GPIOX_DIR + RAM_REG) (Z.lor d 0x08)
    ++ wire_rd (REG_GPIOX + RAM_REG) [g]
    ++ wire_wr8 (REG_GPIOX + RAM_REG) (Z.lor g 0xF7)
    ++ [Delay 1]
    ++ wire_wr8 (REG_CPU_RESET + RAM_REG) 0
    ++ [Delay 100]
    ++ wire_rd (REG_GPIOX_DIR + RAM_REG) [d']
    ++ wire_wr8 (REG_GPIOX_DIR + RAM_REG) (Z.land d' 0xF7).

(** X23.  When [UploadTouchFirmware] returns, the bus has seen, in this
    order: the firmware image passed through the FIFO intact (padded to
    a multiple of 4 with the bytes that follow it), the write cursor
    published, the turns of the wait for the FIFO to drain, the last
    of which read the same value from the read cursor and the write
    cursor, and only then the restart of the touch engine, in which
    every register is written with the value just read from it, one
    bit set or cleared. *)
Theorem UploadTouchFirmware_sequence polls host firmware length (s s' : World D) :
  0 <= length < 2^31 ->
  0 <= FifoWriteLocation s < FT_CMD_FIFO_SIZE ->
  UploadTouchFirmware polls host firmware length s = Ok tt s' ->
  exists up drain d g d',
    drained drain /\
    wire s' = wire s ++ up
                ++ wire_wr16 (REG_CMD_WRITE + RAM_REG) (FifoWriteLocation s')
                ++ drain
                ++ wire_touch_reset d g d' /\
    uploaded up = peek host firmware (round_up4 length) /\
    FifoWriteLocation s' = (FifoWriteLocation s + round_up4 length) mod FT_CMD_FIFO_SIZE.
Proof.
  intros Hlen Hloc Hrun. unfold UploadTouchFirmware in Hrun.
  apply bind_Ok in Hrun. destruct Hrun as ([] & s1 & Hup & Hrun).
  destruct (CoProWrCmdBuf_delivers _ _ _ _ _ _ Hlen Hloc Hup) as (up & Hwire & Hbytes & Hcur).
  rewrite (bind_run _ _ _ _ _ (UpdateFIFO_run _)) in Hrun.
  apply bind_Ok in Hrun. destruct Hrun as ([] & s3 & Hwait & Hrun).
  destruct (Wait4CoProFIFOEmpty_drained _ _ _ Hwait) as (drain & Hdrain & ->).
  rewrite extend_extend in Hrun.
  rewrite (bind_run _ _ _ _ _ (wr8_run _ _ _)), extend_extend in Hrun.
  rewrite !(Z.add_comm RAM_REG) in Hrun.
  match type of Hrun with
  | bind (rd8 ?a) _ ?st = _ => destruct (rd8_byte a st) as (d & _ & Hd)
  end.
  rewrite (bind_run _ _ _ _ _ Hd), extend_extend in Hrun.
  rewrite (bind_run _ _ _ _ _ (wr8_run _ _ _)), extend_extend in Hrun.
  match type of Hrun with
  | bind (rd8 ?a) _ ?st = _ => destruct (rd8_byte a st) as (g & _ & Hg)
  end.
  rewrite (bind_run _ _ _ _ _ Hg), extend_extend in Hrun.
  rewrite (bind_run _ _ _ _ _ (wr8_run _ _ _)), extend_extend in Hrun.
  rewrite (bind_run _ _ _ _ _ (HAL_Delay_run _ _)), extend_extend in Hrun.
  rewrite (bind_run _ _ _ _ _ (wr8_run _ _ _)), extend_extend in Hrun.
  rewrite (bind_run _ _ _ _ _ (HAL_Delay_run _ _)), extend_extend in Hrun.
  match type of Hrun with
  | bind (rd8 ?a) _ ?st = _ => destruct (rd8_byte a st) as (d' & _ & Hd')
  end.
  rewrite (bind_run _ _ _ _ _ Hd'), extend_extend in Hrun.
  rewrite wr8_run, extend_extend in Hrun.
  injection Hrun as <-.
  exists up, drain, d, g, d'. cbn [extend wire FifoWriteLocation].
  split; [exact Hdrain|]. split; [|split; [exact Hbytes | exact Hcur]].
  rewrite Hwire. unfold wire_touch_reset. rewrite <- !app_assoc. reflexivity.
Qed.

End TouchFirmware.

(** Six bytes of firmware on the idle chip. *)
Lemma UploadTouchFirmware_sequence_witness :
  0 <= 6 < 2^31 /\
  0 <= FifoWriteLocation idle < FT_CMD_FIFO_SIZE /\
  exists s' up,
    UploadTouchFirmware 2 (fun i => i + 1) 0 6 idle = Ok tt s' /\
    uploaded up = [1; 2; 3; 4; 5; 6; 7; 8] /\
    FifoWriteLocation s' = 8.
Proof.
  assert (H1 : 0 <= 6 < 2^31) by lia.
  assert (H2 : 0 <= FifoWriteLocation idle < FT_CMD_FIFO_SIZE)
    by (unfold FT_CMD_FIFO_SIZE; simpl; lia).
  eassert (Hrun : UploadTouchFirmware 2 (fun i => i + 1) 0 6 idle = Ok tt _)
    by (vm_compute; reflexivity).
  split; [exact H1|]. split; [exact H2|].
  destruct (UploadTouchFirmware_sequence 2 (fun i => i + 1) 0 6 idle _ H1 H2 Hrun)
    as (up & drain & d & g & d' & _ & _ & Hbytes & Hcur).
  eexists _, up. split; [exact Hrun|]. split; [exact Hbytes | exact Hcur].
Defined.
